(** * ABBSystemHardware: the ros2_control hardware interface of the ABB driver

    A shallow embedding of [abb_hardware_interface.cpp]: the lifecycle
    callbacks [on_init] and [on_activate], the two export functions and the
    read/write cycle, with the collaborators that live outside the file
    (the RWS and EGM managers, the base class, [std::stod]) taken as an
    interface. *)

From Stdlib Require Import ZArith String Ascii List Bool Lia.
From Stdlib Require Import Floats.PrimFloat.
From stdpp Require Import base option list gmap strings.

Local Open Scope string_scope.
Local Open Scope list_scope.
Local Open Scope Z_scope.

(** ** The C++ standard library pieces the file relies on *)

Module Std.

Inductive exception : Type :=
| invalid_argument
| out_of_range
| runtime_error
| other_exception.

(** What a call into a library yields: a value, or a thrown exception. *)
Inductive result (A : Type) : Type :=
| Ok (a : A)
| Throw (e : exception).
Arguments Ok {A} a.
Arguments Throw {A} e.

Definition INT_MIN : Z := - 2 ^ 31.
Definition INT_MAX : Z := 2 ^ 31 - 1.
Definition SIZE_MAX : Z := 2 ^ 64 - 1.

(** [std::string::npos] is [size_t(-1)]. *)
Definition npos : Z := SIZE_MAX.

(** [static_cast<uint16_t>(int)]: reduction modulo 2^16. *)
Definition to_uint16 (n : Z) : Z := n mod 2 ^ 16.

(** [++counter] on a [size_t]. *)
Definition size_t_succ (n : Z) : Z := (n + 1) mod 2 ^ 64.

(** [isspace] in the C locale: space, and the controls 9 to 13. *)
Definition isspace (c : ascii) : bool :=
  let n := Z.of_nat (nat_of_ascii c) in
  (n =? 32) || ((9 <=? n) && (n <=? 13)).

Definition digit_of (c : ascii) : option Z :=
  let n := Z.of_nat (nat_of_ascii c) in
  if (48 <=? n) && (n <=? 57) then Some (n - 48) else None.

Fixpoint skip_space (s : string) : string :=
  match s with
  | String c r => if isspace c then skip_space r else s
  | EmptyString => s
  end.

(** The longest run of decimal digits at the head of [s], as a number;
    [acc] is [None] until a first digit has been read. *)
Fixpoint read_digits (acc : option Z) (s : string) : option Z :=
  match s with
  | String c r =>
      match digit_of c with
      | Some d => read_digits (Some (10 * default 0 acc + d)) r
      | None => acc
      end
  | EmptyString => acc
  end.

Definition read_sign (s : string) : bool * string :=
  match s with
  | String "-" r => (true, r)
  | String "+" r => (false, r)
  | _ => (false, s)
  end.

(** [std::stoi(s)] (base 10): [strtol] skips leading white space, reads an
    optional sign and the longest run of digits; no digit at all raises
    [std::invalid_argument], a value that does not fit an [int] raises
    [std::out_of_range]; what follows the digits is ignored. *)
Definition stoi (s : string) : result Z :=
  let '(neg, digits) := read_sign (skip_space s) in
  match read_digits None digits with
  | None => Throw invalid_argument
  | Some v =>
      let n := if neg then - v else v in
      if (INT_MIN <=? n) && (n <=? INT_MAX) then Ok n else Throw out_of_range
  end.

(** Whether [haystack] starts with [needle]. *)
Fixpoint starts_with (needle haystack : string) : bool :=
  match needle, haystack with
  | EmptyString, _ => true
  | String a n', String b h' => Ascii.eqb a b && starts_with n' h'
  | String _ _, EmptyString => false
  end.

(** The least index at which [needle] occurs in [haystack]. *)
Fixpoint first_occurrence (needle haystack : string) : option nat :=
  if starts_with needle haystack then Some O
  else
    match haystack with
    | EmptyString => None
    | String _ rest => option_map S (first_occurrence needle rest)
    end.

(** [haystack.find(needle)]: the index of the first occurrence, or [npos]. *)
Definition find (haystack needle : string) : Z :=
  match first_occurrence needle haystack with
  | Some p => Z.of_nat p
  | None => npos
  end.

Fixpoint string_drop (n : nat) (s : string) : string :=
  match n, s with
  | O, _ => s
  | S n', String _ r => string_drop n' r
  | S _, EmptyString => EmptyString
  end.

(** [s.substr(pos)]: the suffix from [pos]; [std::out_of_range] when
    [pos > s.size()]. *)
Definition substr (s : string) (pos : Z) : result string :=
  if Z.of_nat (String.length s) <? pos then Throw out_of_range
  else Ok (string_drop (Z.to_nat pos) s).

(** [m[k]] on a [std::unordered_map<std::string, std::string>]: a missing
    key is inserted with the empty string, which is then returned. *)
Definition subscript (m : gmap string string) (k : string)
  : string * gmap string string :=
  match m !! k with
  | Some v => (v, m)
  | None => (EmptyString, <[k := EmptyString]> m)
  end.

End Std.

Export Std.

(** ** [hardware_interface]: what the ros2_control framework hands over *)

Module InterfaceInfo.
Record t : Type := { name : string; min : string; max : string }.
End InterfaceInfo.

Module ComponentInfo.
Record t : Type := {
  name : string;
  type : string;
  command_interfaces : list InterfaceInfo.t;
  state_interfaces : list InterfaceInfo.t;
  parameters : gmap string string;
}.
End ComponentInfo.

Module HardwareInfo.
Record t : Type := {
  joints : list ComponentInfo.t;
  hardware_parameters : gmap string string;
}.

Definition with_hardware_parameters (m : gmap string string) (i : t) : t :=
  {| joints := joints i; hardware_parameters := m |}.

Definition empty : t := {| joints := []; hardware_parameters := ∅ |}.
End HardwareInfo.

Inductive CallbackReturn : Type := SUCCESS | FAILURE | ERROR.

Inductive return_type : Type := OK | ERROR_.

Definition CallbackReturn_eqb (a b : CallbackReturn) : bool :=
  match a, b with
  | SUCCESS, SUCCESS | FAILURE, FAILURE | ERROR, ERROR => true
  | _, _ => false
  end.

(** ** [abb::robot]: the robot controller description (a protobuf message) *)

Inductive MechanicalUnit_Type : Type :=
| MechanicalUnit_Type_default
| MechanicalUnit_Type_TCP_ROBOT.

Inductive MechanicalUnit_Mode : Type :=
| MechanicalUnit_Mode_default
| MechanicalUnit_Mode_ACTIVATED.

Module StandardizedJoint.
Record t : Type := {
  standardized_name : string;
  rotating_move : bool;
  lower_joint_bound : float;
  upper_joint_bound : float;
}.
End StandardizedJoint.

Module MechanicalUnit.
Record t : Type := {
  type : MechanicalUnit_Type;
  axes_total : Z;
  mode : MechanicalUnit_Mode;
  standardized_joints : list StandardizedJoint.t;
}.

(** A message nobody has written to yet. *)
Definition default : t :=
  {| type := MechanicalUnit_Type_default; axes_total := 0;
     mode := MechanicalUnit_Mode_default; standardized_joints := [] |}.

Definition set_type (v : MechanicalUnit_Type) (u : t) : t :=
  {| type := v; axes_total := axes_total u; mode := mode u;
     standardized_joints := standardized_joints u |}.
Definition set_axes_total (v : Z) (u : t) : t :=
  {| type := type u; axes_total := v; mode := mode u;
     standardized_joints := standardized_joints u |}.
Definition set_mode (v : MechanicalUnit_Mode) (u : t) : t :=
  {| type := type u; axes_total := axes_total u; mode := v;
     standardized_joints := standardized_joints u |}.
Definition add_standardized_joints (j : StandardizedJoint.t) (u : t) : t :=
  {| type := type u; axes_total := axes_total u; mode := mode u;
     standardized_joints := standardized_joints u ++ [j] |}.
End MechanicalUnit.

Module MechanicalUnitGroup.
Record t : Type := { name : string; robot : option MechanicalUnit.t }.

Definition default : t := {| name := EmptyString; robot := None |}.

Definition set_name (v : string) (g : t) : t :=
  {| name := v; robot := robot g |}.

(** [mutable_robot()] creates the sub-message on first use; [f] is what is
    then done through the returned pointer. *)
Definition mutable_robot (f : MechanicalUnit.t -> MechanicalUnit.t) (g : t) : t :=
  {| name := name g;
     robot := Some (f (match robot g with
                       | Some u => u
                       | None => MechanicalUnit.default
                       end)) |}.
End MechanicalUnitGroup.

Module RobotWareVersion.
Record t : Type := { major_number : Z; minor_number : Z; patch_number : Z }.
Definition default : t :=
  {| major_number := 0; minor_number := 0; patch_number := 0 |}.
End RobotWareVersion.

Module RobotControllerDescription.
Record t : Type := {
  header_robot_ware_version : RobotWareVersion.t;
  system_indicators_options_egm : bool;
  mechanical_units_groups : list MechanicalUnitGroup.t;
}.

Definition default : t :=
  {| header_robot_ware_version := RobotWareVersion.default;
     system_indicators_options_egm := false;
     mechanical_units_groups := [] |}.

Definition set_robot_ware_version (v : RobotWareVersion.t) (d : t) : t :=
  {| header_robot_ware_version := v;
     system_indicators_options_egm := system_indicators_options_egm d;
     mechanical_units_groups := mechanical_units_groups d |}.
Definition set_egm (v : bool) (d : t) : t :=
  {| header_robot_ware_version := header_robot_ware_version d;
     system_indicators_options_egm := v;
     mechanical_units_groups := mechanical_units_groups d |}.
Definition set_groups (gs : list MechanicalUnitGroup.t) (d : t) : t :=
  {| header_robot_ware_version := header_robot_ware_version d;
     system_indicators_options_egm := system_indicators_options_egm d;
     mechanical_units_groups := gs |}.
End RobotControllerDescription.

(** ** [abb::robot::MotionData]: the mirror of the joints' values *)

Module JointData.
Record t : Type := { position : float; velocity : float }.
End JointData.

Module Joint.
Record t : Type := { name : string; state : JointData.t; command : JointData.t }.
End Joint.

Module Unit_.
Record t : Type := { joints : list Joint.t }.
End Unit_.

Module Group.
Record t : Type := { units : list Unit_.t }.
End Group.

Module MotionData.
Record t : Type := { groups : list Group.t }.
Definition default : t := {| groups := [] |}.
End MotionData.

(** ** The RWS and EGM managers, seen from this file *)

Module RWSManager.
Record t : Type := {
  ip_address : string;
  port_number : Z;
  username : string;
  password : string;
}.
End RWSManager.

Module ChannelConfiguration.
Record t : Type := {
  port_number : Z;
  mech_unit_group : MechanicalUnitGroup.t;
}.
End ChannelConfiguration.

Module EGMManager.
Record t : Type := { channel_configurations : list ChannelConfiguration.t }.
End EGMManager.

(** What the file calls and does not define.  [rclcpp_ok n] is the answer of
    the [n]-th call (from 0) of [rclcpp::ok()] during one activation;
    [waitForMessage m k ms] is the answer of the [k]-th wait (from 1) on
    manager [m]. *)
Class Externals : Type := {
  HW_IF_POSITION : string;
  HW_IF_VELOCITY : string;
  stod : string -> result float;
  SystemInterface_on_init : HardwareInfo.t -> CallbackReturn;
  establishRWSConnection :
    RWSManager.t -> string -> bool -> result RobotControllerDescription.t;
  initializeMotionData :
    MotionData.t -> RobotControllerDescription.t -> result MotionData.t;
  EGMManager_constructor : list ChannelConfiguration.t -> option exception;
  rclcpp_ok : Z -> bool;
  waitForMessage : EGMManager.t -> Z -> Z -> bool;
  EGMManager_read : EGMManager.t -> MotionData.t -> MotionData.t;
  EGMManager_write : EGMManager.t -> MotionData.t -> MotionData.t;
}.

(** ** The hardware interface object *)

Module ABBSystemHardware.
Record t : Type := {
  info_ : HardwareInfo.t;
  robot_controller_description_ : RobotControllerDescription.t;
  motion_data_ : MotionData.t;
  egm_manager_ : option EGMManager.t;
}.

(** A freshly constructed instance: every member default-constructed. *)
Definition new : t :=
  {| info_ := HardwareInfo.empty;
     robot_controller_description_ := RobotControllerDescription.default;
     motion_data_ := MotionData.default;
     egm_manager_ := None |}.

Definition set_info (v : HardwareInfo.t) (s : t) : t :=
  {| info_ := v;
     robot_controller_description_ := robot_controller_description_ s;
     motion_data_ := motion_data_ s;
     egm_manager_ := egm_manager_ s |}.
Definition set_description (v : RobotControllerDescription.t) (s : t) : t :=
  {| info_ := info_ s;
     robot_controller_description_ := v;
     motion_data_ := motion_data_ s;
     egm_manager_ := egm_manager_ s |}.
Definition set_motion_data (v : MotionData.t) (s : t) : t :=
  {| info_ := info_ s;
     robot_controller_description_ := robot_controller_description_ s;
     motion_data_ := v;
     egm_manager_ := egm_manager_ s |}.
Definition set_egm_manager (v : option EGMManager.t) (s : t) : t :=
  {| info_ := info_ s;
     robot_controller_description_ := robot_controller_description_ s;
     motion_data_ := motion_data_ s;
     egm_manager_ := v |}.
End ABBSystemHardware.

(** ** What a run leaves behind: log lines and calls to the collaborators *)

Inductive severity : Type := INFO | ERROR_LOG | FATAL.

Inductive message : Type :=
| Msg_command_interface_count (joint : string) (found : nat)
| Msg_first_command_interface (joint found : string)
| Msg_second_command_interface (joint found : string)
| Msg_state_interface_count (joint : string) (found : nat)
| Msg_first_state_interface (joint found : string)
| Msg_second_state_interface (joint found : string)
| Msg_generating_from_RWS
| Msg_RWS_IP_not_specified
| Msg_generating_from_HardwareInfo
| Msg_configured_component (joint type : string) (min max : float)
| Msg_description_summary (d : RobotControllerDescription.t)
| Msg_configuring_EGM
| Msg_motion_data_failed
| Msg_configuring_EGM_group (group : string) (port : Z)
| Msg_EGM_port_not_specified (group : string)
| Msg_EGM_init_failed
| Msg_connecting
| Msg_connected
| Msg_not_connected
| Msg_failed_to_connect
| Msg_started.

Inductive event : Type :=
| Log (s : severity) (m : message)
| Call_establishRWSConnection (m : RWSManager.t) (unit_name : string) (flag : bool)
| Call_initializeMotionData
| Call_EGMManager (cfgs : list ChannelConfiguration.t)
| Call_waitForMessage (timeout_ms : Z)
| Call_sleep_for (ms : Z)
| Call_read
| Call_write.

(** A log line is no I/O; every call to a collaborator is. *)
Definition is_call (e : event) : bool :=
  match e with
  | Log _ _ => false
  | _ => true
  end.

(** ** Statements of a callback body

    A statement runs on the object, and either falls through with a value,
    leaves the callback by [return], throws, reads through a dangling
    pointer or index, or (for a loop run on fuel) has not finished. *)

Inductive step (A : Type) : Type :=
| Next (a : A)
| Return (r : CallbackReturn)
| Raise (e : exception)
| Undefined
| OutOfFuel.
Arguments Next {A} a.
Arguments Return {A} r.
Arguments Raise {A} e.
Arguments Undefined {A}.
Arguments OutOfFuel {A}.

Definition M (A : Type) : Type :=
  ABBSystemHardware.t -> step A * ABBSystemHardware.t * list event.

Definition ret {A} (a : A) : M A := fun s => (Next a, s, []).

Definition bind {A B} (m : M A) (k : A -> M B) : M B :=
  fun s =>
    match m s with
    | (Next a, s1, t1) => let '(r, s2, t2) := k a s1 in (r, s2, t1 ++ t2)
    | (Return r, s1, t1) => (Return r, s1, t1)
    | (Raise e, s1, t1) => (Raise e, s1, t1)
    | (Undefined, s1, t1) => (Undefined, s1, t1)
    | (OutOfFuel, s1, t1) => (OutOfFuel, s1, t1)
    end.

Notation "x <- m ;; k" := (bind m (fun x => k))
  (at level 100, m at next level, right associativity).
Notation "m ;; k" := (bind m (fun _ => k))
  (at level 100, right associativity).

Definition return_ {A} (r : CallbackReturn) : M A := fun s => (Return r, s, []).
Definition raise {A} (e : exception) : M A := fun s => (Raise e, s, []).
Definition undefined {A} : M A := fun s => (Undefined, s, []).
Definition out_of_fuel {A} : M A := fun s => (OutOfFuel, s, []).
Definition gets {A} (f : ABBSystemHardware.t -> A) : M A := fun s => (Next (f s), s, []).
Definition modify (f : ABBSystemHardware.t -> ABBSystemHardware.t) : M unit :=
  fun s => (Next tt, f s, []).
Definition emit (e : event) : M unit := fun s => (Next tt, s, [e]).
Definition log (sev : severity) (m : message) : M unit := emit (Log sev m).

(** The value of a library call, or its exception thrown on. *)
Definition lift {A} (r : result A) : M A :=
  match r with
  | Ok a => ret a
  | Throw e => raise e
  end.

(** [v[i]] on a [std::vector]: out of range is undefined behaviour. *)
Definition at_index {A} (v : list A) (i : nat) : M A :=
  match v !! i with
  | Some a => ret a
  | None => undefined
  end.

(** A range-based [for] whose body neither breaks nor continues. *)
Fixpoint for_each {A} (l : list A) (body : A -> M unit) : M unit :=
  match l with
  | [] => ret tt
  | a :: l' => body a ;; for_each l' body
  end.

(** How a callback ends, seen by its caller. *)
Inductive outcome : Type :=
| Returned (r : CallbackReturn)
| Thrown (e : exception)
| UndefinedBehaviour
| NotFinished.

Definition call (body : M CallbackReturn) (s : ABBSystemHardware.t)
  : outcome * ABBSystemHardware.t * list event :=
  match body s with
  | (Next r, s', t) => (Returned r, s', t)
  | (Return r, s', t) => (Returned r, s', t)
  | (Raise e, s', t) => (Thrown e, s', t)
  | (Undefined, s', t) => (UndefinedBehaviour, s', t)
  | (OutOfFuel, s', t) => (NotFinished, s', t)
  end.

Definition NUM_CONNECTION_TRIES : Z := 100.

Section Callbacks.
Context `{Externals}.

Import ABBSystemHardware.

(** *** [on_init], lines 34 to 77: the interface contract of one joint *)

Definition validate_joint (joint : ComponentInfo.t) : M unit :=
  let cis := ComponentInfo.command_interfaces joint in
  let sis := ComponentInfo.state_interfaces joint in
  let jname := ComponentInfo.name joint in
  (if negb (length cis =? 2)%nat
   then log FATAL (Msg_command_interface_count jname (length cis)) ;;
        return_ ERROR
   else ret tt) ;;
  c0 <- at_index cis 0 ;;
  (if negb (String.eqb (InterfaceInfo.name c0) HW_IF_POSITION)
   then log FATAL (Msg_first_command_interface jname (InterfaceInfo.name c0)) ;;
        return_ ERROR
   else ret tt) ;;
  c1 <- at_index cis 1 ;;
  (if negb (String.eqb (InterfaceInfo.name c1) HW_IF_VELOCITY)
   then log FATAL (Msg_second_command_interface jname (InterfaceInfo.name c1)) ;;
        return_ ERROR
   else ret tt) ;;
  (if negb (length sis =? 2)%nat
   then log FATAL (Msg_state_interface_count jname (length sis)) ;;
        return_ ERROR
   else ret tt) ;;
  s0 <- at_index sis 0 ;;
  (if negb (String.eqb (InterfaceInfo.name s0) HW_IF_POSITION)
   then log FATAL (Msg_first_state_interface jname (InterfaceInfo.name s0)) ;;
        return_ ERROR
   else ret tt) ;;
  s1 <- at_index sis 1 ;;
  (if negb (String.eqb (InterfaceInfo.name s1) HW_IF_VELOCITY)
   then log FATAL (Msg_second_state_interface jname (InterfaceInfo.name s1)) ;;
        return_ ERROR
   else ret tt).

(** *** Lines 82 to 85: which way the description is built *)

Definition configure_via_rws (hardware_parameters : gmap string string) : bool :=
  match hardware_parameters !! "configure_via_rws" with
  | None => true
  | Some second =>
      if String.eqb second "false" || String.eqb second "False"
      then false
      else true
  end.

(** [info_.hardware_parameters[key]], which may grow the map. *)
Definition hardware_parameters_subscript (key : string) : M string :=
  fun s =>
    let '(v, m) := subscript (HardwareInfo.hardware_parameters (info_ s)) key in
    (Next v, set_info (HardwareInfo.with_hardware_parameters m (info_ s)) s, []).

(** *** Lines 89 to 101: the description as the controller reports it *)

Definition description_from_RWS : M unit :=
  log INFO Msg_generating_from_RWS ;;
  port_string <- hardware_parameters_subscript "rws_port" ;;
  rws_port <- lift (stoi port_string) ;;
  rws_ip <- hardware_parameters_subscript "rws_ip" ;;
  (if String.eqb rws_ip "None"
   then log FATAL Msg_RWS_IP_not_specified ;; return_ ERROR
   else ret tt) ;;
  let rws_manager :=
    {| RWSManager.ip_address := rws_ip; RWSManager.port_number := rws_port;
       RWSManager.username := "Default User";
       RWSManager.password := "robotics" |} in
  emit (Call_establishRWSConnection rws_manager "IRB1200" true) ;;
  description <- lift (establishRWSConnection rws_manager "IRB1200" true) ;;
  modify (set_description description).

(** *** Lines 105 to 157: the description made up from the joints *)

Definition modify_description
    (f : RobotControllerDescription.t -> RobotControllerDescription.t) : M unit :=
  modify (fun s => set_description (f (robot_controller_description_ s)) s).

(** [add_mechanical_units_groups()]: a new group at the end; the pointer it
    returns is kept as the group's index. *)
Definition add_mechanical_units_groups : M nat :=
  fun s =>
    let d := robot_controller_description_ s in
    let gs := RobotControllerDescription.mechanical_units_groups d in
    (Next (length gs),
     set_description
       (RobotControllerDescription.set_groups (gs ++ [MechanicalUnitGroup.default]) d) s,
     []).

Definition modify_group (mug : nat)
    (f : MechanicalUnitGroup.t -> MechanicalUnitGroup.t) : M unit :=
  modify_description (fun d =>
    RobotControllerDescription.set_groups
      (alter f mug (RobotControllerDescription.mechanical_units_groups d)) d).

Definition is_revolute (joint : ComponentInfo.t) : bool :=
  match ComponentInfo.parameters joint !! "type" with
  | Some second => if negb (String.eqb second "revolute") then false else true
  | None => true
  end.

(** The loop of lines 139 to 156 over one joint's command interfaces: the
    first one of position type gives the bounds, then [break]. *)
Fixpoint add_joint (mug : nat) (joint : ComponentInfo.t)
    (command_interfaces : list InterfaceInfo.t) : M unit :=
  match command_interfaces with
  | [] => ret tt
  | joint_info :: rest =>
      if String.eqb (InterfaceInfo.name joint_info) HW_IF_POSITION
      then
        min <- lift (stod (InterfaceInfo.min joint_info)) ;;
        max <- lift (stod (InterfaceInfo.max joint_info)) ;;
        modify_group mug (MechanicalUnitGroup.mutable_robot
          (MechanicalUnit.add_standardized_joints
             {| StandardizedJoint.standardized_name := ComponentInfo.name joint;
                StandardizedJoint.rotating_move := is_revolute joint;
                StandardizedJoint.lower_joint_bound := min;
                StandardizedJoint.upper_joint_bound := max |})) ;;
        log INFO (Msg_configured_component (ComponentInfo.name joint)
                    (ComponentInfo.type joint) min max)
      else add_joint mug joint rest
  end.

Definition description_from_HardwareInfo : M unit :=
  log INFO Msg_generating_from_HardwareInfo ;;
  modify_description (RobotControllerDescription.set_robot_ware_version
    {| RobotWareVersion.major_number := 7;
       RobotWareVersion.minor_number := 3;
       RobotWareVersion.patch_number := 2 |}) ;;
  modify_description (RobotControllerDescription.set_egm true) ;;
  mug <- add_mechanical_units_groups ;;
  modify_group mug (MechanicalUnitGroup.set_name EmptyString) ;;
  modify_group mug (MechanicalUnitGroup.mutable_robot
    (MechanicalUnit.set_type MechanicalUnit_Type_TCP_ROBOT)) ;;
  joints <- gets (fun s => HardwareInfo.joints (info_ s)) ;;
  modify_group mug (MechanicalUnitGroup.mutable_robot
    (MechanicalUnit.set_axes_total (Z.of_nat (length joints)))) ;;
  modify_group mug (MechanicalUnitGroup.mutable_robot
    (MechanicalUnit.set_mode MechanicalUnit_Mode_ACTIVATED)) ;;
  for_each joints (fun joint =>
    add_joint mug joint (ComponentInfo.command_interfaces joint)).

(** *** Lines 167 to 175 *)

Definition initialize_motion_data : M unit :=
  emit Call_initializeMotionData ;;
  motion_data <- gets motion_data_ ;;
  description <- gets robot_controller_description_ ;;
  match initializeMotionData motion_data description with
  | Ok motion_data' => modify (set_motion_data motion_data')
  | Throw _ => log ERROR_LOG Msg_motion_data_failed ;; return_ ERROR
  end.

(** *** Lines 178 to 196: one channel configuration per group *)

Fixpoint channel_configurations_loop (groups : list MechanicalUnitGroup.t)
    (channel_configurations : list ChannelConfiguration.t)
  : M (list ChannelConfiguration.t) :=
  match groups with
  | [] => ret channel_configurations
  | group :: rest =>
      port_string <-
        hardware_parameters_subscript (MechanicalUnitGroup.name group +:+ "egm_port") ;;
      match stoi port_string with
      | Ok egm_port =>
          let channel_configuration :=
            {| ChannelConfiguration.port_number := to_uint16 egm_port;
               ChannelConfiguration.mech_unit_group := group |} in
          log INFO (Msg_configuring_EGM_group (MechanicalUnitGroup.name group) egm_port) ;;
          channel_configurations_loop rest
            (channel_configurations ++ [channel_configuration])
      | Throw invalid_argument =>
          log FATAL (Msg_EGM_port_not_specified (MechanicalUnitGroup.name group)) ;;
          return_ ERROR
      | Throw e => raise e
      end
  end.

(** *** Lines 197 to 205 *)

Definition make_egm_manager (channel_configurations : list ChannelConfiguration.t)
  : M unit :=
  emit (Call_EGMManager channel_configurations) ;;
  match EGMManager_constructor channel_configurations with
  | None =>
      modify (set_egm_manager
        (Some {| EGMManager.channel_configurations := channel_configurations |}))
  | Some runtime_error => log ERROR_LOG Msg_EGM_init_failed ;; return_ ERROR
  | Some e => raise e
  end.

(** Lines 82 to 158. *)
Definition build_description : M unit :=
  via_rws <- gets (fun s => configure_via_rws (HardwareInfo.hardware_parameters (info_ s))) ;;
  if via_rws then description_from_RWS else description_from_HardwareInfo.

(** Lines 160 to 207. *)
Definition configure_egm : M CallbackReturn :=
  description <- gets robot_controller_description_ ;;
  log INFO (Msg_description_summary description) ;;
  log INFO Msg_configuring_EGM ;;
  initialize_motion_data ;;
  description <- gets robot_controller_description_ ;;
  channel_configurations <-
    channel_configurations_loop
      (RobotControllerDescription.mechanical_units_groups description) [] ;;
  make_egm_manager channel_configurations ;;
  ret SUCCESS.

Definition on_init_body (info : HardwareInfo.t) : M CallbackReturn :=
  (* SystemInterface::on_init stores [info] in [info_]. *)
  modify (set_info info) ;;
  (if negb (CallbackReturn_eqb (SystemInterface_on_init info) SUCCESS)
   then return_ ERROR
   else ret tt) ;;
  joints <- gets (fun s => HardwareInfo.joints (info_ s)) ;;
  for_each joints validate_joint ;;
  build_description ;;
  configure_egm.

Definition on_init (info : HardwareInfo.t) (s : t) : outcome * t * list event :=
  call (on_init_body info) s.

(** *** [on_activate], lines 259 to 295 *)

(** [egm_manager_->], a null [unique_ptr] being undefined behaviour. *)
Definition egm_manager : M EGMManager.t :=
  fun s =>
    match egm_manager_ s with
    | Some egm => (Next egm, s, [])
    | None => (Undefined, s, [])
    end.

(** The [while] of lines 261 to 277, entered with [counter]; [break] and
    the end of the loop both fall through. *)
Fixpoint connection_loop (fuel : nat) (counter : Z) : M unit :=
  match fuel with
  | O => out_of_fuel
  | S fuel' =>
      if negb (rclcpp_ok counter) then ret tt
      else
        let counter := size_t_succ counter in
        if negb (counter <? NUM_CONNECTION_TRIES) then ret tt
        else
          egm <- egm_manager ;;
          emit (Call_waitForMessage 500) ;;
          if waitForMessage egm counter 500
          then log INFO Msg_connected
          else
            log INFO Msg_not_connected ;;
            (if counter =? NUM_CONNECTION_TRIES
             then log ERROR_LOG Msg_failed_to_connect ;; return_ ERROR
             else ret tt) ;;
            emit (Call_sleep_for 500) ;;
            connection_loop fuel' counter
  end.

Definition seed_joint (joint : Joint.t) : Joint.t :=
  let joint1 :=
    {| Joint.name := Joint.name joint;
       Joint.state := Joint.state joint;
       Joint.command :=
         {| JointData.position := JointData.position (Joint.state joint);
            JointData.velocity := JointData.velocity (Joint.command joint) |} |} in
  {| Joint.name := Joint.name joint1;
     Joint.state := Joint.state joint1;
     Joint.command :=
       {| JointData.position := JointData.position (Joint.command joint1);
          JointData.velocity := 0%float |} |}.

Definition seed_unit (unit : Unit_.t) : Unit_.t :=
  {| Unit_.joints := map seed_joint (Unit_.joints unit) |}.
Definition seed_group (group : Group.t) : Group.t :=
  {| Group.units := map seed_unit (Group.units group) |}.
Definition seed_commands (motion_data : MotionData.t) : MotionData.t :=
  {| MotionData.groups := map seed_group (MotionData.groups motion_data) |}.

Definition egm_read : M unit :=
  egm <- egm_manager ;;
  emit Call_read ;;
  modify (fun s => set_motion_data (EGMManager_read egm (motion_data_ s)) s).

Definition egm_write : M unit :=
  egm <- egm_manager ;;
  emit Call_write ;;
  modify (fun s => set_motion_data (EGMManager_write egm (motion_data_ s)) s).

Definition on_activate_body : M CallbackReturn :=
  log INFO Msg_connecting ;;
  connection_loop (Z.to_nat NUM_CONNECTION_TRIES) 0 ;;
  egm_read ;;
  modify (fun s => set_motion_data (seed_commands (motion_data_ s)) s) ;;
  log INFO Msg_started ;;
  ret SUCCESS.

Definition on_activate (s : t) : outcome * t * list event :=
  call on_activate_body s.

(** *** [read] and [write], lines 297 to 307 *)

Definition read : M return_type := egm_read ;; ret OK.
Definition write : M return_type := egm_write ;; ret OK.

End Callbacks.

(** ** The exported handles: raw pointers into the motion data *)

Inductive member : Type :=
| state_position
| state_velocity
| command_position
| command_velocity.

(** [&motion_data_.groups[g].units[u].joints[j].<member>] *)
Module Pointer.
Record t : Type := { group : nat; unit : nat; joint : nat; target : member }.
End Pointer.

Module Handle.
Record t : Type := {
  name : string;
  interface_name : string;
  value_ptr : Pointer.t;
}.
End Handle.

Definition joint_member (m : member) (joint : Joint.t) : float :=
  match m with
  | state_position => JointData.position (Joint.state joint)
  | state_velocity => JointData.velocity (Joint.state joint)
  | command_position => JointData.position (Joint.command joint)
  | command_velocity => JointData.velocity (Joint.command joint)
  end.

Definition set_joint_member (m : member) (v : float) (joint : Joint.t) : Joint.t :=
  let st := Joint.state joint in
  let cmd := Joint.command joint in
  match m with
  | state_position =>
      {| Joint.name := Joint.name joint;
         Joint.state := {| JointData.position := v; JointData.velocity := JointData.velocity st |};
         Joint.command := cmd |}
  | state_velocity =>
      {| Joint.name := Joint.name joint;
         Joint.state := {| JointData.position := JointData.position st; JointData.velocity := v |};
         Joint.command := cmd |}
  | command_position =>
      {| Joint.name := Joint.name joint; Joint.state := st;
         Joint.command := {| JointData.position := v; JointData.velocity := JointData.velocity cmd |} |}
  | command_velocity =>
      {| Joint.name := Joint.name joint; Joint.state := st;
         Joint.command := {| JointData.position := JointData.position cmd; JointData.velocity := v |} |}
  end.

(** [*p], when [p] points into [motion_data]. *)
Definition load (p : Pointer.t) (motion_data : MotionData.t) : option float :=
  match MotionData.groups motion_data !! Pointer.group p with
  | Some group =>
      match Group.units group !! Pointer.unit p with
      | Some unit =>
          match Unit_.joints unit !! Pointer.joint p with
          | Some joint => Some (joint_member (Pointer.target p) joint)
          | None => None
          end
      | None => None
      end
  | None => None
  end.

(** [*p = v] *)
Definition store (p : Pointer.t) (v : float) (motion_data : MotionData.t)
  : MotionData.t :=
  {| MotionData.groups :=
       alter (fun group =>
         {| Group.units :=
              alter (fun unit =>
                {| Unit_.joints :=
                     alter (set_joint_member (Pointer.target p) v)
                       (Pointer.joint p) (Unit_.joints unit) |})
                (Pointer.unit p) (Group.units group) |})
         (Pointer.group p) (MotionData.groups motion_data) |}.

Definition get_value (h : Handle.t) (motion_data : MotionData.t) : option float :=
  load (Handle.value_ptr h) motion_data.

Definition set_value (h : Handle.t) (v : float) (motion_data : MotionData.t)
  : MotionData.t :=
  store (Handle.value_ptr h) v motion_data.

Section Exporting.
Context `{Externals}.

(** The body shared, word for word, by the innermost loops of lines 217 to
    227 and 240 to 250; [position] and [velocity] are the two members the
    handles point to. *)
Definition export_joint (position velocity : member) (g u j : nat)
    (joint : Joint.t) (interfaces : list Handle.t) : result (list Handle.t) :=
  let pos := find (Joint.name joint) "joint" in
  match substr (Joint.name joint) pos with
  | Ok joint_name =>
      Ok (interfaces ++
          [ {| Handle.name := joint_name; Handle.interface_name := HW_IF_POSITION;
               Handle.value_ptr :=
                 {| Pointer.group := g; Pointer.unit := u; Pointer.joint := j;
                    Pointer.target := position |} |};
            {| Handle.name := joint_name; Handle.interface_name := HW_IF_VELOCITY;
               Handle.value_ptr :=
                 {| Pointer.group := g; Pointer.unit := u; Pointer.joint := j;
                    Pointer.target := velocity |} |} ])
  | Throw e => Throw e
  end.

Fixpoint export_joints (position velocity : member) (g u j : nat)
    (joints : list Joint.t) (interfaces : list Handle.t) : result (list Handle.t) :=
  match joints with
  | [] => Ok interfaces
  | joint :: rest =>
      match export_joint position velocity g u j joint interfaces with
      | Ok interfaces' => export_joints position velocity g u (S j) rest interfaces'
      | Throw e => Throw e
      end
  end.

Fixpoint export_units (position velocity : member) (g u : nat)
    (units : list Unit_.t) (interfaces : list Handle.t) : result (list Handle.t) :=
  match units with
  | [] => Ok interfaces
  | unit :: rest =>
      match export_joints position velocity g u 0 (Unit_.joints unit) interfaces with
      | Ok interfaces' => export_units position velocity g (S u) rest interfaces'
      | Throw e => Throw e
      end
  end.

Fixpoint export_groups (position velocity : member) (g : nat)
    (groups : list Group.t) (interfaces : list Handle.t) : result (list Handle.t) :=
  match groups with
  | [] => Ok interfaces
  | group :: rest =>
      match export_units position velocity g 0 (Group.units group) interfaces with
      | Ok interfaces' => export_groups position velocity (S g) rest interfaces'
      | Throw e => Throw e
      end
  end.

Definition export_state_interfaces (s : ABBSystemHardware.t)
  : result (list Handle.t) :=
  export_groups state_position state_velocity 0
    (MotionData.groups (ABBSystemHardware.motion_data_ s)) [].

Definition export_command_interfaces (s : ABBSystemHardware.t)
  : result (list Handle.t) :=
  export_groups command_position command_velocity 0
    (MotionData.groups (ABBSystemHardware.motion_data_ s)) [].

End Exporting.

(** ** A test double for the collaborators

    Used to run the callbacks on concrete inputs: the framework's interface
    names, a [std::stod] that knows the decimal strings of the examples, a
    motion-data initializer that mirrors the description with zeroes, an EGM
    manager whose channel answers as [answers] says and whose read reports
    every joint at position [observed]. *)

Module Sample.

(** The double nearest to 0.7. *)
Definition seven_tenths : float := 0x1.6666666666666p-1%float.

Definition known_stod (s : string) : result float :=
  if String.eqb s "-1.0" then Ok (-1)%float
  else if String.eqb s "1.0" then Ok 1%float
  else if String.eqb s "0.0" then Ok 0%float
  else if String.eqb s "0.5" then Ok 0.5%float
  else Throw invalid_argument.

Definition zero : JointData.t :=
  {| JointData.position := 0%float; JointData.velocity := 0%float |}.

Definition mirror_joint (j : StandardizedJoint.t) : Joint.t :=
  {| Joint.name := StandardizedJoint.standardized_name j;
     Joint.state := zero; Joint.command := zero |}.

Definition mirror_group (g : MechanicalUnitGroup.t) : Group.t :=
  {| Group.units :=
       match MechanicalUnitGroup.robot g with
       | Some robot =>
           [ {| Unit_.joints :=
                  map mirror_joint (MechanicalUnit.standardized_joints robot) |} ]
       | None => []
       end |}.

Definition mirror (_ : MotionData.t)
    (d : RobotControllerDescription.t) : result MotionData.t :=
  Ok {| MotionData.groups :=
          map mirror_group (RobotControllerDescription.mechanical_units_groups d) |}.

Definition observe_joint (observed : float) (j : Joint.t) : Joint.t :=
  {| Joint.name := Joint.name j;
     Joint.state :=
       {| JointData.position := observed;
          JointData.velocity := JointData.velocity (Joint.state j) |};
     Joint.command := Joint.command j |}.

Definition read_at (observed : float) (_ : EGMManager.t)
    (md : MotionData.t) : MotionData.t :=
  {| MotionData.groups :=
       map (fun g =>
         {| Group.units :=
              map (fun u => {| Unit_.joints := map (observe_joint observed) (Unit_.joints u) |})
                (Group.units g) |})
         (MotionData.groups md) |}.

(** The description a controller with one group named arm reports. *)
Definition arm : MechanicalUnitGroup.t :=
  {| MechanicalUnitGroup.name := "arm";
     MechanicalUnitGroup.robot :=
       Some {| MechanicalUnit.type := MechanicalUnit_Type_TCP_ROBOT;
               MechanicalUnit.axes_total := 1;
               MechanicalUnit.mode := MechanicalUnit_Mode_ACTIVATED;
               MechanicalUnit.standardized_joints :=
                 [ {| StandardizedJoint.standardized_name := "rob1_joint_1";
                      StandardizedJoint.rotating_move := true;
                      StandardizedJoint.lower_joint_bound := (-1)%float;
                      StandardizedJoint.upper_joint_bound := 1%float |} ] |} |}.

Definition controller_description : RobotControllerDescription.t :=
  {| RobotControllerDescription.header_robot_ware_version :=
       {| RobotWareVersion.major_number := 7; RobotWareVersion.minor_number := 3;
          RobotWareVersion.patch_number := 2 |};
     RobotControllerDescription.system_indicators_options_egm := true;
     RobotControllerDescription.mechanical_units_groups := [arm] |}.

Definition externals (answers : Z -> bool) (observed : float) : Externals :=
  {| HW_IF_POSITION := "position";
     HW_IF_VELOCITY := "velocity";
     stod := known_stod;
     SystemInterface_on_init := fun _ => SUCCESS;
     establishRWSConnection := fun _ _ _ => Ok controller_description;
     initializeMotionData := mirror;
     EGMManager_constructor := fun _ => None;
     rclcpp_ok := fun _ => true;
     waitForMessage := fun _ attempt _ => answers attempt;
     EGMManager_read := read_at observed;
     EGMManager_write := fun _ md => md |}.

Definition never : Z -> bool := fun _ => false.
Definition at_attempt (n : Z) : Z -> bool := fun attempt => attempt =? n.

Definition position (min max : string) : InterfaceInfo.t :=
  {| InterfaceInfo.name := "position"; InterfaceInfo.min := min; InterfaceInfo.max := max |}.
Definition velocity : InterfaceInfo.t :=
  {| InterfaceInfo.name := "velocity"; InterfaceInfo.min := EmptyString;
     InterfaceInfo.max := EmptyString |}.

Definition joint (name : string) (parameters : gmap string string)
    (min max : string) : ComponentInfo.t :=
  {| ComponentInfo.name := name; ComponentInfo.type := "joint";
     ComponentInfo.command_interfaces := [position min max; velocity];
     ComponentInfo.state_interfaces := [position EmptyString EmptyString; velocity];
     ComponentInfo.parameters := parameters |}.

Definition j1 : ComponentInfo.t := joint "j1" ∅ "-1.0" "1.0".
Definition j2 : ComponentInfo.t :=
  joint "j2" {[ "type" := "prismatic" ]} "0.0" "0.5".

(** The joints of the two-joint example, built without the controller. *)
Definition synthesis_info : HardwareInfo.t :=
  {| HardwareInfo.joints := [j1; j2];
     HardwareInfo.hardware_parameters :=
       {[ "configure_via_rws" := "false"; "egm_port" := "6511" ]} |}.

(** A joint whose lower bound is no number. *)
Definition unparsable_info : HardwareInfo.t :=
  {| HardwareInfo.joints := [joint "j1" ∅ "abc" "1.0"];
     HardwareInfo.hardware_parameters :=
       {[ "configure_via_rws" := "false"; "egm_port" := "6511" ]} |}.

(** A joint with a single command interface. *)
Definition one_interface_info : HardwareInfo.t :=
  {| HardwareInfo.joints :=
       [ j1;
         {| ComponentInfo.name := "j2"; ComponentInfo.type := "joint";
            ComponentInfo.command_interfaces := [position "0.0" "0.5"];
            ComponentInfo.state_interfaces := [position EmptyString EmptyString; velocity];
            ComponentInfo.parameters := ∅ |} ];
     HardwareInfo.hardware_parameters := ∅ |}.

(** Query mode with a port and no [rws_ip] at all. *)
Definition no_ip_info : HardwareInfo.t :=
  {| HardwareInfo.joints := [];
     HardwareInfo.hardware_parameters :=
       {[ "rws_port" := "80"; "armegm_port" := "6511" ]} |}.

(** Query mode with the address left at the literal None. *)
Definition none_ip_info : HardwareInfo.t :=
  {| HardwareInfo.joints := [];
     HardwareInfo.hardware_parameters :=
       {[ "rws_port" := "80"; "rws_ip" := "None" ]} |}.

(** The address left at the literal None, and no port at all. *)
Definition none_ip_no_port_info : HardwareInfo.t :=
  {| HardwareInfo.joints := [];
     HardwareInfo.hardware_parameters := {[ "rws_ip" := "None" ]} |}.

(** Query mode against the controller with the group named arm. *)
Definition arm_info : HardwareInfo.t :=
  {| HardwareInfo.joints := [];
     HardwareInfo.hardware_parameters :=
       {[ "rws_port" := "80"; "rws_ip" := "192.168.125.1";
          "armegm_port" := "6511" ]} |}.


(** A port number that does not fit an [int]. *)
Definition huge_port_info : HardwareInfo.t :=
  {| HardwareInfo.joints := [];
     HardwareInfo.hardware_parameters :=
       {[ "configure_via_rws" := "false"; "egm_port" := "99999999999" ]} |}.


Definition mirrored (names : list string) : MotionData.t :=
  {| MotionData.groups :=
       [ {| Group.units :=
              [ {| Unit_.joints :=
                     map (fun n => {| Joint.name := n; Joint.state := zero;
                                      Joint.command := zero |}) names |} ] |} ] |}.

(** An instance as [on_init] leaves it: joints of the given names, a manager. *)
Definition inactive (names : list string) : ABBSystemHardware.t :=
  {| ABBSystemHardware.info_ := HardwareInfo.empty;
     ABBSystemHardware.robot_controller_description_ := controller_description;
     ABBSystemHardware.motion_data_ := mirrored names;
     ABBSystemHardware.egm_manager_ :=
       Some {| EGMManager.channel_configurations := [] |} |}.

End Sample.

(** ** The vocabulary of the specification *)

Section Vocabulary.
Context `{Externals}.

(** The shape every declared joint must have: position then velocity, as
    command interfaces and as state interfaces, and nothing else. *)
Definition interface_contract (joint : ComponentInfo.t) : Prop :=
  exists c0 c1 s0 s1,
    ComponentInfo.command_interfaces joint = [c0; c1]
    /\ InterfaceInfo.name c0 = HW_IF_POSITION
    /\ InterfaceInfo.name c1 = HW_IF_VELOCITY
    /\ ComponentInfo.state_interfaces joint = [s0; s1]
    /\ InterfaceInfo.name s0 = HW_IF_POSITION
    /\ InterfaceInfo.name s1 = HW_IF_VELOCITY.

(** The joint a validation message is about. *)
Definition message_joint (m : message) : option string :=
  match m with
  | Msg_command_interface_count joint _
  | Msg_first_command_interface joint _
  | Msg_second_command_interface joint _
  | Msg_state_interface_count joint _
  | Msg_first_state_interface joint _
  | Msg_second_state_interface joint _ => Some joint
  | _ => None
  end.

(** A joint's position command interface: the first one of that name. *)
Definition position_interface (joint : ComponentInfo.t) : option InterfaceInfo.t :=
  List.find (fun ci => String.eqb (InterfaceInfo.name ci) HW_IF_POSITION)
    (ComponentInfo.command_interfaces joint).

(** What the description says of one declared joint. *)
Definition describes (joint : ComponentInfo.t) (sj : StandardizedJoint.t) : Prop :=
  StandardizedJoint.standardized_name sj = ComponentInfo.name joint
  /\ (StandardizedJoint.rotating_move sj = true <->
      ComponentInfo.parameters joint !! "type" = None
      \/ ComponentInfo.parameters joint !! "type" = Some "revolute")
  /\ exists ci,
       position_interface joint = Some ci
       /\ stod (InterfaceInfo.min ci) = Ok (StandardizedJoint.lower_joint_bound sj)
       /\ stod (InterfaceInfo.max ci) = Ok (StandardizedJoint.upper_joint_bound sj).

End Vocabulary.

(** The value [m[k]] reads, whether or not [k] is present. *)
Definition parameter (m : gmap string string) (k : string) : string :=
  match m !! k with
  | Some v => v
  | None => EmptyString
  end.

(** [marker] occurs somewhere in [s]. *)
Definition contains (marker s : string) : Prop :=
  exists before after, s = before +:+ marker +:+ after.

(** [out] is what is left of [raw] from the first occurrence of [marker]. *)
Definition suffix_from_first (marker raw out : string) : Prop :=
  exists before after,
    raw = before +:+ out
    /\ out = marker +:+ after
    /\ forall before' after',
         raw = before' +:+ marker +:+ after' ->
         (String.length before <= String.length before')%nat.

(** Every joint of the mirror, groups first, then units, in order. *)
Definition all_joints (motion_data : MotionData.t) : list Joint.t :=
  concat (map (fun group => concat (map Unit_.joints (Group.units group)))
            (MotionData.groups motion_data)).

Definition is_wait (e : event) : bool :=
  match e with
  | Call_waitForMessage _ => true
  | _ => false
  end.

Definition is_sleep (e : event) : bool :=
  match e with
  | Call_sleep_for _ => true
  | _ => false
  end.

Definition is_read (e : event) : bool :=
  match e with
  | Call_read => true
  | _ => false
  end.

Definition is_rws_connection (e : event) : bool :=
  match e with
  | Call_establishRWSConnection _ _ _ => true
  | _ => false
  end.

(** A statement that never writes the description. *)
Definition keeps_description {A} (m : M A) : Prop :=
  forall s r s' t,
    m s = (r, s', t) ->
    ABBSystemHardware.robot_controller_description_ s'
    = ABBSystemHardware.robot_controller_description_ s.

(** The port parameter of a group, as [on_init] reads it. *)
Definition port_parameter (m : gmap string string) (group : MechanicalUnitGroup.t)
  : string :=
  parameter m (MechanicalUnitGroup.name group +:+ "egm_port").

(** [cfg] is the channel of [group]: the group itself, on the port its
    parameter gives once narrowed to sixteen bits. *)
Definition configured (m : gmap string string) (group : MechanicalUnitGroup.t)
    (cfg : ChannelConfiguration.t) : Prop :=
  ChannelConfiguration.mech_unit_group cfg = group
  /\ exists egm_port,
       stoi (port_parameter m group) = Ok egm_port
       /\ ChannelConfiguration.port_number cfg = egm_port mod 2 ^ 16.

(** The two objects read the same value under every key. *)
Definition same_parameters (s s' : ABBSystemHardware.t) : Prop :=
  forall k,
    parameter (HardwareInfo.hardware_parameters (ABBSystemHardware.info_ s')) k
    = parameter (HardwareInfo.hardware_parameters (ABBSystemHardware.info_ s)) k.

(** The two objects differ at most in [info_]. *)
Definition same_members (s s' : ABBSystemHardware.t) : Prop :=
  ABBSystemHardware.robot_controller_description_ s'
  = ABBSystemHardware.robot_controller_description_ s
  /\ ABBSystemHardware.motion_data_ s' = ABBSystemHardware.motion_data_ s
  /\ ABBSystemHardware.egm_manager_ s' = ABBSystemHardware.egm_manager_ s.

(** A statement after which every parameter reads as before. *)
Definition keeps_parameters {A} (m : M A) : Prop :=
  forall s r s' t, m s = (r, s', t) -> same_parameters s s'.

Definition is_egm_construction (e : event) : bool :=
  match e with
  | Call_EGMManager _ => true
  | _ => false
  end.

(** A statement all of whose events satisfy [p]. *)
Definition only_emits (p : event -> bool) {A} (m : M A) : Prop :=
  forall s r s' t, m s = (r, s', t) -> Forall (fun e => p e = true) t.

(** The name under which a joint of the mirror is exported. *)
Definition normalize (raw : string) : result string :=
  substr raw (find raw "joint").

(** The two handles of the joint at [g], [u], [j], exported as [joint_name]. *)
Definition handles_of `{Externals} (position velocity : member) (g u j : nat)
    (joint_name : string) : list Handle.t :=
  [ {| Handle.name := joint_name; Handle.interface_name := HW_IF_POSITION;
       Handle.value_ptr :=
         {| Pointer.group := g; Pointer.unit := u; Pointer.joint := j;
            Pointer.target := position |} |};
    {| Handle.name := joint_name; Handle.interface_name := HW_IF_VELOCITY;
       Handle.value_ptr :=
         {| Pointer.group := g; Pointer.unit := u; Pointer.joint := j;
            Pointer.target := velocity |} |} ].

(** Two mirrors with the same groups, units and joint names. *)
Definition same_shape (groups groups' : list Group.t) : Prop :=
  Forall2
    (fun group group' =>
       Forall2
         (fun unit unit' =>
            Forall2 (fun joint joint' => Joint.name joint = Joint.name joint')
              (Unit_.joints unit) (Unit_.joints unit'))
         (Group.units group) (Group.units group'))
    groups groups'.

(** The joint's name can be normalized. *)
Definition normalizes (joint : Joint.t) : Prop :=
  exists out, normalize (Joint.name joint) = Ok out.

(** [p] is the address of a member of a joint that [groups] holds. *)
Definition points_into (groups : list Group.t) (p : Pointer.t) : Prop :=
  exists group unit joint,
    groups !! Pointer.group p = Some group
    /\ Group.units group !! Pointer.unit p = Some unit
    /\ Unit_.joints unit !! Pointer.joint p = Some joint.

(** The names of the handles of joints exported as [outs]: each twice. *)
Definition handle_names (outs : list string) : list string :=
  concat (map (fun out => [out; out]) outs).

(** ** More vocabulary: how statements end, what they leave alone *)

(** A statement's end that a callback of this file can show: it falls
    through, returns ERROR, or throws; it neither returns anything else
    early, nor indexes out of range, nor runs out of fuel. *)
Definition tame {A} (x : step A) : Prop :=
  match x with
  | Next _ => True
  | Return r => r = ERROR
  | Raise _ => True
  | Undefined => False
  | OutOfFuel => False
  end.

(** A statement that always ends tamely, and with a value in [P] when it
    falls through. *)
Definition ends_with {A} (P : A -> Prop) (m : M A) : Prop :=
  forall s x s' t, m s = (x, s', t) -> tame x /\ forall a, x = Next a -> P a.

(** A statement across which [R] relates the object before and after. *)
Definition keeps (R : ABBSystemHardware.t -> ABBSystemHardware.t -> Prop)
    {A} (m : M A) : Prop :=
  forall s x s' t, m s = (x, s', t) -> R s s'.

(** [m'] is [m] with, at most, keys added that hold the empty string. *)
Definition grown (m m' : gmap string string) : Prop :=
  forall k, m' !! k = m !! k \/ (m !! k = None /\ m' !! k = Some EmptyString).

(** The declared joints are the same and the parameters have only grown. *)
Definition same_info (s s' : ABBSystemHardware.t) : Prop :=
  HardwareInfo.joints (ABBSystemHardware.info_ s')
  = HardwareInfo.joints (ABBSystemHardware.info_ s)
  /\ grown (HardwareInfo.hardware_parameters (ABBSystemHardware.info_ s))
           (HardwareInfo.hardware_parameters (ABBSystemHardware.info_ s')).

(** The motion data and the EGM manager are the same. *)
Definition same_runtime (s s' : ABBSystemHardware.t) : Prop :=
  ABBSystemHardware.motion_data_ s' = ABBSystemHardware.motion_data_ s
  /\ ABBSystemHardware.egm_manager_ s' = ABBSystemHardware.egm_manager_ s.

(** [n] attempts without a message: a wait, a log line, a sleep, each. *)
Definition misses (n : nat) : list event :=
  concat (replicate n [ Call_waitForMessage 500; Log INFO Msg_not_connected;
                        Call_sleep_for 500 ]).

(** The joint a pointer points into. *)
Definition target_joint (groups : list Group.t) (p : Pointer.t) : option Joint.t :=
  match groups !! Pointer.group p with
  | Some group =>
      match Group.units group !! Pointer.unit p with
      | Some unit => Unit_.joints unit !! Pointer.joint p
      | None => None
      end
  | None => None
  end.

(** The address of a pointer: where its joint sits. *)
Definition address (p : Pointer.t) : nat * nat * nat :=
  (Pointer.group p, Pointer.unit p, Pointer.joint p).

Definition is_position (m : member) : bool :=
  match m with
  | state_position | command_position => true
  | _ => false
  end.

(** The events [on_init] can leave: log lines, and the three calls. *)
Definition is_init_event (e : event) : bool :=
  match e with
  | Log _ _ => true
  | Call_establishRWSConnection _ _ _ => true
  | Call_initializeMotionData => true
  | Call_EGMManager _ => true
  | _ => false
  end.

(** ** A test double whose collaborators can fail *)

Module Faults.

(** As [Sample.externals], with the answer of the RWS connection, the
    exception (if any) of the motion-data initializer and of the EGM manager's
    constructor, and the answers of [rclcpp::ok()] chosen. *)
Definition externals (rws : result RobotControllerDescription.t)
    (init ctor : option exception) (alive answers : Z -> bool) : Externals :=
  {| HW_IF_POSITION := "position";
     HW_IF_VELOCITY := "velocity";
     stod := Sample.known_stod;
     SystemInterface_on_init := fun _ => SUCCESS;
     establishRWSConnection := fun _ _ _ => rws;
     initializeMotionData :=
       fun md d => match init with
                   | Some e => Throw e
                   | None => Sample.mirror md d
                   end;
     EGMManager_constructor := fun _ => ctor;
     rclcpp_ok := alive;
     waitForMessage := fun _ attempt _ => answers attempt;
     EGMManager_read := Sample.read_at Sample.seven_tenths;
     EGMManager_write := fun _ md => md |}.

Definition always : Z -> bool := fun _ => true.

(** Alive for the first [n] checks only. *)
Definition until (n : Z) : Z -> bool := fun i => i <? n.

(** Query mode with a port that is no number. *)
Definition bad_rws_port_info : HardwareInfo.t :=
  {| HardwareInfo.joints := [];
     HardwareInfo.hardware_parameters :=
       {[ "rws_port" := "eighty"; "rws_ip" := "192.168.125.1" ]} |}.

End Faults.

(** ** Vocabulary of the exported lists *)

(** Where an exported joint sits, and the name it is exported under. *)
Definition loc_address (loc : nat * nat * nat * string) : nat * nat * nat :=
  let '(g, u, j, _) := loc in (g, u, j).

Definition handles_at `{Externals} (position velocity : member)
    (loc : nat * nat * nat * string) : list Handle.t :=
  let '(g, u, j, out) := loc in handles_of position velocity g u j out.

(** The command member at the place of a state member. *)
Definition to_command (m : member) : member :=
  match m with
  | state_position => command_position
  | state_velocity => command_velocity
  | _ => m
  end.

(** A state handle turned into the command handle of the same joint. *)
Definition commanded (h : Handle.t) : Handle.t :=
  {| Handle.name := Handle.name h;
     Handle.interface_name := Handle.interface_name h;
     Handle.value_ptr :=
       {| Pointer.group := Pointer.group (Handle.value_ptr h);
          Pointer.unit := Pointer.unit (Handle.value_ptr h);
          Pointer.joint := Pointer.joint (Handle.value_ptr h);
          Pointer.target := to_command (Pointer.target (Handle.value_ptr h)) |} |}.

Definition result_map {A B} (f : A -> B) (r : result A) : result B :=
  match r with
  | Ok a => Ok (f a)
  | Throw e => Throw e
  end.

(** [hp] and [hv] are the position and the velocity handle of [joint]: named
    by its normalized name, and reading its two values out of [md]. *)
Definition exports_joint `{Externals} (position velocity : member) (md : MotionData.t)
    (joint : Joint.t) (pair : Handle.t * Handle.t) : Prop :=
  exists out,
    normalize (Joint.name joint) = Ok out
    /\ Handle.name (fst pair) = out /\ Handle.name (snd pair) = out
    /\ Handle.interface_name (fst pair) = HW_IF_POSITION
    /\ Handle.interface_name (snd pair) = HW_IF_VELOCITY
    /\ get_value (fst pair) md = Some (joint_member position joint)
    /\ get_value (snd pair) md = Some (joint_member velocity joint).

Definition flatten_pairs (pairs : list (Handle.t * Handle.t)) : list Handle.t :=
  concat (map (fun pair => [fst pair; snd pair]) pairs).

(** How a callback of the cycle ends, seen by its caller. *)
Definition cycle (body : M return_type) (s : ABBSystemHardware.t)
  : option return_type * ABBSystemHardware.t * list event :=
  match body s with
  | (Next r, s', t) => (Some r, s', t)
  | (_, s', t) => (None, s', t)
  end.

(** The same collaborators, but for [std::stod]. *)
Definition with_stod (E : Externals) (f : string -> result float) : Externals :=
  {| HW_IF_POSITION := @HW_IF_POSITION E;
     HW_IF_VELOCITY := @HW_IF_VELOCITY E;
     stod := f;
     SystemInterface_on_init := @SystemInterface_on_init E;
     establishRWSConnection := @establishRWSConnection E;
     initializeMotionData := @initializeMotionData E;
     EGMManager_constructor := @EGMManager_constructor E;
     rclcpp_ok := @rclcpp_ok E;
     waitForMessage := @waitForMessage E;
     EGMManager_read := @EGMManager_read E;
     EGMManager_write := @EGMManager_write E |}.

(** Two declarations of a joint that agree on what the synthesis reads:
    the name, the type parameter and the position command interface. *)
Definition same_for_synthesis `{Externals} (joint joint' : ComponentInfo.t) : Prop :=
  ComponentInfo.name joint' = ComponentInfo.name joint
  /\ ComponentInfo.parameters joint' !! "type" = ComponentInfo.parameters joint !! "type"
  /\ position_interface joint' = position_interface joint.

(** The group the synthesis adds for joints described by [sjs]. *)
Definition synthesized_group (n : nat) (sjs : list StandardizedJoint.t)
  : MechanicalUnitGroup.t :=
  {| MechanicalUnitGroup.name := EmptyString;
     MechanicalUnitGroup.robot :=
       Some {| MechanicalUnit.type := MechanicalUnit_Type_TCP_ROBOT;
               MechanicalUnit.axes_total := Z.of_nat n;
               MechanicalUnit.mode := MechanicalUnit_Mode_ACTIVATED;
               MechanicalUnit.standardized_joints := sjs |} |}.

(** The two-joint example declared otherwise: velocity limits, state
    interfaces, a joint parameter and the port differ; names, types and
    position command interfaces are the same. *)
Definition other_limits_joint (name : string) (parameters : gmap string string)
    (min max : string) : ComponentInfo.t :=
  {| ComponentInfo.name := name; ComponentInfo.type := "joint";
     ComponentInfo.command_interfaces :=
       [ Sample.position min max;
         {| InterfaceInfo.name := "velocity"; InterfaceInfo.min := "-3.0";
            InterfaceInfo.max := "fast" |} ];
     ComponentInfo.state_interfaces :=
       [ Sample.position "low" "high"; Sample.velocity ];
     ComponentInfo.parameters := <[ "gear" := "harmonic" ]> parameters |}.

Definition other_limits_info : HardwareInfo.t :=
  {| HardwareInfo.joints :=
       [ other_limits_joint "j1" ∅ "-1.0" "1.0";
         other_limits_joint "j2" {[ "type" := "prismatic" ]} "0.0" "0.5" ];
     HardwareInfo.hardware_parameters :=
       {[ "configure_via_rws" := "false"; "egm_port" := "7000" ]} |}.

(** Query mode, with a declared joint whose bounds are no numbers. *)
Definition query_unparsable_info : HardwareInfo.t :=
  {| HardwareInfo.joints := [Sample.joint "rob1_joint_1" ∅ "abc" "xyz"];
     HardwareInfo.hardware_parameters :=
       {[ "rws_port" := "80"; "rws_ip" := "192.168.125.1";
          "armegm_port" := "6511" ]} |}.





(** The joint whose lower bound is no number, declared otherwise. *)
Definition other_limits_unparsable_info : HardwareInfo.t :=
  {| HardwareInfo.joints := [other_limits_joint "j1" ∅ "abc" "1.0"];
     HardwareInfo.hardware_parameters :=
       {[ "configure_via_rws" := "False"; "egm_port" := "7000" ]} |}.

(** * Properties *)

(** ** Reasoning about statements *)

Lemma bind_next {A B} (m : M A) (k : A -> M B) s a s1 t1 :
  m s = (Next a, s1, t1) ->
  bind m k s = (let '(r, s2, t2) := k a s1 in (r, s2, t1 ++ t2)).
Proof. intros Hm. unfold bind. rewrite Hm. reflexivity. Qed.

Lemma bind_return {A B} (m : M A) (k : A -> M B) s r s1 t1 :
  m s = (Return r, s1, t1) -> bind m k s = (Return r, s1, t1).
Proof. intros Hm. unfold bind. rewrite Hm. reflexivity. Qed.

Lemma bind_raise {A B} (m : M A) (k : A -> M B) s e s1 t1 :
  m s = (Raise e, s1, t1) -> bind m k s = (Raise e, s1, t1).
Proof. intros Hm. unfold bind. rewrite Hm. reflexivity. Qed.

(** ** The construction-mode flag *)

Section Mode.
Context `{Externals}.

(** C7. The flag is read permissively. [on_init] asks the controller for
    the description when the flag is true and makes it up from the joints
    when it is false; the flag is true exactly when [configure_via_rws] is
    missing or is anything but the literal false or False, and false exactly
    when it is one of these two literals. *)
Theorem configure_via_rws_permissive (hardware_parameters : gmap string string) :
  (forall s,
     build_description s
     = if configure_via_rws (HardwareInfo.hardware_parameters (ABBSystemHardware.info_ s))
       then description_from_RWS s
       else description_from_HardwareInfo s)
  /\ (configure_via_rws hardware_parameters = true <->
       hardware_parameters !! "configure_via_rws" = None
       \/ exists v, hardware_parameters !! "configure_via_rws" = Some v
                    /\ v <> "false" /\ v <> "False")
  /\ (configure_via_rws hardware_parameters = false <->
        hardware_parameters !! "configure_via_rws" = Some "false"
        \/ hardware_parameters !! "configure_via_rws" = Some "False").
Proof.
  split.
  { intros s. unfold build_description, bind, gets.
    destruct (configure_via_rws _).
    - destruct (description_from_RWS s) as [[r s2] t2]. reflexivity.
    - destruct (description_from_HardwareInfo s) as [[r s2] t2]. reflexivity. }

  unfold configure_via_rws.
  destruct (hardware_parameters !! "configure_via_rws") as [v|] eqn:Hv.
  - destruct (String.eqb v "false") eqn:E1; [apply String.eqb_eq in E1; subst v|];
      [|destruct (String.eqb v "False") eqn:E2; [apply String.eqb_eq in E2; subst v|]];
      cbn [orb]; split; split; intros Hx; try discriminate; auto.
    + destruct Hx as [Hx | (v & Hv' & Hn1 & Hn2)]; [discriminate|].
      injection Hv' as <-. congruence.
    + destruct Hx as [Hx | (v & Hv' & Hn1 & Hn2)]; [discriminate|].
      injection Hv' as <-. congruence.
    + right. exists v. apply String.eqb_neq in E1, E2. auto.
    + apply String.eqb_neq in E1, E2. destruct Hx as [Hx | Hx]; congruence.
  - split; split; intros Hx; auto; try discriminate.
    destruct Hx; discriminate.
Qed.

End Mode.

(** ** The interface contract *)

(** Runs a chain of checks whose string comparisons are known. *)
Ltac run_checks :=
  repeat first
    [ progress cbn
    | match goal with
      | Heq : String.eqb _ _ = _ |- _ => rewrite Heq
      end ].

Section Validation.
Context `{Externals}.

Lemma validate_joint_ok joint s :
  interface_contract joint -> validate_joint joint s = (Next tt, s, []).
Proof.
  intros (c0 & c1 & s0 & s1 & Hc & Hc0 & Hc1 & Hs & Hs0 & Hs1).
  apply String.eqb_eq in Hc0, Hc1, Hs0, Hs1.
  unfold validate_joint. rewrite Hc, Hs. run_checks. reflexivity.
Qed.

Lemma validate_joint_bad joint s :
  ~ interface_contract joint ->
  exists m, validate_joint joint s = (Return ERROR, s, [Log FATAL m])
            /\ message_joint m = Some (ComponentInfo.name joint).
Proof.
  intros Hbad. unfold validate_joint.
  destruct (ComponentInfo.command_interfaces joint) as [|c0 [|c1 [|c2 cs]]] eqn:Hc;
    try (cbn; eexists; split; reflexivity).
  destruct (String.eqb (InterfaceInfo.name c0) HW_IF_POSITION) eqn:E0;
    [|run_checks; eexists; split; reflexivity].
  destruct (String.eqb (InterfaceInfo.name c1) HW_IF_VELOCITY) eqn:E1;
    [|run_checks; eexists; split; reflexivity].
  destruct (ComponentInfo.state_interfaces joint) as [|s0 [|s1 [|s2 ss]]] eqn:Hs;
    try (run_checks; eexists; split; reflexivity).
  destruct (String.eqb (InterfaceInfo.name s0) HW_IF_POSITION) eqn:F0;
    [|run_checks; eexists; split; reflexivity].
  destruct (String.eqb (InterfaceInfo.name s1) HW_IF_VELOCITY) eqn:F1;
    [|run_checks; eexists; split; reflexivity].
  exfalso. apply Hbad. exists c0, c1, s0, s1.
  apply String.eqb_eq in E0, E1, F0, F1. auto 10.
Qed.

Lemma interface_contract_decided joint :
  interface_contract joint \/ ~ interface_contract joint.
Proof.
  destruct (ComponentInfo.command_interfaces joint) as [|c0 [|c1 [|c2 cs]]] eqn:Hc;
    try (right; intros (? & ? & ? & ? & Hx & _); congruence).
  destruct (ComponentInfo.state_interfaces joint) as [|s0 [|s1 [|s2 ss]]] eqn:Hs;
    try (right; intros (? & ? & ? & ? & _ & _ & _ & Hx & _); congruence).
  destruct (String.eqb (InterfaceInfo.name c0) HW_IF_POSITION) eqn:E0;
    [|right; intros (? & ? & ? & ? & Hx & Hy & _);
      apply String.eqb_neq in E0; congruence].
  destruct (String.eqb (InterfaceInfo.name c1) HW_IF_VELOCITY) eqn:E1;
    [|right; intros (? & ? & ? & ? & Hx & _ & Hy & _);
      apply String.eqb_neq in E1; congruence].
  destruct (String.eqb (InterfaceInfo.name s0) HW_IF_POSITION) eqn:F0;
    [|right; intros (? & ? & ? & ? & _ & _ & _ & Hx & Hy & _);
      apply String.eqb_neq in F0; congruence].
  destruct (String.eqb (InterfaceInfo.name s1) HW_IF_VELOCITY) eqn:F1;
    [|right; intros (? & ? & ? & ? & _ & _ & _ & Hx & _ & Hy);
      apply String.eqb_neq in F1; congruence].
  left. exists c0, c1, s0, s1. apply String.eqb_eq in E0, E1, F0, F1. auto 10.
Qed.

Lemma validate_all_ok joints s :
  Forall interface_contract joints ->
  for_each joints validate_joint s = (Next tt, s, []).
Proof.
  induction 1 as [|joint joints Hj _ IH]; [reflexivity|].
  cbn [for_each]. rewrite (bind_next _ _ _ _ _ _ (validate_joint_ok joint s Hj)).
  rewrite IH. reflexivity.
Qed.

Lemma validate_first_bad good bad rest s :
  Forall interface_contract good ->
  ~ interface_contract bad ->
  exists m,
    for_each (good ++ bad :: rest) validate_joint s = (Return ERROR, s, [Log FATAL m])
    /\ message_joint m = Some (ComponentInfo.name bad).
Proof.
  intros Hgood Hbad. induction Hgood as [|joint good Hj _ IH].
  - destruct (validate_joint_bad bad s Hbad) as (m & Hm & Hn).
    exists m. split; [|exact Hn].
    cbn [app for_each]. apply bind_return. exact Hm.
  - destruct IH as (m & Hm & Hn). exists m. split; [|exact Hn].
    cbn [app for_each]. rewrite (bind_next _ _ _ _ _ _ (validate_joint_ok joint s Hj)).
    rewrite Hm. reflexivity.
Qed.

Lemma first_violation joints :
  (exists joint, In joint joints /\ ~ interface_contract joint) ->
  exists good bad rest,
    joints = good ++ bad :: rest
    /\ Forall interface_contract good /\ ~ interface_contract bad.
Proof.
  induction joints as [|joint joints IH]; intros (bad & Hin & Hbad).
  - destruct Hin.
  - destruct (interface_contract_decided joint) as [Hok | Hno].
    + destruct Hin as [-> | Hin]; [contradiction|].
      destruct IH as (good & bad' & rest & -> & Hg & Hb); [eauto|].
      exists (joint :: good), bad', rest. repeat split; auto.
    + exists [], joint, joints. repeat split; auto.
Qed.

(** C2. A declared joint that does not have exactly the two command
    interfaces position, velocity and the two state interfaces position,
    velocity makes [on_init] return ERROR; it does so at the first such
    joint, whose name the one fatal log line carries, with no call to any
    collaborator and with the description, the motion data and the EGM
    manager left as they were. *)
Theorem on_init_rejects_contract_violation info s :
  (exists joint, In joint (HardwareInfo.joints info) /\ ~ interface_contract joint) ->
  exists t,
    on_init info s = (Returned ERROR, ABBSystemHardware.set_info info s, t)
    /\ Forall (fun e => is_call e = false) t
    /\ (SystemInterface_on_init info = SUCCESS ->
        exists good bad rest m,
          HardwareInfo.joints info = good ++ bad :: rest
          /\ Forall interface_contract good
          /\ ~ interface_contract bad
          /\ t = [Log FATAL m]
          /\ message_joint m = Some (ComponentInfo.name bad)).
Proof.
  intros Hex.
  destruct (first_violation _ Hex) as (good & bad & rest & Hj & Hgood & Hbad).
  destruct (validate_first_bad good bad rest (ABBSystemHardware.set_info info s) Hgood Hbad)
    as (m & Hm & Hn).
  unfold on_init, call, on_init_body.
  destruct (SystemInterface_on_init info) eqn:Hbase.
  - exists [Log FATAL m]. split; [|split].
    + unfold bind at 1. cbn [modify]. unfold bind at 1. cbn.
      unfold bind at 1. cbn [gets]. unfold bind at 1.
      cbn [ABBSystemHardware.info_ ABBSystemHardware.set_info].
      rewrite Hj, Hm. reflexivity.
    + repeat constructor.
    + intros _. exists good, bad, rest, m. auto.
  - exists []. split; [reflexivity|]. split; [constructor|]. discriminate.
  - exists []. split; [reflexivity|]. split; [constructor|]. discriminate.
Qed.

End Validation.

Lemma on_init_rejects_contract_violation_witness :
  exists t,
    @on_init (Sample.externals Sample.never Sample.seven_tenths)
      Sample.one_interface_info ABBSystemHardware.new
    = (Returned ERROR,
       ABBSystemHardware.set_info Sample.one_interface_info ABBSystemHardware.new, t)
    /\ Forall (fun e => is_call e = false) t.
Proof.
  destruct (@on_init_rejects_contract_violation
              (Sample.externals Sample.never Sample.seven_tenths)
              Sample.one_interface_info ABBSystemHardware.new) as (t & Ht & Hc & _).
  - exists (nth 1 (HardwareInfo.joints Sample.one_interface_info) Sample.j1).
    split; [right; left; reflexivity|].
    intros (c0 & c1 & _ & _ & Hc & _). discriminate Hc.
  - exists t. split; assumption.
Defined.

(** ** What the later stages leave alone *)

Section Frames.
Context `{Externals}.

Lemma keeps_description_bind {A B} (m : M A) (k : A -> M B) :
  keeps_description m -> (forall a, keeps_description (k a)) ->
  keeps_description (bind m k).
Proof.
  intros Hm Hk s r s' t. unfold bind.
  destruct (m s) as [[x s1] t1] eqn:Em. specialize (Hm _ _ _ _ Em).
  destruct x; try (intros [= <- <- <-]; exact Hm).
  destruct (k a s1) as [[y s2] t2] eqn:Ek. specialize (Hk _ _ _ _ _ Ek).
  intros [= <- <- <-]. congruence.
Qed.

(** A statement that leaves the object as it is. *)
Ltac frame_leaf :=
  let E := fresh "E" in
  intros ? ? ? ? E;
  cbv [ret gets log emit return_ raise undefined out_of_fuel] in E;
  injection E as <- <- <-; reflexivity.

Lemma keeps_description_subscript key :
  keeps_description (hardware_parameters_subscript key).
Proof.
  intros s r s' t. unfold hardware_parameters_subscript.
  destruct (subscript _ key) as [v m]. intros [= <- <- <-]. reflexivity.
Qed.

Lemma keeps_description_initialize_motion_data :
  keeps_description initialize_motion_data.
Proof.
  intros s r s' t. unfold initialize_motion_data, bind, emit, gets, modify, log, emit, return_.
  destruct (initializeMotionData _ _); intros [= <- <- <-]; reflexivity.
Qed.

Lemma keeps_description_channel_configurations_loop groups acc :
  keeps_description (channel_configurations_loop groups acc).
Proof.
  revert acc. induction groups as [|group rest IH]; intros acc.
  - frame_leaf.
  - cbn [channel_configurations_loop].
    apply keeps_description_bind; [apply keeps_description_subscript|].
    intros v. destruct (stoi v) as [port|[]].
    + apply keeps_description_bind; [frame_leaf | intros _; apply IH].
    + apply keeps_description_bind; intros; frame_leaf.
    + frame_leaf.
    + frame_leaf.
    + frame_leaf.
Qed.

Lemma keeps_description_make_egm_manager cfgs :
  keeps_description (make_egm_manager cfgs).
Proof.
  unfold make_egm_manager.
  apply keeps_description_bind; [frame_leaf|]. intros _.
  destruct (EGMManager_constructor cfgs) as [[]|].
  - frame_leaf.
  - frame_leaf.
  - apply keeps_description_bind; intros; frame_leaf.
  - frame_leaf.
  - intros s r s' t [= <- <- <-]. reflexivity.
Qed.

Lemma keeps_description_configure_egm : keeps_description configure_egm.
Proof.
  unfold configure_egm.
  apply keeps_description_bind; [frame_leaf|]. intros d.
  apply keeps_description_bind; [frame_leaf|]. intros _.
  apply keeps_description_bind; [frame_leaf|]. intros _.
  apply keeps_description_bind; [apply keeps_description_initialize_motion_data|]. intros _.
  apply keeps_description_bind; [frame_leaf|]. intros d'.
  apply keeps_description_bind; [apply keeps_description_channel_configurations_loop|].
  intros cfgs.
  apply keeps_description_bind; [apply keeps_description_make_egm_manager|]. intros _.
  frame_leaf.
Qed.

(** Once the base class accepts and every joint keeps the contract, what is
    left of [on_init] is the building of the description and the EGM
    stage, run on the object that holds [info]. *)
Lemma on_init_body_validated info s :
  SystemInterface_on_init info = SUCCESS ->
  Forall interface_contract (HardwareInfo.joints info) ->
  on_init_body info s
  = bind build_description (fun _ => configure_egm) (ABBSystemHardware.set_info info s).
Proof.
  intros Hbase Hok. unfold on_init_body.
  unfold bind at 1. cbn [modify]. rewrite Hbase. cbn [CallbackReturn_eqb negb].
  unfold bind at 1. cbn [ret]. unfold bind at 1. cbn [gets].
  cbn [ABBSystemHardware.info_ ABBSystemHardware.set_info].
  unfold bind at 1. rewrite (validate_all_ok _ _ Hok).
  destruct (bind build_description _ _) as [[r s2] t2]. reflexivity.
Qed.

End Frames.

(** ** The description made up from the declared joints *)

Section Synthesis.
Context `{Externals}.

Lemma is_revolute_spec joint :
  is_revolute joint = true <->
  ComponentInfo.parameters joint !! "type" = None
  \/ ComponentInfo.parameters joint !! "type" = Some "revolute".
Proof.
  unfold is_revolute.
  destruct (ComponentInfo.parameters joint !! "type") as [v|]; [|tauto].
  destruct (String.eqb v "revolute") eqn:E; cbn [negb].
  - apply String.eqb_eq in E. subst v. tauto.
  - apply String.eqb_neq in E. split; [discriminate|].
    intros [Hx | Hx]; [discriminate | congruence].
Qed.

Lemma add_joint_position mug joint cis ci lo hi s :
  List.find (fun ci => String.eqb (InterfaceInfo.name ci) HW_IF_POSITION) cis = Some ci ->
  stod (InterfaceInfo.min ci) = Ok lo ->
  stod (InterfaceInfo.max ci) = Ok hi ->
  add_joint mug joint cis s
  = (Next tt,
     ABBSystemHardware.set_description
       (RobotControllerDescription.set_groups
          (alter (MechanicalUnitGroup.mutable_robot
                    (MechanicalUnit.add_standardized_joints
                       {| StandardizedJoint.standardized_name := ComponentInfo.name joint;
                          StandardizedJoint.rotating_move := is_revolute joint;
                          StandardizedJoint.lower_joint_bound := lo;
                          StandardizedJoint.upper_joint_bound := hi |}))
             mug
             (RobotControllerDescription.mechanical_units_groups
                (ABBSystemHardware.robot_controller_description_ s)))
          (ABBSystemHardware.robot_controller_description_ s)) s,
     [Log INFO (Msg_configured_component (ComponentInfo.name joint)
                  (ComponentInfo.type joint) lo hi)]).
Proof.
  intros Hfind Hlo Hhi. induction cis as [|c cis IH]; [discriminate|].
  cbn [List.find] in Hfind. cbn [add_joint].
  destruct (String.eqb (InterfaceInfo.name c) HW_IF_POSITION).
  - injection Hfind as ->. unfold bind, lift. rewrite Hlo, Hhi. reflexivity.
  - apply IH, Hfind.
Qed.

Lemma add_joints_all joints : forall s g u,
  RobotControllerDescription.mechanical_units_groups
    (ABBSystemHardware.robot_controller_description_ s) = [g] ->
  MechanicalUnitGroup.robot g = Some u ->
  (forall joint, In joint joints ->
     exists ci lo hi,
       position_interface joint = Some ci
       /\ stod (InterfaceInfo.min ci) = Ok lo /\ stod (InterfaceInfo.max ci) = Ok hi) ->
  exists sjs t,
    for_each joints
      (fun joint => add_joint 0 joint (ComponentInfo.command_interfaces joint)) s
    = (Next tt,
       ABBSystemHardware.set_description
         (RobotControllerDescription.set_groups
            [ {| MechanicalUnitGroup.name := MechanicalUnitGroup.name g;
                 MechanicalUnitGroup.robot :=
                   Some {| MechanicalUnit.type := MechanicalUnit.type u;
                           MechanicalUnit.axes_total := MechanicalUnit.axes_total u;
                           MechanicalUnit.mode := MechanicalUnit.mode u;
                           MechanicalUnit.standardized_joints :=
                             MechanicalUnit.standardized_joints u ++ sjs |} |} ]
            (ABBSystemHardware.robot_controller_description_ s)) s,
       t)
    /\ Forall2 describes joints sjs.
Proof.
  induction joints as [|joint joints IH]; intros s g u Hg Hu Hparse.
  - exists [], []. split; [|constructor]. cbn [for_each ret].
    rewrite app_nil_r. destruct s as [i d m e]. cbn in Hg |- *.
    destruct d as [v egm gs]. cbn in Hg |- *. subst gs.
    destruct g as [n r]. cbn in Hu |- *. subst r. destruct u. reflexivity.
  - destruct (Hparse joint (or_introl eq_refl)) as (ci & lo & hi & Hci & Hlo & Hhi).
    cbn [for_each].
    rewrite (bind_next _ _ _ _ _ _ (add_joint_position 0 joint _ ci lo hi s Hci Hlo Hhi)).
    rewrite Hg. cbn [alter list_alter].
    edestruct IH as (sjs & t & Hrun & Hall);
      [| | intros j Hj; apply Hparse; right; exact Hj | rewrite Hrun ].
    + reflexivity.
    + cbn. rewrite Hu. reflexivity.
    + eexists (_ :: sjs), _. split.
      * cbn. rewrite <- app_assoc. reflexivity.
      * constructor; [|exact Hall].
        split; [reflexivity|]. split; [apply is_revolute_spec|].
        exists ci. auto.
Qed.

Lemma description_from_HardwareInfo_runs s :
  ABBSystemHardware.robot_controller_description_ s = RobotControllerDescription.default ->
  (forall joint, In joint (HardwareInfo.joints (ABBSystemHardware.info_ s)) ->
     exists ci lo hi,
       position_interface joint = Some ci
       /\ stod (InterfaceInfo.min ci) = Ok lo /\ stod (InterfaceInfo.max ci) = Ok hi) ->
  exists sjs s' t,
    description_from_HardwareInfo s = (Next tt, s', t)
    /\ ABBSystemHardware.robot_controller_description_ s'
       = {| RobotControllerDescription.header_robot_ware_version :=
              {| RobotWareVersion.major_number := 7;
                 RobotWareVersion.minor_number := 3;
                 RobotWareVersion.patch_number := 2 |};
            RobotControllerDescription.system_indicators_options_egm := true;
            RobotControllerDescription.mechanical_units_groups :=
              [ {| MechanicalUnitGroup.name := EmptyString;
                   MechanicalUnitGroup.robot :=
                     Some {| MechanicalUnit.type := MechanicalUnit_Type_TCP_ROBOT;
                             MechanicalUnit.axes_total :=
                               Z.of_nat (length (HardwareInfo.joints (ABBSystemHardware.info_ s)));
                             MechanicalUnit.mode := MechanicalUnit_Mode_ACTIVATED;
                             MechanicalUnit.standardized_joints := sjs |} |} ] |}
    /\ Forall2 describes (HardwareInfo.joints (ABBSystemHardware.info_ s)) sjs.
Proof.
  intros Hd Hparse.
  unfold description_from_HardwareInfo, bind, log, emit, modify_group,
    modify_description, modify, add_mechanical_units_groups, gets.
  rewrite Hd. cbn -[for_each add_joint Z.of_nat].
  match goal with
  | |- context [for_each ?js ?f ?st] =>
      destruct (add_joints_all js st _ _ eq_refl eq_refl Hparse) as (sjs & t & Hrun & Hall)
  end.
  rewrite Hrun. exists sjs. eexists _, _. split; [reflexivity|].
  split; [reflexivity | exact Hall].
Qed.

(** C3. With [configure_via_rws] at false, a fresh object and joints that
    keep the contract and whose position bounds parse, the description
    [on_init] leaves holds one group, whose robot is activated and counts as
    many axes as joints are declared, with one standardized joint per
    declared joint, in declaration order: same name, revolute exactly when
    the type parameter is missing or is revolute, bounds as [std::stod] reads
    the min and max of the joint's position command interface; the EGM
    option is on. *)
Theorem on_init_synthesized_description info s r s' t :
  SystemInterface_on_init info = SUCCESS ->
  Forall interface_contract (HardwareInfo.joints info) ->
  configure_via_rws (HardwareInfo.hardware_parameters info) = false ->
  ABBSystemHardware.robot_controller_description_ s = RobotControllerDescription.default ->
  (forall joint, In joint (HardwareInfo.joints info) ->
     exists ci lo hi,
       position_interface joint = Some ci
       /\ stod (InterfaceInfo.min ci) = Ok lo /\ stod (InterfaceInfo.max ci) = Ok hi) ->
  on_init info s = (r, s', t) ->
  exists sjs,
    ABBSystemHardware.robot_controller_description_ s'
    = {| RobotControllerDescription.header_robot_ware_version :=
           {| RobotWareVersion.major_number := 7;
              RobotWareVersion.minor_number := 3;
              RobotWareVersion.patch_number := 2 |};
         RobotControllerDescription.system_indicators_options_egm := true;
         RobotControllerDescription.mechanical_units_groups :=
           [ {| MechanicalUnitGroup.name := EmptyString;
                MechanicalUnitGroup.robot :=
                  Some {| MechanicalUnit.type := MechanicalUnit_Type_TCP_ROBOT;
                          MechanicalUnit.axes_total :=
                            Z.of_nat (length (HardwareInfo.joints info));
                          MechanicalUnit.mode := MechanicalUnit_Mode_ACTIVATED;
                          MechanicalUnit.standardized_joints := sjs |} |} ] |}
    /\ Forall2 describes (HardwareInfo.joints info) sjs.
Proof.
  intros Hbase Hok Hflag Hd Hparse Hrun.
  unfold on_init, call in Hrun.
  rewrite (on_init_body_validated info s Hbase Hok) in Hrun.
  destruct (description_from_HardwareInfo_runs (ABBSystemHardware.set_info info s) Hd Hparse)
    as (sjs & s1 & t1 & Hbuild & Hdesc & Hall).
  assert (Hstage : build_description (ABBSystemHardware.set_info info s) = (Next tt, s1, t1)).
  { unfold build_description, bind, gets.
    cbn [ABBSystemHardware.info_ ABBSystemHardware.set_info].
    rewrite Hflag, Hbuild. reflexivity. }
  rewrite (bind_next _ _ _ _ _ _ Hstage) in Hrun.
  destruct (configure_egm s1) as [[x s2] t2] eqn:Hegm.
  pose proof (keeps_description_configure_egm _ _ _ _ Hegm) as Hkeep.
  exists sjs. split; [|exact Hall].
  cbn [ABBSystemHardware.info_ ABBSystemHardware.set_info] in Hdesc.
  rewrite <- Hdesc, <- Hkeep.
  destruct x; injection Hrun as _ <- _; reflexivity.
Qed.

End Synthesis.

Lemma on_init_synthesized_description_witness :
  exists sjs,
    ABBSystemHardware.robot_controller_description_
      (snd (fst (@on_init (Sample.externals Sample.never Sample.seven_tenths)
                   Sample.synthesis_info ABBSystemHardware.new)))
    = {| RobotControllerDescription.header_robot_ware_version :=
           {| RobotWareVersion.major_number := 7;
              RobotWareVersion.minor_number := 3;
              RobotWareVersion.patch_number := 2 |};
         RobotControllerDescription.system_indicators_options_egm := true;
         RobotControllerDescription.mechanical_units_groups :=
           [ {| MechanicalUnitGroup.name := EmptyString;
                MechanicalUnitGroup.robot :=
                  Some {| MechanicalUnit.type := MechanicalUnit_Type_TCP_ROBOT;
                          MechanicalUnit.axes_total := 2;
                          MechanicalUnit.mode := MechanicalUnit_Mode_ACTIVATED;
                          MechanicalUnit.standardized_joints := sjs |} |} ] |}
    /\ Forall2 (@describes (Sample.externals Sample.never Sample.seven_tenths))
         [Sample.j1; Sample.j2] sjs.
Proof.
  destruct (@on_init (Sample.externals Sample.never Sample.seven_tenths)
              Sample.synthesis_info ABBSystemHardware.new) as [[r s'] t] eqn:Hrun.
  apply (@on_init_synthesized_description
           (Sample.externals Sample.never Sample.seven_tenths)
           Sample.synthesis_info ABBSystemHardware.new r s' t).
  - reflexivity.
  - repeat constructor;
      (eexists _, _, _, _; repeat split; reflexivity).
  - vm_compute. reflexivity.
  - reflexivity.
  - intros joint [<- | [<- | []]].
    + exists (Sample.position "-1.0" "1.0"), (-1)%float, 1%float.
      repeat split; reflexivity.
    + exists (Sample.position "0.0" "0.5"), 0%float, 0.5%float.
      repeat split; reflexivity.
  - exact Hrun.
Defined.

(** ** The description asked of the controller *)

Section Query.
Context `{Externals}.

Lemma subscript_present m k v :
  m !! k = Some v -> subscript m k = (v, m).
Proof. intros Hk. unfold subscript. rewrite Hk. reflexivity. Qed.

Lemma subscript_reads m k : fst (subscript m k) = parameter m k.
Proof. unfold subscript, parameter. destruct (m !! k); reflexivity. Qed.

Lemma subscript_keeps m k k' :
  parameter (snd (subscript m k)) k' = parameter m k'.
Proof.
  unfold subscript, parameter. destruct (m !! k) as [v|] eqn:Hk; [reflexivity|].
  cbn [snd]. destruct (decide (k = k')) as [<- | Hne].
  - rewrite lookup_insert_eq, Hk. reflexivity.
  - rewrite lookup_insert_ne by exact Hne. reflexivity.
Qed.

Lemma stoi_empty : stoi EmptyString = Throw invalid_argument.
Proof. reflexivity. Qed.

(** C6, as the code has it. When the flag selects the controller, the
    port parameter reads as an integer and [rws_ip] holds the literal None,
    [on_init] returns ERROR after two log lines and no call at all: no
    connection is attempted, and the description, the motion data and the
    EGM manager are as before. *)
Theorem on_init_rws_ip_None info s :
  SystemInterface_on_init info = SUCCESS ->
  Forall interface_contract (HardwareInfo.joints info) ->
  configure_via_rws (HardwareInfo.hardware_parameters info) = true ->
  HardwareInfo.hardware_parameters info !! "rws_ip" = Some "None" ->
  (exists port,
     stoi (parameter (HardwareInfo.hardware_parameters info) "rws_port") = Ok port) ->
  on_init info s
  = (Returned ERROR, ABBSystemHardware.set_info info s,
     [Log INFO Msg_generating_from_RWS; Log FATAL Msg_RWS_IP_not_specified]).
Proof.
  intros Hbase Hok Hflag Hip (port & Hport).
  unfold on_init, call. rewrite (on_init_body_validated info s Hbase Hok).
  unfold parameter in Hport.
  destruct (HardwareInfo.hardware_parameters info !! "rws_port") as [ps|] eqn:Hps;
    [|rewrite stoi_empty in Hport; discriminate].
  unfold bind at 1. unfold build_description. unfold bind at 1. cbn [gets].
  cbn [ABBSystemHardware.info_ ABBSystemHardware.set_info]. rewrite Hflag.
  unfold description_from_RWS.
  unfold bind at 1. cbn [log emit].
  unfold bind at 1. unfold hardware_parameters_subscript at 1.
  cbn [ABBSystemHardware.info_ ABBSystemHardware.set_info].
  rewrite (subscript_present _ _ _ Hps).
  unfold bind at 1. rewrite Hport. cbn [lift ret].
  unfold bind at 1. unfold hardware_parameters_subscript at 1.
  cbn [ABBSystemHardware.info_ ABBSystemHardware.set_info
       HardwareInfo.hardware_parameters HardwareInfo.with_hardware_parameters].
  rewrite (subscript_present _ _ _ Hip).
  unfold bind at 1. cbn.
  destruct info as [js ps']. destruct s as [i d m e]. reflexivity.
Qed.

End Query.

Lemma on_init_rws_ip_None_witness :
  @on_init (Sample.externals Sample.never Sample.seven_tenths)
    Sample.none_ip_info ABBSystemHardware.new
  = (Returned ERROR, ABBSystemHardware.set_info Sample.none_ip_info ABBSystemHardware.new,
     [Log INFO Msg_generating_from_RWS; Log FATAL Msg_RWS_IP_not_specified]).
Proof.
  apply (@on_init_rws_ip_None (Sample.externals Sample.never Sample.seven_tenths)).
  - reflexivity.
  - constructor.
  - vm_compute. reflexivity.
  - vm_compute. reflexivity.
  - exists 80. vm_compute. reflexivity.
Defined.

(** C6, as stated, fails: with [rws_ip] missing from the parameters the
    address read is the empty string, which is not the literal None, and
    the connection to the controller is made. *)
Lemma on_init_rws_ip_absent_connects :
  ~ (forall (E : Externals) info s,
       SystemInterface_on_init info = SUCCESS ->
       Forall interface_contract (HardwareInfo.joints info) ->
       configure_via_rws (HardwareInfo.hardware_parameters info) = true ->
       HardwareInfo.hardware_parameters info !! "rws_ip" = None ->
       exists s' t,
         on_init info s = (Returned ERROR, s', t)
         /\ Forall (fun e => is_rws_connection e = false) t).
Proof.
  intros Hclaim.
  destruct (Hclaim (Sample.externals Sample.never Sample.seven_tenths)
              Sample.no_ip_info ABBSystemHardware.new) as (s' & t & Hrun & _).
  - reflexivity.
  - constructor.
  - vm_compute. reflexivity.
  - vm_compute. reflexivity.
  - vm_compute in Hrun. discriminate Hrun.
Qed.

Section QueryAlways.
Context `{Externals}.

(** Whatever the collaborators do: in query mode with a port that reads as
    an integer and no [rws_ip] parameter, the connection is attempted, to the
    empty address. *)
Lemma on_init_rws_ip_absent_always_connects info s :
  SystemInterface_on_init info = SUCCESS ->
  Forall interface_contract (HardwareInfo.joints info) ->
  configure_via_rws (HardwareInfo.hardware_parameters info) = true ->
  HardwareInfo.hardware_parameters info !! "rws_ip" = None ->
  (exists port,
     stoi (parameter (HardwareInfo.hardware_parameters info) "rws_port") = Ok port) ->
  exists port,
    In (Call_establishRWSConnection
          {| RWSManager.ip_address := EmptyString; RWSManager.port_number := port;
             RWSManager.username := "Default User"; RWSManager.password := "robotics" |}
          "IRB1200" true)
       (snd (on_init info s)).
Proof.
  intros Hbase Hok Hflag Hip (port & Hport). exists port.
  unfold on_init, call. rewrite (on_init_body_validated info s Hbase Hok).
  unfold parameter in Hport.
  destruct (HardwareInfo.hardware_parameters info !! "rws_port") as [ps|] eqn:Hps;
    [|rewrite stoi_empty in Hport; discriminate].
  unfold bind at 1. unfold build_description. unfold bind at 1. cbn [gets].
  cbn [ABBSystemHardware.info_ ABBSystemHardware.set_info]. rewrite Hflag.
  unfold description_from_RWS.
  unfold bind at 1. cbn [log emit].
  unfold bind at 1. unfold hardware_parameters_subscript at 1.
  cbn [ABBSystemHardware.info_ ABBSystemHardware.set_info].
  rewrite (subscript_present _ _ _ Hps).
  unfold bind at 1. rewrite Hport. cbn [lift ret].
  unfold bind at 1. unfold hardware_parameters_subscript at 1.
  cbn [ABBSystemHardware.info_ ABBSystemHardware.set_info
       HardwareInfo.hardware_parameters HardwareInfo.with_hardware_parameters].
  unfold subscript. rewrite Hip.
  unfold bind at 1. cbn [String.eqb ret].
  unfold bind at 1. cbn [emit].
  match goal with
  | |- context [bind ?m ?k ?st] => destruct (bind m k st) as [[x1 s1] t1]
  end.
  match goal with
  | |- context [configure_egm ?st] => destruct (configure_egm st) as [[x2 s2] t2]
  end.
  destruct x1; cbn; auto; destruct x2; cbn; auto.
Qed.

End QueryAlways.

(** ** Bounds that are no numbers *)

Section UnparsableBounds.
Context `{Externals}.

Lemma for_each_app {A} (l1 l2 : list A) (body : A -> M unit) s :
  for_each (l1 ++ l2) body s
  = bind (for_each l1 body) (fun _ => for_each l2 body) s.
Proof.
  revert s. induction l1 as [|a l1 IH]; intros s.
  - cbn [app for_each]. unfold bind, ret.
    destruct (for_each l2 body s) as [[x s'] t]. reflexivity.
  - cbn [app for_each]. unfold bind.
    destruct (body a s) as [[x s1] t1]. destruct x; try reflexivity.
    rewrite IH. unfold bind.
    destruct (for_each l1 body s1) as [[y s2] t2]. destruct y; try reflexivity.
    destruct (for_each l2 body s2) as [[z s3] t3].
    rewrite app_assoc. reflexivity.
Qed.

Lemma add_joint_throws mug joint cis ci e s :
  List.find (fun ci => String.eqb (InterfaceInfo.name ci) HW_IF_POSITION) cis = Some ci ->
  stod (InterfaceInfo.min ci) = Throw e
  \/ (exists lo, stod (InterfaceInfo.min ci) = Ok lo)
     /\ stod (InterfaceInfo.max ci) = Throw e ->
  add_joint mug joint cis s = (Raise e, s, []).
Proof.
  intros Hfind Hthrow. induction cis as [|c cis IH]; [discriminate|].
  cbn [List.find] in Hfind. cbn [add_joint].
  destruct (String.eqb (InterfaceInfo.name c) HW_IF_POSITION).
  - injection Hfind as ->. unfold bind, lift.
    destruct Hthrow as [Hmin | [(lo & Hmin) Hmax]].
    + rewrite Hmin. reflexivity.
    + rewrite Hmin, Hmax. reflexivity.
  - apply IH, Hfind.
Qed.

(** Whatever the collaborators are: in synthesis mode the first joint whose
    position bound [std::stod] rejects ends [on_init] by that exception. *)
Lemma on_init_bound_exception_propagates info s good bad rest ci e :
  SystemInterface_on_init info = SUCCESS ->
  Forall interface_contract (HardwareInfo.joints info) ->
  configure_via_rws (HardwareInfo.hardware_parameters info) = false ->
  ABBSystemHardware.robot_controller_description_ s = RobotControllerDescription.default ->
  HardwareInfo.joints info = good ++ bad :: rest ->
  (forall joint, In joint good ->
     exists ci lo hi,
       position_interface joint = Some ci
       /\ stod (InterfaceInfo.min ci) = Ok lo /\ stod (InterfaceInfo.max ci) = Ok hi) ->
  position_interface bad = Some ci ->
  stod (InterfaceInfo.min ci) = Throw e
  \/ (exists lo, stod (InterfaceInfo.min ci) = Ok lo)
     /\ stod (InterfaceInfo.max ci) = Throw e ->
  exists s' t, on_init info s = (Thrown e, s', t).
Proof.
  intros Hbase Hok Hflag Hd Hjoints Hgood Hci Hthrow.
  unfold on_init, call. rewrite (on_init_body_validated info s Hbase Hok).
  unfold bind at 1. unfold build_description. unfold bind at 1. cbn [gets].
  cbn [ABBSystemHardware.info_ ABBSystemHardware.set_info]. rewrite Hflag.
  unfold description_from_HardwareInfo, bind, log, emit, modify_group,
    modify_description, modify, add_mechanical_units_groups, gets.
  cbn [ABBSystemHardware.info_ ABBSystemHardware.set_info
       ABBSystemHardware.robot_controller_description_
       ABBSystemHardware.set_description].
  rewrite Hd, Hjoints. cbn -[for_each add_joint Z.of_nat].
  match goal with
  | |- context [for_each (good ++ bad :: rest) ?f ?st] =>
      rewrite (for_each_app good (bad :: rest) f st);
      destruct (add_joints_all good st _ _ eq_refl eq_refl Hgood) as (sjs & t & Hrun & _)
  end.
  unfold bind at 1. rewrite Hrun. cbn [for_each].
  unfold bind at 1.
  match goal with
  | |- context [add_joint 0 bad ?cis ?st] =>
      rewrite (add_joint_throws 0 bad cis ci e st Hci Hthrow)
  end.
  eexists _, _. reflexivity.
Qed.

End UnparsableBounds.

(** C5 fails on the code. For the joint j1 declared with the lower bound
    abc, in synthesis mode, [on_init] does not return ERROR: the
    [std::invalid_argument] of [std::stod] leaves it, after the one log line
    that announces the synthesis. *)
Theorem on_init_unparsable_bound_throws :
  @on_init (Sample.externals Sample.never Sample.seven_tenths)
    Sample.unparsable_info ABBSystemHardware.new
  = (Thrown invalid_argument,
     ABBSystemHardware.set_description
       {| RobotControllerDescription.header_robot_ware_version :=
            {| RobotWareVersion.major_number := 7;
               RobotWareVersion.minor_number := 3;
               RobotWareVersion.patch_number := 2 |};
          RobotControllerDescription.system_indicators_options_egm := true;
          RobotControllerDescription.mechanical_units_groups :=
            [ {| MechanicalUnitGroup.name := EmptyString;
                 MechanicalUnitGroup.robot :=
                   Some {| MechanicalUnit.type := MechanicalUnit_Type_TCP_ROBOT;
                           MechanicalUnit.axes_total := 1;
                           MechanicalUnit.mode := MechanicalUnit_Mode_ACTIVATED;
                           MechanicalUnit.standardized_joints := [] |} |} ] |}
       (ABBSystemHardware.set_info Sample.unparsable_info ABBSystemHardware.new),
     [Log INFO Msg_generating_from_HardwareInfo]).
Proof. vm_compute. reflexivity. Qed.

(** ** The channel configurations *)

Section Channels.
Context `{Externals}.

Lemma same_parameters_refl s : same_parameters s s.
Proof. intros k. reflexivity. Qed.

Lemma same_parameters_trans s1 s2 s3 :
  same_parameters s1 s2 -> same_parameters s2 s3 -> same_parameters s1 s3.
Proof. intros H12 H23 k. rewrite H23. apply H12. Qed.

Lemma keeps_parameters_bind {A B} (m : M A) (k : A -> M B) :
  keeps_parameters m -> (forall a, keeps_parameters (k a)) ->
  keeps_parameters (bind m k).
Proof.
  intros Hm Hk s r s' t. unfold bind.
  destruct (m s) as [[x s1] t1] eqn:Em. specialize (Hm _ _ _ _ Em).
  destruct x; try (intros [= <- <- <-]; exact Hm).
  destruct (k a s1) as [[y s2] t2] eqn:Ek. specialize (Hk _ _ _ _ _ Ek).
  intros [= <- <- <-]. eapply same_parameters_trans; eassumption.
Qed.

(** A statement that leaves [info_] as it is. *)
Ltac parameters_leaf :=
  let E := fresh "E" in
  intros ? ? ? ? E;
  cbv [ret gets log emit return_ raise undefined out_of_fuel modify
       modify_group modify_description add_mechanical_units_groups] in E;
  injection E as <- <- <-; intros ?; reflexivity.

Lemma keeps_parameters_lift {A} (x : result A) : keeps_parameters (lift x).
Proof. destruct x; parameters_leaf. Qed.

Lemma hardware_parameters_subscript_spec key s :
  exists s1,
    hardware_parameters_subscript key s
    = (Next (parameter (HardwareInfo.hardware_parameters (ABBSystemHardware.info_ s)) key),
       s1, [])
    /\ same_parameters s s1 /\ same_members s s1.
Proof.
  unfold hardware_parameters_subscript.
  pose proof (subscript_reads (HardwareInfo.hardware_parameters (ABBSystemHardware.info_ s)) key) as Hr.
  pose proof (subscript_keeps (HardwareInfo.hardware_parameters (ABBSystemHardware.info_ s)) key) as Hk.
  destruct (subscript _ key) as [v m]. cbn [fst snd] in Hr, Hk. subst v.
  eexists. split; [reflexivity|]. split; [|repeat split].
  intros k. cbn. apply Hk.
Qed.

Lemma keeps_parameters_subscript key :
  keeps_parameters (hardware_parameters_subscript key).
Proof.
  intros s r s' t Hrun.
  destruct (hardware_parameters_subscript_spec key s) as (s1 & Hs1 & Hp & _).
  rewrite Hs1 in Hrun. injection Hrun as _ <- _. exact Hp.
Qed.

Lemma keeps_parameters_for_each {A} (l : list A) (body : A -> M unit) :
  (forall a, keeps_parameters (body a)) -> keeps_parameters (for_each l body).
Proof.
  intros Hbody. induction l as [|a l IH]; cbn [for_each].
  - parameters_leaf.
  - apply keeps_parameters_bind; [apply Hbody | intros _; exact IH].
Qed.

Lemma keeps_parameters_add_joint mug joint cis :
  keeps_parameters (add_joint mug joint cis).
Proof.
  induction cis as [|c cis IH]; cbn [add_joint]; [parameters_leaf|].
  destruct (String.eqb (InterfaceInfo.name c) HW_IF_POSITION); [|exact IH].
  apply keeps_parameters_bind; [apply keeps_parameters_lift|]. intros lo.
  apply keeps_parameters_bind; [apply keeps_parameters_lift|]. intros hi.
  apply keeps_parameters_bind; [parameters_leaf | intros _; parameters_leaf].
Qed.

Lemma keeps_parameters_build_description : keeps_parameters build_description.
Proof.
  unfold build_description.
  apply keeps_parameters_bind; [parameters_leaf|]. intros [|].
  - unfold description_from_RWS.
    apply keeps_parameters_bind; [parameters_leaf|]. intros _.
    apply keeps_parameters_bind; [apply keeps_parameters_subscript|]. intros ps.
    apply keeps_parameters_bind; [apply keeps_parameters_lift|]. intros port.
    apply keeps_parameters_bind; [apply keeps_parameters_subscript|]. intros ip.
    apply keeps_parameters_bind.
    { destruct (String.eqb ip "None"); [|parameters_leaf].
      apply keeps_parameters_bind; [parameters_leaf | intros _; parameters_leaf]. }
    intros _.
    apply keeps_parameters_bind; [parameters_leaf|]. intros _.
    apply keeps_parameters_bind; [apply keeps_parameters_lift|]. intros d.
    parameters_leaf.
  - unfold description_from_HardwareInfo.
    apply keeps_parameters_bind; [parameters_leaf|]. intros _.
    apply keeps_parameters_bind; [parameters_leaf|]. intros _.
    apply keeps_parameters_bind; [parameters_leaf|]. intros _.
    apply keeps_parameters_bind; [parameters_leaf|]. intros mug.
    apply keeps_parameters_bind; [parameters_leaf|]. intros _.
    apply keeps_parameters_bind; [parameters_leaf|]. intros _.
    apply keeps_parameters_bind; [parameters_leaf|]. intros joints.
    apply keeps_parameters_bind; [parameters_leaf|]. intros _.
    apply keeps_parameters_bind; [parameters_leaf|]. intros _.
    apply keeps_parameters_for_each. intros joint.
    apply keeps_parameters_add_joint.
Qed.

Lemma configured_same m m' group cfg :
  (forall k, parameter m' k = parameter m k) ->
  configured m' group cfg -> configured m group cfg.
Proof.
  intros Hsame (Hg & p & Hp & Hport). split; [exact Hg|].
  exists p. unfold port_parameter in *. rewrite <- Hsame. auto.
Qed.

Lemma same_members_trans s1 s2 s3 :
  same_members s1 s2 -> same_members s2 s3 -> same_members s1 s3.
Proof. unfold same_members. intros (? & ? & ?) (? & ? & ?). repeat split; congruence. Qed.

Lemma channel_configurations_loop_ok groups : forall acc s,
  (forall g, In g groups ->
     exists p,
       stoi (port_parameter (HardwareInfo.hardware_parameters (ABBSystemHardware.info_ s)) g)
       = Ok p) ->
  exists cfgs s' t,
    channel_configurations_loop groups acc s = (Next (acc ++ cfgs), s', t)
    /\ Forall2 (configured (HardwareInfo.hardware_parameters (ABBSystemHardware.info_ s)))
         groups cfgs
    /\ same_parameters s s' /\ same_members s s'
    /\ Forall (fun e => is_call e = false) t.
Proof.
  induction groups as [|group rest IH]; intros acc s Hparse.
  - exists [], s, []. rewrite app_nil_r. repeat split; constructor || apply same_parameters_refl.
  - destruct (Hparse group (or_introl eq_refl)) as (p & Hp).
    destruct (hardware_parameters_subscript_spec
                (MechanicalUnitGroup.name group +:+ "egm_port") s) as (s1 & Hs1 & Hsame & Hmem).
    cbn [channel_configurations_loop].
    rewrite (bind_next _ _ _ _ _ _ Hs1).
    unfold port_parameter in Hp. rewrite Hp.
    unfold bind at 1. cbn [log emit].
    edestruct (IH (acc ++ [ {| ChannelConfiguration.port_number := to_uint16 p;
                               ChannelConfiguration.mech_unit_group := group |} ]) s1)
      as (cfgs & s' & t & Hrun & Hall & Hsame' & Hmem' & Hlog).
    { intros g Hg. destruct (Hparse g (or_intror Hg)) as (q & Hq).
      exists q. unfold port_parameter in *. rewrite Hsame. exact Hq. }
    rewrite Hrun. eexists (_ :: cfgs), s', _. split; [|split; [|split; [|split]]].
    + rewrite <- app_assoc. reflexivity.
    + constructor.
      * split; [reflexivity|]. exists p. split; [exact Hp | reflexivity].
      * eapply Forall2_impl; [exact Hall|]. intros g c. apply configured_same, Hsame.
    + eapply same_parameters_trans; eassumption.
    + eapply same_members_trans; eassumption.
    + cbn. constructor; [reflexivity | exact Hlog].
Qed.



Lemma only_emits_bind p {A B} (m : M A) (k : A -> M B) :
  only_emits p m -> (forall a, only_emits p (k a)) -> only_emits p (bind m k).
Proof.
  intros Hm Hk s r s' t. unfold bind.
  destruct (m s) as [[x s1] t1] eqn:Em. specialize (Hm _ _ _ _ Em).
  destruct x; try (intros [= <- <- <-]; exact Hm).
  destruct (k a s1) as [[y s2] t2] eqn:Ek. specialize (Hk _ _ _ _ _ Ek).
  intros [= <- <- <-]. apply Forall_app. split; assumption.
Qed.

(** A statement with a fixed, short trace. *)
Ltac events_leaf :=
  let E := fresh "E" in
  intros ? ? ? ? E;
  cbv [ret gets log emit return_ raise undefined out_of_fuel modify
       modify_group modify_description add_mechanical_units_groups
       hardware_parameters_subscript] in E;
  try (destruct (subscript _ _));
  injection E as <- <- <-; repeat constructor.

Lemma only_emits_lift p {A} (x : result A) : only_emits p (lift x).
Proof. destruct x; events_leaf. Qed.

Lemma only_emits_for_each p {A} (l : list A) (body : A -> M unit) :
  (forall a, only_emits p (body a)) -> only_emits p (for_each l body).
Proof.
  intros Hbody. induction l as [|a l IH]; cbn [for_each].
  - events_leaf.
  - apply only_emits_bind; [apply Hbody | intros _; exact IH].
Qed.

Lemma only_emits_add_joint mug joint cis :
  only_emits (fun e => negb (is_egm_construction e)) (add_joint mug joint cis).
Proof.
  induction cis as [|c cis IH]; cbn [add_joint]; [events_leaf|].
  destruct (String.eqb (InterfaceInfo.name c) HW_IF_POSITION); [|exact IH].
  apply only_emits_bind; [apply only_emits_lift|]. intros lo.
  apply only_emits_bind; [apply only_emits_lift|]. intros hi.
  apply only_emits_bind; [events_leaf | intros _; events_leaf].
Qed.

Lemma build_description_constructs_nothing :
  only_emits (fun e => negb (is_egm_construction e)) build_description.
Proof.
  unfold build_description.
  apply only_emits_bind; [events_leaf|]. intros [|].
  - unfold description_from_RWS.
    apply only_emits_bind; [events_leaf|]. intros _.
    apply only_emits_bind; [events_leaf|]. intros ps.
    apply only_emits_bind; [apply only_emits_lift|]. intros port.
    apply only_emits_bind; [events_leaf|]. intros ip.
    apply only_emits_bind.
    { destruct (String.eqb ip "None"); [|events_leaf].
      apply only_emits_bind; [events_leaf | intros _; events_leaf]. }
    intros _.
    apply only_emits_bind; [events_leaf|]. intros _.
    apply only_emits_bind; [apply only_emits_lift|]. intros d.
    events_leaf.
  - unfold description_from_HardwareInfo.
    apply only_emits_bind; [events_leaf|]. intros _.
    apply only_emits_bind; [events_leaf|]. intros _.
    apply only_emits_bind; [events_leaf|]. intros _.
    apply only_emits_bind; [events_leaf|]. intros mug.
    apply only_emits_bind; [events_leaf|]. intros _.
    apply only_emits_bind; [events_leaf|]. intros _.
    apply only_emits_bind; [events_leaf|]. intros joints.
    apply only_emits_bind; [events_leaf|]. intros _.
    apply only_emits_bind; [events_leaf|]. intros _.
    apply only_emits_for_each. intros joint.
    apply only_emits_add_joint.
Qed.

Lemma configure_egm_runs s1 md :
  initializeMotionData (ABBSystemHardware.motion_data_ s1)
    (ABBSystemHardware.robot_controller_description_ s1) = Ok md ->
  configure_egm s1
  = (let '(r, s', t) :=
       bind (channel_configurations_loop
               (RobotControllerDescription.mechanical_units_groups
                  (ABBSystemHardware.robot_controller_description_ s1)) [])
            (fun cfgs => make_egm_manager cfgs ;; ret SUCCESS)
            (ABBSystemHardware.set_motion_data md s1) in
     (r, s',
      [ Log INFO (Msg_description_summary (ABBSystemHardware.robot_controller_description_ s1));
        Log INFO Msg_configuring_EGM; Call_initializeMotionData ] ++ t)).
Proof.
  intros Hmd. unfold configure_egm.
  unfold bind at 1. cbn [gets]. unfold bind at 1. cbn [log emit].
  unfold bind at 1. cbn [log emit]. unfold bind at 1.
  unfold initialize_motion_data at 1. unfold bind at 1. cbn [emit].
  unfold bind at 1. cbn [gets]. unfold bind at 1. cbn [gets]. rewrite Hmd.
  cbn [modify]. unfold bind at 1. cbn [gets].
  cbn [ABBSystemHardware.robot_controller_description_ ABBSystemHardware.set_motion_data].
  match goal with
  | |- context [bind ?m ?k ?st] => destruct (bind m k st) as [[r s'] t]
  end.
  reflexivity.
Qed.


End Channels.



(** ** Activation *)

Section Activation.
Context `{Externals}.

Lemma size_t_succ_small counter :
  0 <= counter < NUM_CONNECTION_TRIES -> size_t_succ counter = counter + 1.
Proof.
  unfold size_t_succ, NUM_CONNECTION_TRIES. intros Hc.
  apply Z.mod_small. lia.
Qed.

(** With a manager in place the loop always falls through, having left the
    object alone, waited at most [99 - counter] times, never read and never
    reported a failure; [100 - counter] rounds of fuel are enough. *)
Lemma connection_loop_falls_through fuel : forall counter s egm,
  ABBSystemHardware.egm_manager_ s = Some egm ->
  0 <= counter < NUM_CONNECTION_TRIES ->
  NUM_CONNECTION_TRIES - counter <= Z.of_nat fuel ->
  exists t,
    connection_loop fuel counter s = (Next tt, s, t)
    /\ Z.of_nat (length (List.filter is_wait t)) <= NUM_CONNECTION_TRIES - 1 - counter
    /\ Forall (fun e => is_read e = false) t
    /\ ~ In (Log ERROR_LOG Msg_failed_to_connect) t.
Proof.
  induction fuel as [|fuel IH]; intros counter s egm Hegm Hc Hfuel.
  - cbn in Hfuel. lia.
  - cbn [connection_loop].
    destruct (rclcpp_ok counter); cbn [negb].
    2:{ exists []. cbn. repeat split; try constructor; try lia; try (intros []). }
    rewrite (size_t_succ_small counter Hc).
    destruct (counter + 1 <? NUM_CONNECTION_TRIES) eqn:Hlt; cbn [negb].
    2:{ exists []. cbn. repeat split; try constructor; try lia; try (intros []). }
    apply Z.ltb_lt in Hlt.
    unfold bind at 1. unfold egm_manager at 1. rewrite Hegm.
    unfold bind at 1. cbn [emit].
    destruct (waitForMessage egm (counter + 1) 500).
    + eexists. split; [reflexivity|]. cbn. repeat split; try lia.
      * repeat constructor.
      * intros [Hx | [Hx | []]]; discriminate Hx.
    + unfold bind at 1. cbn [log emit].
      assert (Hne : (counter + 1 =? NUM_CONNECTION_TRIES) = false)
        by (apply Z.eqb_neq; lia).
      rewrite Hne. unfold bind at 1. cbn [ret]. unfold bind at 1. cbn [emit].
      destruct (IH (counter + 1) s egm Hegm) as (t & Hrun & Hwaits & Hreads & Hfail);
        [lia | lia |].
      rewrite Hrun. eexists. split; [reflexivity|]. cbn. repeat split.
      * lia.
      * repeat constructor. exact Hreads.
      * intros [Hx | [Hx | [Hx | Hx]]]; try discriminate Hx. exact (Hfail Hx).
Qed.

Lemma connection_loop_without_manager fuel counter s :
  ABBSystemHardware.egm_manager_ s = None ->
  exists x t,
    connection_loop (S fuel) counter s = (x, s, t) /\ (x = Next tt \/ x = Undefined).
Proof.
  intros Hegm. cbn [connection_loop].
  destruct (rclcpp_ok counter); cbn [negb]; [|eexists _, _; split; [reflexivity|auto]].
  destruct (size_t_succ counter <? NUM_CONNECTION_TRIES); cbn [negb];
    [|eexists _, _; split; [reflexivity|auto]].
  unfold bind. unfold egm_manager. rewrite Hegm.
  eexists _, _. split; [reflexivity | auto].
Qed.

Lemma all_joints_seed_commands md :
  all_joints (seed_commands md) = map seed_joint (all_joints md).
Proof.
  unfold all_joints, seed_commands. cbn [MotionData.groups].
  rewrite concat_map, !map_map. f_equal.
  apply map_ext. intros group. cbn [seed_group Group.units].
  rewrite concat_map, !map_map. reflexivity.
Qed.

(** With a manager in place [on_activate] always returns SUCCESS: there is
    no run in which it returns ERROR. *)
Lemma on_activate_always_succeeds s egm :
  ABBSystemHardware.egm_manager_ s = Some egm ->
  exists t,
    on_activate s
    = (Returned SUCCESS,
       ABBSystemHardware.set_motion_data
         (seed_commands (EGMManager_read egm (ABBSystemHardware.motion_data_ s))) s,
       t)
    /\ (length (List.filter is_wait t) <= 99)%nat
    /\ length (List.filter is_read t) = 1%nat
    /\ ~ In (Log ERROR_LOG Msg_failed_to_connect) t.
Proof.
  intros Hegm.
  destruct (connection_loop_falls_through (Z.to_nat NUM_CONNECTION_TRIES) 0 s egm Hegm)
    as (t & Hrun & Hwaits & Hreads & Hfail).
  { unfold NUM_CONNECTION_TRIES. lia. }
  { unfold NUM_CONNECTION_TRIES. lia. }
  unfold on_activate, call, on_activate_body.
  unfold bind at 1. cbn [log emit]. unfold bind at 1. rewrite Hrun.
  unfold bind at 1. unfold egm_read at 1. unfold bind at 1.
  unfold egm_manager at 1. rewrite Hegm. unfold bind at 1. cbn [emit modify].
  unfold bind at 1. cbn [modify]. unfold bind at 1. cbn [log emit ret].
  eexists. split; [|split; [|split]].
  - destruct s. reflexivity.
  - cbn [app List.filter is_wait]. rewrite List.filter_app. cbn.
    rewrite length_app. cbn. unfold NUM_CONNECTION_TRIES in Hwaits. lia.
  - cbn [app List.filter is_read]. rewrite List.filter_app. cbn.
    rewrite length_app. cbn.
    assert (Hnone : List.filter is_read t = []).
    { clear -Hreads. induction Hreads as [|e t He _ IH]; [reflexivity|].
      cbn. rewrite He. exact IH. }
    rewrite Hnone. reflexivity.
  - cbn [app]. intros [Hx | Hx]; [discriminate Hx|].
    apply in_app_or in Hx. destruct Hx as [Hx | Hx]; [exact (Hfail Hx)|].
    cbn in Hx. destruct Hx as [Hx | [Hx | []]]; discriminate Hx.
Qed.

Lemma on_activate_without_manager s :
  ABBSystemHardware.egm_manager_ s = None ->
  exists s' t, on_activate s = (UndefinedBehaviour, s', t).
Proof.
  intros Hegm. unfold on_activate, call, on_activate_body.
  change (Z.to_nat NUM_CONNECTION_TRIES) with (S 99).
  destruct (connection_loop_without_manager 99 0 s Hegm) as (x & t & Hrun & [-> | ->]).
  - unfold bind at 1. cbn [log emit]. unfold bind at 1. rewrite Hrun.
    unfold bind at 1. unfold egm_read at 1. unfold bind at 1.
    unfold egm_manager at 1. rewrite Hegm.
    eexists _, _. reflexivity.
  - unfold bind at 1. cbn [log emit]. unfold bind at 1. rewrite Hrun.
    eexists _, _. reflexivity.
Qed.

(** C4. When [on_activate] has returned SUCCESS, the motion data is what
    the one read of the EGM manager reported, joint by joint, with each
    command overwritten: its position is the state position just read and
    its velocity is 0.0. *)
Theorem on_activate_seeds_commands s s' t :
  on_activate s = (Returned SUCCESS, s', t) ->
  exists egm,
    ABBSystemHardware.egm_manager_ s = Some egm
    /\ length (List.filter is_read t) = 1%nat
    /\ Forall2
         (fun observed seeded =>
            Joint.name seeded = Joint.name observed
            /\ Joint.state seeded = Joint.state observed
            /\ JointData.position (Joint.command seeded)
               = JointData.position (Joint.state observed)
            /\ JointData.velocity (Joint.command seeded) = 0%float)
         (all_joints (EGMManager_read egm (ABBSystemHardware.motion_data_ s)))
         (all_joints (ABBSystemHardware.motion_data_ s'))
    /\ Forall
         (fun joint =>
            JointData.position (Joint.command joint)
            = JointData.position (Joint.state joint)
            /\ JointData.velocity (Joint.command joint) = 0%float)
         (all_joints (ABBSystemHardware.motion_data_ s')).
Proof.
  intros Hrun.
  destruct (ABBSystemHardware.egm_manager_ s) as [egm|] eqn:Hegm.
  2:{ destruct (on_activate_without_manager s Hegm) as (s1 & t1 & Hub).
      rewrite Hub in Hrun. discriminate Hrun. }
  destruct (on_activate_always_succeeds s egm Hegm) as (t1 & Hok & _ & Hreads & _).
  rewrite Hok in Hrun. injection Hrun as <- <-.
  exists egm. split; [reflexivity|]. split; [exact Hreads|].
  cbn [ABBSystemHardware.motion_data_ ABBSystemHardware.set_motion_data].
  rewrite all_joints_seed_commands.
  generalize (all_joints (EGMManager_read egm (ABBSystemHardware.motion_data_ s))).
  intros joints. split.
  - induction joints as [|joint joints IH]; constructor; [|exact IH].
    repeat split.
  - induction joints as [|joint joints IH]; constructor; [|exact IH].
    split; reflexivity.
Qed.

End Activation.

Lemma on_activate_seeds_commands_witness :
  Forall
    (fun joint =>
       JointData.position (Joint.command joint) = Sample.seven_tenths
       /\ JointData.velocity (Joint.command joint) = 0%float)
    (all_joints
       (ABBSystemHardware.motion_data_
          (snd (fst (@on_activate (Sample.externals (Sample.at_attempt 3) Sample.seven_tenths)
                       (Sample.inactive ["joint_1"; "joint_2"])))))).
Proof.
  destruct (@on_activate (Sample.externals (Sample.at_attempt 3) Sample.seven_tenths)
              (Sample.inactive ["joint_1"; "joint_2"])) as [[r s'] t] eqn:Hrun.
  assert (Hr : r = Returned SUCCESS).
  { apply (f_equal (fun x => fst (fst x))) in Hrun. vm_compute in Hrun. congruence. }
  subst r.
  destruct (@on_activate_seeds_commands
              (Sample.externals (Sample.at_attempt 3) Sample.seven_tenths)
              _ s' t Hrun) as (egm & _ & _ & Hobserved & _).
  cbn [fst snd].
  remember (all_joints (ABBSystemHardware.motion_data_ s')) as seeded.
  clear Heqseeded Hrun.
  vm_compute in Hobserved.
  inversion Hobserved as [|o1 j1 os js (_ & _ & Hp1 & Hv1) Hrest]; subst.
  inversion Hrest as [|o2 j2 os' js' (_ & _ & Hp2 & Hv2) Hnil]; subst.
  inversion Hnil; subst.
  repeat constructor; assumption.
Defined.

(** C1 fails on the code. On a channel that never reports a message, with
    the process alive, [on_activate] does not return ERROR: the loop is left
    when the 100th increment of the counter fails its test, after 99 waits
    and 99 sleeps, the report of a failed connection is never logged, and
    the callback reads, seeds the commands and returns SUCCESS.  The 100th
    wait is never made: a channel that would answer at attempt 100 only is
    never seen answering. *)
Theorem on_activate_never_connected_succeeds :
  (exists s' t,
     @on_activate (Sample.externals Sample.never Sample.seven_tenths)
       (Sample.inactive ["joint_1"; "joint_2"]) = (Returned SUCCESS, s', t)
     /\ length (List.filter is_wait t) = 99%nat
     /\ length (List.filter is_sleep t) = 99%nat
     /\ ~ In (Log ERROR_LOG Msg_failed_to_connect) t)
  /\ (exists s' t,
        @on_activate (Sample.externals (Sample.at_attempt 100) Sample.seven_tenths)
          (Sample.inactive ["joint_1"; "joint_2"]) = (Returned SUCCESS, s', t)
        /\ length (List.filter is_wait t) = 99%nat
        /\ ~ In (Log INFO Msg_connected) t).
Proof.
  split.
  - destruct (@on_activate_always_succeeds
                (Sample.externals Sample.never Sample.seven_tenths)
                (Sample.inactive ["joint_1"; "joint_2"]) _ eq_refl)
      as (t & Hrun & _ & _ & Hfail).
    eexists _, t. split; [exact Hrun|].
    apply (f_equal snd) in Hrun. cbn [snd] in Hrun. subst t.
    split; [vm_compute; reflexivity|]. split; [vm_compute; reflexivity|].
    exact Hfail.
  - eexists _, _. split; [vm_compute; reflexivity|].
    split; [vm_compute; reflexivity|].
    intros Hin. apply (proj1 (List.forallb_forall
      (fun e => match e with Log INFO Msg_connected => false | _ => true end) _))
      with (x := Log INFO Msg_connected) in Hin; [discriminate Hin|].
    vm_compute. reflexivity.
Qed.

(** ** Searching a name for the marker *)

Lemma append_nil (b : string) : EmptyString +:+ b = b.
Proof. reflexivity. Qed.

Lemma append_cons (c : ascii) (a b : string) :
  String c a +:+ b = String c (a +:+ b).
Proof. reflexivity. Qed.

Lemma length_append (a b : string) :
  String.length (a +:+ b) = (String.length a + String.length b)%nat.
Proof.
  induction a as [|x a IH]; [reflexivity|].
  rewrite append_cons. cbn [String.length]. rewrite IH. reflexivity.
Qed.

Lemma starts_with_spec needle : forall haystack,
  starts_with needle haystack = true <-> exists after, haystack = needle +:+ after.
Proof.
  induction needle as [|a needle IH]; intros haystack; cbn [starts_with].
  - split; [intros _; exists haystack; reflexivity | reflexivity].
  - destruct haystack as [|b haystack].
    + split; [discriminate | intros (after & Hx); discriminate Hx].
    + rewrite andb_true_iff, IH. split.
      * intros (Hab & after & ->). apply Ascii.eqb_eq in Hab. subst b.
        exists after. reflexivity.
      * intros (after & Hx). rewrite append_cons in Hx. injection Hx as -> ->.
        split; [apply Ascii.eqb_refl | exists after; reflexivity].
Qed.

Lemma string_drop_append (before rest : string) :
  string_drop (String.length before) (before +:+ rest) = rest.
Proof.
  induction before as [|c before IH].
  - rewrite append_nil. destruct rest; reflexivity.
  - rewrite append_cons. cbn [String.length string_drop]. exact IH.
Qed.

Lemma first_occurrence_found needle : forall haystack p,
  first_occurrence needle haystack = Some p ->
  exists before after,
    haystack = before +:+ needle +:+ after
    /\ String.length before = p
    /\ forall before' after',
         haystack = before' +:+ needle +:+ after' ->
         (p <= String.length before')%nat.
Proof.
  induction haystack as [|c haystack IH]; intros p; cbn [first_occurrence].
  - destruct (starts_with needle EmptyString) eqn:Hs; [|discriminate].
    intros [= <-]. apply starts_with_spec in Hs. destruct Hs as (after & Hs).
    exists EmptyString, after. repeat split; [exact Hs | intros; lia].
  - destruct (starts_with needle (String c haystack)) eqn:Hs.
    + intros [= <-]. apply starts_with_spec in Hs. destruct Hs as (after & Hs).
      exists EmptyString, after. repeat split; [exact Hs | intros; lia].
    + destruct (first_occurrence needle haystack) as [q|] eqn:Hq; [|discriminate].
      cbn [option_map]. intros [= <-].
      destruct (IH q eq_refl) as (before & after & -> & Hlen & Hmin).
      exists (String c before), after. repeat split; [cbn [String.length]; lia|].
      intros [|c' before'] after' Hx.
      * exfalso. rewrite append_nil in Hx.
        assert (Hs' : starts_with needle (String c (before +:+ needle +:+ after)) = true)
          by (apply starts_with_spec; exists after'; exact Hx).
        congruence.
      * rewrite append_cons in Hx. injection Hx as _ Hx. cbn [String.length].
        specialize (Hmin before' after' Hx). lia.
Qed.

Lemma first_occurrence_none needle : forall haystack,
  first_occurrence needle haystack = None -> ~ contains needle haystack.
Proof.
  induction haystack as [|c haystack IH]; cbn [first_occurrence].
  - destruct (starts_with needle EmptyString) eqn:Hs; [discriminate|].
    intros _ ([|c before] & after & Hx); [|discriminate Hx].
    rewrite append_nil in Hx.
    assert (Hs' : starts_with needle EmptyString = true)
      by (apply starts_with_spec; exists after; exact Hx).
    congruence.
  - destruct (starts_with needle (String c haystack)) eqn:Hs; [discriminate|].
    destruct (first_occurrence needle haystack) as [q|] eqn:Hq; [discriminate|].
    intros _ ([|c' before] & after & Hx).
    + rewrite append_nil in Hx.
      assert (Hs' : starts_with needle (String c haystack) = true)
        by (apply starts_with_spec; exists after; exact Hx).
      congruence.
    + rewrite append_cons in Hx. injection Hx as _ Hx.
      apply (IH eq_refl). exists before, after. exact Hx.
Qed.

Lemma normalize_contains raw :
  contains "joint" raw ->
  exists out,
    normalize raw = Ok out
    /\ suffix_from_first "joint" raw out
    /\ (starts_with "joint" raw = true -> out = raw).
Proof.
  intros Hc. unfold normalize, find.
  destruct (first_occurrence "joint" raw) as [p|] eqn:Hp;
    [|exfalso; exact (first_occurrence_none _ _ Hp Hc)].
  destruct (first_occurrence_found _ _ _ Hp) as (before & after & -> & Hlen & Hmin).
  exists ("joint" +:+ after). unfold substr.
  assert (Hle : (Z.of_nat (String.length (before +:+ "joint" +:+ after)) <? Z.of_nat p) = false).
  { apply Z.ltb_ge. rewrite length_append. lia. }
  rewrite Hle, Nat2Z.id, <- Hlen, string_drop_append.
  split; [reflexivity|]. split.
  - exists before, after. repeat split. intros b' a' Hx. rewrite Hlen. apply (Hmin b' a' Hx).
  - intros Hs. apply starts_with_spec in Hs. destruct Hs as (after' & Hs).
    specialize (Hmin EmptyString after' Hs). cbn [String.length] in Hmin.
    destruct before; [reflexivity | cbn [String.length] in Hlen; lia].
Qed.

Lemma normalize_absent raw :
  ~ contains "joint" raw ->
  Z.of_nat (String.length raw) < npos ->
  normalize raw = Throw out_of_range.
Proof.
  intros Hc Hlen. unfold normalize, find.
  destruct (first_occurrence "joint" raw) as [p|] eqn:Hp.
  - exfalso. apply Hc.
    destruct (first_occurrence_found _ _ _ Hp) as (before & after & -> & _).
    exists before, after. reflexivity.
  - unfold substr. apply Z.ltb_lt in Hlen. rewrite Hlen. reflexivity.
Qed.

Lemma normalize_throws raw e : normalize raw = Throw e -> e = out_of_range.
Proof.
  unfold normalize, substr.
  destruct (Z.of_nat (String.length raw) <? find raw "joint"); congruence.
Qed.

(** ** The exported handles *)

Section Handles.
Context `{Externals}.
Variables position velocity : member.

Lemma export_joint_spec g u j joint acc :
  export_joint position velocity g u j joint acc
  = match normalize (Joint.name joint) with
    | Ok out => Ok (acc ++ handles_of position velocity g u j out)
    | Throw e => Throw e
    end.
Proof. reflexivity. Qed.

Lemma export_joints_ok g u joints : forall pre acc,
  Forall normalizes joints ->
  exists new outs,
    export_joints position velocity g u (length pre) joints acc = Ok (acc ++ new)
    /\ Forall2 (fun joint out => normalize (Joint.name joint) = Ok out) joints outs
    /\ map Handle.name new = handle_names outs
    /\ Forall (fun h =>
                 Pointer.group (Handle.value_ptr h) = g
                 /\ Pointer.unit (Handle.value_ptr h) = u
                 /\ is_Some ((pre ++ joints) !! Pointer.joint (Handle.value_ptr h))) new.
Proof.
  induction joints as [|joint joints IH]; intros pre acc Hall.
  - exists [], []. rewrite app_nil_r. repeat split; constructor.
  - inversion Hall as [|? ? (out & Hout) Hrest]; subst.
    cbn [export_joints]. rewrite export_joint_spec, Hout.
    destruct (IH (pre ++ [joint]) (acc ++ handles_of position velocity g u (length pre) out) Hrest)
      as (new & outs & Hrun & Houts & Hnames & Hptrs).
    rewrite length_app in Hrun. cbn [length] in Hrun.
    replace (length pre + 1)%nat with (S (length pre)) in Hrun by lia.
    rewrite Hrun.
    exists (handles_of position velocity g u (length pre) out ++ new), (out :: outs).
    split; [rewrite <- app_assoc; reflexivity|].
    split; [constructor; assumption|].
    split; [rewrite map_app, Hnames; reflexivity|].
    apply Forall_app. split.
    + assert (Hhere : is_Some ((pre ++ joint :: joints) !! length pre)).
      { exists joint. apply list_lookup_middle. reflexivity. }
      repeat constructor; exact Hhere.
    + eapply Forall_impl; [exact Hptrs|]. intros h (Hg & Hu & Hj).
      rewrite <- app_assoc in Hj. auto.
Qed.

Lemma export_joints_inv g u joints : forall j acc res,
  export_joints position velocity g u j joints acc = Ok res ->
  Forall normalizes joints.
Proof.
  induction joints as [|joint joints IH]; intros j acc res; [constructor|].
  cbn [export_joints]. rewrite export_joint_spec.
  destruct (normalize (Joint.name joint)) as [out|e] eqn:Hout; [|discriminate].
  intros Hrun. constructor; [exists out; exact Hout | exact (IH _ _ _ Hrun)].
Qed.

Lemma export_joints_throws g u joints : forall j acc e,
  export_joints position velocity g u j joints acc = Throw e -> e = out_of_range.
Proof.
  induction joints as [|joint joints IH]; intros j acc e; [discriminate|].
  cbn [export_joints]. rewrite export_joint_spec.
  destruct (normalize (Joint.name joint)) as [out|e'] eqn:Hout.
  - apply IH.
  - intros [= <-]. exact (normalize_throws _ _ Hout).
Qed.

Lemma export_joints_shape g u joints joints' : forall j acc,
  Forall2 (fun joint joint' => Joint.name joint = Joint.name joint') joints joints' ->
  export_joints position velocity g u j joints acc
  = export_joints position velocity g u j joints' acc.
Proof.
  intros j acc Hsame. revert j acc.
  induction Hsame as [|joint joint' joints joints' Hname _ IH]; intros j acc; [reflexivity|].
  cbn [export_joints]. rewrite !export_joint_spec, Hname.
  destruct (normalize (Joint.name joint')); [apply IH | reflexivity].
Qed.

Lemma export_units_ok g units : forall pre acc,
  Forall normalizes (concat (map Unit_.joints units)) ->
  exists new outs,
    export_units position velocity g (length pre) units acc = Ok (acc ++ new)
    /\ Forall2 (fun joint out => normalize (Joint.name joint) = Ok out)
         (concat (map Unit_.joints units)) outs
    /\ map Handle.name new = handle_names outs
    /\ Forall (fun h =>
                 Pointer.group (Handle.value_ptr h) = g
                 /\ exists unit,
                      (pre ++ units) !! Pointer.unit (Handle.value_ptr h) = Some unit
                      /\ is_Some (Unit_.joints unit !! Pointer.joint (Handle.value_ptr h)))
         new.
Proof.
  induction units as [|unit units IH]; intros pre acc Hall.
  - exists [], []. rewrite app_nil_r. repeat split; constructor.
  - cbn [map concat] in Hall. apply Forall_app in Hall. destruct Hall as [Hhere Hrest].
    cbn [export_units].
    destruct (export_joints_ok g (length pre) (Unit_.joints unit) [] acc Hhere)
      as (new1 & outs1 & Hrun1 & Houts1 & Hnames1 & Hptrs1).
    cbn [length] in Hrun1. rewrite Hrun1.
    destruct (IH (pre ++ [unit]) (acc ++ new1) Hrest)
      as (new2 & outs2 & Hrun2 & Houts2 & Hnames2 & Hptrs2).
    rewrite length_app in Hrun2. cbn [length] in Hrun2.
    replace (length pre + 1)%nat with (S (length pre)) in Hrun2 by lia.
    rewrite Hrun2. exists (new1 ++ new2), (outs1 ++ outs2).
    split; [rewrite <- app_assoc; reflexivity|].
    split; [cbn [map concat]; apply Forall2_app; assumption|].
    split.
    { rewrite map_app, Hnames1, Hnames2. unfold handle_names.
      rewrite map_app, concat_app. reflexivity. }
    apply Forall_app. split.
    + eapply Forall_impl; [exact Hptrs1|]. intros h (Hg & Hu & Hj).
      split; [exact Hg|]. exists unit. rewrite Hu. split; [|exact Hj].
      apply list_lookup_middle. reflexivity.
    + eapply Forall_impl; [exact Hptrs2|]. intros h (Hg & unit' & Hu & Hj).
      split; [exact Hg|]. exists unit'. rewrite <- app_assoc in Hu. auto.
Qed.

Lemma export_units_inv g units : forall u acc res,
  export_units position velocity g u units acc = Ok res ->
  Forall normalizes (concat (map Unit_.joints units)).
Proof.
  induction units as [|unit units IH]; intros u acc res; [constructor|].
  cbn [export_units].
  destruct (export_joints position velocity g u 0 (Unit_.joints unit) acc) as [acc'|e] eqn:Hrun;
    [|discriminate].
  intros Hrest. cbn [map concat]. apply Forall_app. split.
  - exact (export_joints_inv _ _ _ _ _ _ Hrun).
  - exact (IH _ _ _ Hrest).
Qed.

Lemma export_units_throws g units : forall u acc e,
  export_units position velocity g u units acc = Throw e -> e = out_of_range.
Proof.
  induction units as [|unit units IH]; intros u acc e; [discriminate|].
  cbn [export_units].
  destruct (export_joints position velocity g u 0 (Unit_.joints unit) acc) as [acc'|e'] eqn:Hrun.
  - apply IH.
  - intros [= <-]. exact (export_joints_throws _ _ _ _ _ _ Hrun).
Qed.

Lemma export_units_shape g units units' : forall u acc,
  Forall2 (fun unit unit' =>
             Forall2 (fun joint joint' => Joint.name joint = Joint.name joint')
               (Unit_.joints unit) (Unit_.joints unit')) units units' ->
  export_units position velocity g u units acc
  = export_units position velocity g u units' acc.
Proof.
  intros u acc Hsame. revert u acc.
  induction Hsame as [|unit unit' units units' Hjoints _ IH]; intros u acc; [reflexivity|].
  cbn [export_units]. rewrite (export_joints_shape g u _ _ 0 acc Hjoints).
  destruct (export_joints position velocity g u 0 (Unit_.joints unit') acc);
    [apply IH | reflexivity].
Qed.

Lemma export_groups_ok groups : forall pre acc,
  Forall normalizes
    (concat (map (fun group => concat (map Unit_.joints (Group.units group))) groups)) ->
  exists new outs,
    export_groups position velocity (length pre) groups acc = Ok (acc ++ new)
    /\ Forall2 (fun joint out => normalize (Joint.name joint) = Ok out)
         (concat (map (fun group => concat (map Unit_.joints (Group.units group))) groups))
         outs
    /\ map Handle.name new = handle_names outs
    /\ Forall (fun h => points_into (pre ++ groups) (Handle.value_ptr h)) new.
Proof.
  induction groups as [|group groups IH]; intros pre acc Hall.
  - exists [], []. rewrite app_nil_r. repeat split; constructor.
  - cbn [map concat] in Hall. apply Forall_app in Hall. destruct Hall as [Hhere Hrest].
    cbn [export_groups].
    destruct (export_units_ok (length pre) (Group.units group) [] acc Hhere)
      as (new1 & outs1 & Hrun1 & Houts1 & Hnames1 & Hptrs1).
    cbn [length] in Hrun1. rewrite Hrun1.
    destruct (IH (pre ++ [group]) (acc ++ new1) Hrest)
      as (new2 & outs2 & Hrun2 & Houts2 & Hnames2 & Hptrs2).
    rewrite length_app in Hrun2. cbn [length] in Hrun2.
    replace (length pre + 1)%nat with (S (length pre)) in Hrun2 by lia.
    rewrite Hrun2. exists (new1 ++ new2), (outs1 ++ outs2).
    split; [rewrite <- app_assoc; reflexivity|].
    split; [cbn [map concat]; apply Forall2_app; assumption|].
    split.
    { rewrite map_app, Hnames1, Hnames2. unfold handle_names.
      rewrite map_app, concat_app. reflexivity. }
    apply Forall_app. split.
    + eapply Forall_impl; [exact Hptrs1|]. intros h (Hg & unit & Hu & joint & Hj).
      exists group, unit, joint. rewrite Hg. cbn [app] in Hu.
      split; [apply list_lookup_middle; reflexivity | auto].
    + eapply Forall_impl; [exact Hptrs2|]. intros h Hp.
      rewrite <- app_assoc in Hp. exact Hp.
Qed.

Lemma export_groups_inv groups : forall g acc res,
  export_groups position velocity g groups acc = Ok res ->
  Forall normalizes
    (concat (map (fun group => concat (map Unit_.joints (Group.units group))) groups)).
Proof.
  induction groups as [|group groups IH]; intros g acc res; [constructor|].
  cbn [export_groups].
  destruct (export_units position velocity g 0 (Group.units group) acc) as [acc'|e] eqn:Hrun;
    [|discriminate].
  intros Hrest. cbn [map concat]. apply Forall_app. split.
  - exact (export_units_inv _ _ _ _ _ Hrun).
  - exact (IH _ _ _ Hrest).
Qed.

Lemma export_groups_throws groups : forall g acc e,
  export_groups position velocity g groups acc = Throw e -> e = out_of_range.
Proof.
  induction groups as [|group groups IH]; intros g acc e; [discriminate|].
  cbn [export_groups].
  destruct (export_units position velocity g 0 (Group.units group) acc) as [acc'|e'] eqn:Hrun.
  - apply IH.
  - intros [= <-]. exact (export_units_throws _ _ _ _ _ Hrun).
Qed.

Lemma export_groups_shape groups groups' : forall g acc,
  same_shape groups groups' ->
  export_groups position velocity g groups acc
  = export_groups position velocity g groups' acc.
Proof.
  intros g acc Hsame. revert g acc.
  induction Hsame as [|group group' groups groups' Hunits _ IH]; intros g acc; [reflexivity|].
  cbn [export_groups]. rewrite (export_units_shape g _ _ 0 acc Hunits).
  destruct (export_units position velocity g 0 (Group.units group') acc);
    [apply IH | reflexivity].
Qed.

(** An exported list is either complete or lost to [std::out_of_range]. *)
Lemma export_groups_total_iff groups :
  (Forall normalizes
     (concat (map (fun group => concat (map Unit_.joints (Group.units group))) groups)) ->
   exists hs, export_groups position velocity 0 groups [] = Ok hs)
  /\ (~ Forall normalizes
         (concat (map (fun group => concat (map Unit_.joints (Group.units group))) groups)) ->
      export_groups position velocity 0 groups [] = Throw out_of_range).
Proof.
  split.
  - intros Hall. destruct (export_groups_ok groups [] [] Hall) as (new & outs & Hrun & _).
    exists new. exact Hrun.
  - intros Hnot.
    destruct (export_groups position velocity 0 groups []) as [hs|e] eqn:Hrun.
    + exfalso. exact (Hnot (export_groups_inv _ _ _ _ Hrun)).
    + rewrite (export_groups_throws _ _ _ _ Hrun). reflexivity.
Qed.

End Handles.

(** ** Reading and writing through a pointer *)

Lemma alter_same_shape {A} (R : A -> A -> Prop) (f : A -> A) i (l : list A) :
  (forall x, R x x) -> (forall x, R x (f x)) -> Forall2 R l (alter f i l).
Proof.
  intros Hrefl Hf. revert i. induction l as [|x l IH]; intros [|i]; cbn.
  - constructor.
  - constructor.
  - constructor; [apply Hf | clear IH; induction l; constructor; auto].
  - constructor; [apply Hrefl | apply IH].
Qed.

Lemma set_joint_member_name m v joint :
  Joint.name (set_joint_member m v joint) = Joint.name joint.
Proof. destruct m; reflexivity. Qed.

Lemma joint_member_set m v joint :
  joint_member m (set_joint_member m v joint) = v.
Proof. destruct m; reflexivity. Qed.

Lemma store_same_shape p v md :
  same_shape (MotionData.groups md) (MotionData.groups (store p v md)).
Proof.
  unfold store, same_shape. cbn [MotionData.groups].
  apply alter_same_shape.
  - intros group. induction (Group.units group) as [|unit units IH]; constructor; [|exact IH].
    induction (Unit_.joints unit); constructor; auto.
  - intros group. cbn [Group.units]. apply alter_same_shape.
    + intros unit. induction (Unit_.joints unit); constructor; auto.
    + intros unit. cbn [Unit_.joints]. apply alter_same_shape.
      * reflexivity.
      * intros joint. symmetry. apply set_joint_member_name.
Qed.

Lemma load_store p v md :
  points_into (MotionData.groups md) p -> load p (store p v md) = Some v.
Proof.
  intros (group & unit & joint & Hg & Hu & Hj).
  unfold load, store. cbn [MotionData.groups].
  rewrite list_lookup_alter_eq, Hg. cbn [fmap option_fmap option_map Group.units].
  rewrite list_lookup_alter_eq, Hu. cbn [fmap option_fmap option_map Unit_.joints].
  rewrite list_lookup_alter_eq, Hj. cbn [fmap option_fmap option_map].
  rewrite joint_member_set. reflexivity.
Qed.

(** ** The two export functions *)

Section Exported.
Context `{Externals}.

Lemma exported_handle_written position velocity md hs i h v :
  export_groups position velocity 0 (MotionData.groups md) [] = Ok hs ->
  hs !! i = Some h ->
  export_groups position velocity 0 (MotionData.groups (set_value h v md)) [] = Ok hs
  /\ get_value h (set_value h v md) = Some v.
Proof.
  intros Hrun Hi. split.
  - unfold set_value.
    rewrite <- (export_groups_shape position velocity _ _ 0 []
                  (store_same_shape (Handle.value_ptr h) v md)).
    exact Hrun.
  - unfold get_value, set_value. apply load_store.
    pose proof (export_groups_inv _ _ _ _ _ _ Hrun) as Hall.
    destruct (export_groups_ok position velocity (MotionData.groups md) [] [] Hall)
      as (new & outs & Hrun' & _ & _ & Hptrs).
    cbn [length app] in Hrun', Hptrs. rewrite Hrun in Hrun'. injection Hrun' as ->.
    rewrite Forall_forall in Hptrs. apply Hptrs.
    eapply list_elem_of_lookup_2. exact Hi.
Qed.

Lemma normalized_once joints : forall outs outs',
  Forall2 (fun joint out => normalize (Joint.name joint) = Ok out) joints outs ->
  Forall2 (fun joint out => normalize (Joint.name joint) = Ok out) joints outs' ->
  outs = outs'.
Proof.
  induction joints as [|joint joints IH]; intros outs outs' H1 H2;
    inversion H1; inversion H2; subst; [reflexivity|].
  f_equal; [congruence | apply IH; assumption].
Qed.

Lemma normalized_suffixes joints : forall outs,
  Forall (fun joint => contains "joint" (Joint.name joint)) joints ->
  Forall2 (fun joint out => normalize (Joint.name joint) = Ok out) joints outs ->
  Forall2
    (fun joint out =>
       suffix_from_first "joint" (Joint.name joint) out
       /\ (starts_with "joint" (Joint.name joint) = true -> out = Joint.name joint))
    joints outs.
Proof.
  induction joints as [|joint joints IH]; intros outs Hc Hn;
    inversion Hc; inversion Hn; subst; constructor; [|apply IH; assumption].
  destruct (normalize_contains (Joint.name joint)) as (out & Hout & Hsuffix & Hfull);
    [assumption|].
  replace y with out by congruence. auto.
Qed.

(** C10. Both export functions name a joint by what is left of its name
    from the first occurrence of the marker joint, the whole name when it
    starts with the marker; they return their handles exactly when every
    joint name of the motion data contains the marker, and as soon as one
    does not, the [substr] at [npos] throws and the call ends by
    [std::out_of_range]. *)
Theorem export_total_iff_marker s :
  Forall (fun joint => Z.of_nat (String.length (Joint.name joint)) < npos)
    (all_joints (ABBSystemHardware.motion_data_ s)) ->
  (Forall (fun joint => contains "joint" (Joint.name joint))
     (all_joints (ABBSystemHardware.motion_data_ s)) ->
   exists outs hs hc,
     export_state_interfaces s = Ok hs
     /\ export_command_interfaces s = Ok hc
     /\ Forall2
          (fun joint out =>
             suffix_from_first "joint" (Joint.name joint) out
             /\ (starts_with "joint" (Joint.name joint) = true -> out = Joint.name joint))
          (all_joints (ABBSystemHardware.motion_data_ s)) outs
     /\ map Handle.name hs = handle_names outs
     /\ map Handle.name hc = handle_names outs)
  /\ (Exists (fun joint => ~ contains "joint" (Joint.name joint))
        (all_joints (ABBSystemHardware.motion_data_ s)) ->
      export_state_interfaces s = Throw out_of_range
      /\ export_command_interfaces s = Throw out_of_range).
Proof.
  intros Hlen. unfold export_state_interfaces, export_command_interfaces, all_joints in *.
  split.
  - intros Hc.
    assert (Hall : Forall normalizes
      (concat (map (fun group => concat (map Unit_.joints (Group.units group)))
                 (MotionData.groups (ABBSystemHardware.motion_data_ s))))).
    { eapply Forall_impl; [exact Hc|]. intros joint Hj.
      destruct (normalize_contains _ Hj) as (out & Hout & _). exists out. exact Hout. }
    destruct (export_groups_ok state_position state_velocity _ [] [] Hall)
      as (hs & outs & Hrun & Houts & Hnames & _).
    destruct (export_groups_ok command_position command_velocity _ [] [] Hall)
      as (hc & outs' & Hrun' & Houts' & Hnames' & _).
    rewrite (normalized_once _ _ _ Houts' Houts) in Hnames'.
    exists outs, hs, hc. cbn [length app] in Hrun, Hrun'.
    repeat split; try assumption. apply normalized_suffixes; assumption.
  - intros Hex.
    assert (Hnot : ~ Forall normalizes
      (concat (map (fun group => concat (map Unit_.joints (Group.units group)))
                 (MotionData.groups (ABBSystemHardware.motion_data_ s))))).
    { intros Hall. rewrite Exists_exists in Hex. destruct Hex as (joint & Hin & Hno).
      rewrite Forall_forall in Hall, Hlen.
      destruct (Hall joint Hin) as (out & Hout).
      rewrite (normalize_absent _ Hno (Hlen joint Hin)) in Hout. discriminate Hout. }
    split; apply export_groups_total_iff; exact Hnot.
Qed.

End Exported.

Lemma export_total_iff_marker_witness :
  (exists hs,
     @export_state_interfaces (Sample.externals Sample.never Sample.seven_tenths)
       (Sample.inactive ["rob1_joint_1"; "joint_2"]) = Ok hs
     /\ map Handle.name hs = ["joint_1"; "joint_1"; "joint_2"; "joint_2"])
  /\ @export_state_interfaces (Sample.externals Sample.never Sample.seven_tenths)
       (Sample.inactive ["rob1_joint_1"; "axis_2"]) = Throw out_of_range.
Proof.
  split.
  - destruct (@export_total_iff_marker (Sample.externals Sample.never Sample.seven_tenths)
                (Sample.inactive ["rob1_joint_1"; "joint_2"])) as [Hok _].
    + repeat constructor.
    + destruct Hok as (outs & hs & hc & Hrun & _ & _ & _).
      * repeat constructor.
        -- exists "rob1_", "_1". reflexivity.
        -- exists EmptyString, "_2". reflexivity.
      * exists hs. split; [exact Hrun|].
        vm_compute in Hrun. injection Hrun as <-. reflexivity.
  - destruct (@export_total_iff_marker (Sample.externals Sample.never Sample.seven_tenths)
                (Sample.inactive ["rob1_joint_1"; "axis_2"])) as [_ Hbad].
    + repeat constructor.
    + apply Hbad. apply Exists_cons_tl, Exists_cons_hd.
      apply first_occurrence_none. reflexivity.
Defined.

(** ** The examples of the specification, run *)

(** The two declared joints j1 (no type, -1.0 to 1.0) and j2 (prismatic, 0.0
    to 0.5): one group, one robot of two axes, j1 revolute, j2 not, bounds
    as declared, in this order; the channel is on port 6511. *)
Example synthesis_of_two_joints :
  exists s' t,
    @on_init (Sample.externals Sample.never Sample.seven_tenths)
      Sample.synthesis_info ABBSystemHardware.new = (Returned SUCCESS, s', t)
    /\ RobotControllerDescription.mechanical_units_groups
         (ABBSystemHardware.robot_controller_description_ s')
       = [ {| MechanicalUnitGroup.name := EmptyString;
              MechanicalUnitGroup.robot :=
                Some {| MechanicalUnit.type := MechanicalUnit_Type_TCP_ROBOT;
                        MechanicalUnit.axes_total := 2;
                        MechanicalUnit.mode := MechanicalUnit_Mode_ACTIVATED;
                        MechanicalUnit.standardized_joints :=
                          [ {| StandardizedJoint.standardized_name := "j1";
                               StandardizedJoint.rotating_move := true;
                               StandardizedJoint.lower_joint_bound := (-1)%float;
                               StandardizedJoint.upper_joint_bound := 1%float |};
                            {| StandardizedJoint.standardized_name := "j2";
                               StandardizedJoint.rotating_move := false;
                               StandardizedJoint.lower_joint_bound := 0%float;
                               StandardizedJoint.upper_joint_bound := 0.5%float |} ] |} |} ]
    /\ option_map (fun egm => map ChannelConfiguration.port_number
                                (EGMManager.channel_configurations egm))
         (ABBSystemHardware.egm_manager_ s') = Some [6511].
Proof. eexists _, _. split; [vm_compute; reflexivity|]. split; reflexivity. Qed.

(** The group named arm with armegm_port at 6511. *)
Example channel_of_the_arm :
  exists s' t,
    @on_init (Sample.externals Sample.never Sample.seven_tenths)
      Sample.arm_info ABBSystemHardware.new = (Returned SUCCESS, s', t)
    /\ ABBSystemHardware.egm_manager_ s'
       = Some {| EGMManager.channel_configurations :=
                   [ {| ChannelConfiguration.port_number := 6511;
                        ChannelConfiguration.mech_unit_group := Sample.arm |} ] |}.
Proof. eexists _, _. split; [vm_compute; reflexivity | reflexivity]. Qed.

(** A port that does not fit an [int]: [std::stoi] throws
    [std::out_of_range], which the loop does not catch. *)
Example port_out_of_range_propagates :
  fst (fst (@on_init (Sample.externals Sample.never Sample.seven_tenths)
              Sample.huge_port_info ABBSystemHardware.new))
  = Thrown out_of_range.
Proof. vm_compute. reflexivity. Qed.

(** The address at None and no port: the port is parsed first, and its
    [std::invalid_argument] leaves [on_init] before the address is looked
    at. *)
Example port_parsed_before_the_address :
  fst (fst (@on_init (Sample.externals Sample.never Sample.seven_tenths)
              Sample.none_ip_no_port_info ABBSystemHardware.new))
  = Thrown invalid_argument.
Proof. vm_compute. reflexivity. Qed.

(** What [std::stoi] makes of a few strings. *)
Example stoi_examples :
  stoi "6511" = Ok 6511
  /\ stoi " -12abc" = Ok (-12)
  /\ stoi "abc" = Throw invalid_argument
  /\ stoi EmptyString = Throw invalid_argument
  /\ stoi "2147483648" = Throw out_of_range
  /\ to_uint16 70000 = 4464.
Proof. repeat split. Qed.

(** * Further properties of the callbacks *)

(** ** What [on_init] leaves alone, by stage *)

Section Keeps.
Context `{Externals}.
Variable R : ABBSystemHardware.t -> ABBSystemHardware.t -> Prop.
Hypothesis R_refl : forall s, R s s.
Hypothesis R_trans : forall a b c, R a b -> R b c -> R a c.
Hypothesis R_subscript : forall key, keeps R (hardware_parameters_subscript key).
Hypothesis R_description : forall v s, R s (ABBSystemHardware.set_description v s).
Hypothesis R_motion_data : forall v s, R s (ABBSystemHardware.set_motion_data v s).
Hypothesis R_egm_manager : forall v s, R s (ABBSystemHardware.set_egm_manager v s).

Lemma keeps_bind {A B} (m : M A) (k : A -> M B) :
  keeps R m -> (forall a, keeps R (k a)) -> keeps R (bind m k).
Proof.
  intros Hm Hk s r s' t. unfold bind.
  destruct (m s) as [[x s1] t1] eqn:Em. specialize (Hm _ _ _ _ Em).
  destruct x; try (intros [= <- <- <-]; exact Hm).
  destruct (k a s1) as [[y s2] t2] eqn:Ek. specialize (Hk _ _ _ _ _ Ek).
  intros [= <- <- <-]. eapply R_trans; eassumption.
Qed.

(** A statement that writes at most one member. *)
Ltac keeps_leaf :=
  let E := fresh "E" in
  intros ? ? ? ? E;
  cbv [ret gets log emit return_ raise undefined out_of_fuel modify
       modify_group modify_description add_mechanical_units_groups] in E;
  injection E as <- <- <-;
  first [ apply R_refl | apply R_description | apply R_motion_data
        | apply R_egm_manager ].

Lemma keeps_lift {A} (x : result A) : keeps R (lift x).
Proof. destruct x; keeps_leaf. Qed.

Lemma keeps_at_index {A} (v : list A) i : keeps R (at_index v i).
Proof. unfold at_index. destruct (v !! i); keeps_leaf. Qed.

Lemma keeps_check (c : bool) (m : M unit) :
  keeps R m -> keeps R (if c then m else ret tt).
Proof. intros Hm. destruct c; [exact Hm | keeps_leaf]. Qed.

Lemma keeps_for_each {A} (l : list A) (body : A -> M unit) :
  (forall a, keeps R (body a)) -> keeps R (for_each l body).
Proof.
  intros Hbody. induction l as [|a l IH]; cbn [for_each].
  - keeps_leaf.
  - apply keeps_bind; [apply Hbody | intros _; exact IH].
Qed.

Lemma keeps_fatal m : keeps R (log FATAL m ;; @return_ unit ERROR).
Proof. apply keeps_bind; [keeps_leaf | intros _; keeps_leaf]. Qed.

Lemma keeps_validate_joint joint : keeps R (validate_joint joint).
Proof.
  unfold validate_joint.
  apply keeps_bind; [apply keeps_check, keeps_fatal|]. intros _.
  apply keeps_bind; [apply keeps_at_index|]. intros c0.
  apply keeps_bind; [apply keeps_check, keeps_fatal|]. intros _.
  apply keeps_bind; [apply keeps_at_index|]. intros c1.
  apply keeps_bind; [apply keeps_check, keeps_fatal|]. intros _.
  apply keeps_bind; [apply keeps_check, keeps_fatal|]. intros _.
  apply keeps_bind; [apply keeps_at_index|]. intros s0.
  apply keeps_bind; [apply keeps_check, keeps_fatal|]. intros _.
  apply keeps_bind; [apply keeps_at_index|]. intros s1.
  apply keeps_check, keeps_fatal.
Qed.

Lemma keeps_add_joint mug joint cis : keeps R (add_joint mug joint cis).
Proof.
  induction cis as [|c cis IH]; cbn [add_joint]; [keeps_leaf|].
  destruct (String.eqb (InterfaceInfo.name c) HW_IF_POSITION); [|exact IH].
  apply keeps_bind; [apply keeps_lift|]. intros lo.
  apply keeps_bind; [apply keeps_lift|]. intros hi.
  apply keeps_bind; [keeps_leaf | intros _; keeps_leaf].
Qed.

Lemma keeps_description_from_RWS : keeps R description_from_RWS.
Proof.
  unfold description_from_RWS.
  apply keeps_bind; [keeps_leaf|]. intros _.
  apply keeps_bind; [apply R_subscript|]. intros ps.
  apply keeps_bind; [apply keeps_lift|]. intros port.
  apply keeps_bind; [apply R_subscript|]. intros ip.
  apply keeps_bind.
  { destruct (String.eqb ip "None"); [|keeps_leaf].
    apply keeps_bind; [keeps_leaf | intros _; keeps_leaf]. }
  intros _.
  apply keeps_bind; [keeps_leaf|]. intros _.
  apply keeps_bind; [apply keeps_lift|]. intros d.
  keeps_leaf.
Qed.

Lemma keeps_description_from_HardwareInfo : keeps R description_from_HardwareInfo.
Proof.
  unfold description_from_HardwareInfo.
  apply keeps_bind; [keeps_leaf|]. intros _.
  apply keeps_bind; [keeps_leaf|]. intros _.
  apply keeps_bind; [keeps_leaf|]. intros _.
  apply keeps_bind; [keeps_leaf|]. intros mug.
  apply keeps_bind; [keeps_leaf|]. intros _.
  apply keeps_bind; [keeps_leaf|]. intros _.
  apply keeps_bind; [keeps_leaf|]. intros joints.
  apply keeps_bind; [keeps_leaf|]. intros _.
  apply keeps_bind; [keeps_leaf|]. intros _.
  apply keeps_for_each. intros joint. apply keeps_add_joint.
Qed.

Lemma keeps_build_description : keeps R build_description.
Proof.
  unfold build_description.
  apply keeps_bind; [keeps_leaf|]. intros [|].
  - apply keeps_description_from_RWS.
  - apply keeps_description_from_HardwareInfo.
Qed.

Lemma keeps_initialize_motion_data : keeps R initialize_motion_data.
Proof.
  unfold initialize_motion_data.
  apply keeps_bind; [keeps_leaf|]. intros _.
  apply keeps_bind; [keeps_leaf|]. intros md.
  apply keeps_bind; [keeps_leaf|]. intros d.
  destruct (initializeMotionData md d); [keeps_leaf|].
  apply keeps_bind; [keeps_leaf | intros _; keeps_leaf].
Qed.

Lemma keeps_channel_configurations_loop groups : forall acc,
  keeps R (channel_configurations_loop groups acc).
Proof.
  induction groups as [|group rest IH]; intros acc; cbn [channel_configurations_loop].
  - keeps_leaf.
  - apply keeps_bind; [apply R_subscript|]. intros v.
    destruct (stoi v) as [port|[]].
    + apply keeps_bind; [keeps_leaf | intros _; apply IH].
    + apply keeps_bind; [keeps_leaf | intros _; keeps_leaf].
    + keeps_leaf.
    + keeps_leaf.
    + keeps_leaf.
Qed.

Lemma keeps_make_egm_manager cfgs : keeps R (make_egm_manager cfgs).
Proof.
  unfold make_egm_manager.
  apply keeps_bind; [keeps_leaf|]. intros _.
  destruct (EGMManager_constructor cfgs) as [[]|].
  - keeps_leaf.
  - keeps_leaf.
  - apply keeps_bind; [keeps_leaf | intros _; keeps_leaf].
  - keeps_leaf.
  - keeps_leaf.
Qed.

Lemma keeps_configure_egm : keeps R configure_egm.
Proof.
  unfold configure_egm.
  apply keeps_bind; [keeps_leaf|]. intros d.
  apply keeps_bind; [keeps_leaf|]. intros _.
  apply keeps_bind; [keeps_leaf|]. intros _.
  apply keeps_bind; [apply keeps_initialize_motion_data|]. intros _.
  apply keeps_bind; [keeps_leaf|]. intros d'.
  apply keeps_bind; [apply keeps_channel_configurations_loop|]. intros cfgs.
  apply keeps_bind; [apply keeps_make_egm_manager|]. intros _.
  keeps_leaf.
Qed.

(** [on_init] once [info] is stored: everything after the first statement. *)
Lemma keeps_on_init info s r s' t :
  on_init info s = (r, s', t) -> R (ABBSystemHardware.set_info info s) s'.
Proof.
  unfold on_init, call, on_init_body. unfold bind at 1. cbn [modify].
  match goal with
  | |- context [bind ?m ?k ?st] =>
      assert (Hk : keeps R (bind m k)); [|destruct (bind m k st) as [[x s2] t2] eqn:Hrun]
  end.
  { apply keeps_bind; [apply keeps_check; keeps_leaf|]. intros _.
    apply keeps_bind; [keeps_leaf|]. intros joints.
    apply keeps_bind; [apply keeps_for_each, keeps_validate_joint|]. intros _.
    apply keeps_bind; [apply keeps_build_description|]. intros _.
    apply keeps_configure_egm. }
  specialize (Hk _ _ _ _ Hrun).
  destruct x; intros [= <- <- <-]; exact Hk.
Qed.

End Keeps.

(** ** How the statements of [on_init] end *)

Section Ends.
Context `{Externals}.

Lemma ends_bind {A B} (Q : A -> Prop) (P : B -> Prop) (m : M A) (k : A -> M B) :
  ends_with Q m -> (forall a, ends_with P (k a)) -> ends_with P (bind m k).
Proof.
  intros Hm Hk s x s' t. unfold bind.
  destruct (m s) as [[y s1] t1] eqn:Em. destruct (Hm _ _ _ _ Em) as [Hy _].
  destruct y; cbn [tame] in Hy; try contradiction.
  - destruct (k a s1) as [[z s2] t2] eqn:Ek. intros [= <- <- <-].
    exact (Hk _ _ _ _ _ Ek).
  - intros [= <- <- <-]. split; [exact Hy | discriminate].
  - intros [= <- <- <-]. split; [exact I | discriminate].
Qed.

Lemma ends_weaken {A} (P Q : A -> Prop) (m : M A) :
  (forall a, P a -> Q a) -> ends_with P m -> ends_with Q m.
Proof.
  intros HPQ Hm s x s' t Hrun. destruct (Hm _ _ _ _ Hrun) as [Ht Hp].
  split; [exact Ht | intros a Ha; apply HPQ, Hp, Ha].
Qed.

(** A statement that falls through, returns ERROR or throws, at once. *)
Ltac ends_leaf :=
  let E := fresh "E" in
  intros ? ? ? ? E;
  cbv [ret gets log emit return_ raise modify modify_group modify_description
       add_mechanical_units_groups hardware_parameters_subscript] in E;
  try (destruct (subscript _ _));
  injection E as <- <- <-;
  split; [exact I || reflexivity | try discriminate; intros ? _; exact I].

Lemma ends_ret {A} (P : A -> Prop) a : P a -> ends_with P (ret a).
Proof.
  intros Ha s x s' t [= <- <- <-]. split; [exact I|]. intros a' [= <-]. exact Ha.
Qed.

Lemma ends_lift {A} (x : result A) : ends_with (fun _ => True) (lift x).
Proof. destruct x; ends_leaf. Qed.

Lemma ends_fatal m : ends_with (fun _ => True) (log FATAL m ;; @return_ unit ERROR).
Proof. eapply ends_bind; [|intros _]; ends_leaf. Qed.

Lemma ends_for_each {A} (l : list A) (body : A -> M unit) :
  (forall a, ends_with (fun _ => True) (body a)) ->
  ends_with (fun _ => True) (for_each l body).
Proof.
  intros Hbody. induction l as [|a l IH]; cbn [for_each].
  - ends_leaf.
  - eapply ends_bind; [apply Hbody | intros _; exact IH].
Qed.

(** The size checks of the validation keep its four index accesses in
    range. *)
Lemma ends_validate_joint joint : ends_with (fun _ => True) (validate_joint joint).
Proof.
  intros s x s' t Hrun.
  destruct (interface_contract_decided joint) as [Hok | Hbad].
  - rewrite (validate_joint_ok joint s Hok) in Hrun. injection Hrun as <- <- <-.
    split; [exact I | auto].
  - destruct (validate_joint_bad joint s Hbad) as (m & Hm & _).
    rewrite Hm in Hrun. injection Hrun as <- <- <-.
    split; [reflexivity | discriminate].
Qed.

Lemma ends_add_joint mug joint cis :
  ends_with (fun _ => True) (add_joint mug joint cis).
Proof.
  induction cis as [|c cis IH]; cbn [add_joint]; [ends_leaf|].
  destruct (String.eqb (InterfaceInfo.name c) HW_IF_POSITION); [|exact IH].
  eapply ends_bind; [apply ends_lift|]. intros lo.
  eapply ends_bind; [apply ends_lift|]. intros hi.
  eapply ends_bind; [|intros _]; ends_leaf.
Qed.

Lemma ends_build_description : ends_with (fun _ => True) build_description.
Proof.
  unfold build_description.
  eapply ends_bind; [ends_leaf|]. intros [|].
  - unfold description_from_RWS.
    eapply ends_bind; [ends_leaf|]. intros _.
    eapply ends_bind; [ends_leaf|]. intros ps.
    eapply ends_bind; [apply ends_lift|]. intros port.
    eapply ends_bind; [ends_leaf|]. intros ip.
    eapply ends_bind.
    { destruct (String.eqb ip "None"); [apply ends_fatal | ends_leaf]. }
    intros _.
    eapply ends_bind; [ends_leaf|]. intros _.
    eapply ends_bind; [apply ends_lift|]. intros d.
    ends_leaf.
  - unfold description_from_HardwareInfo.
    eapply ends_bind; [ends_leaf|]. intros _.
    eapply ends_bind; [ends_leaf|]. intros _.
    eapply ends_bind; [ends_leaf|]. intros _.
    eapply ends_bind; [ends_leaf|]. intros mug.
    eapply ends_bind; [ends_leaf|]. intros _.
    eapply ends_bind; [ends_leaf|]. intros _.
    eapply ends_bind; [ends_leaf|]. intros joints.
    eapply ends_bind; [ends_leaf|]. intros _.
    eapply ends_bind; [ends_leaf|]. intros _.
    apply ends_for_each. intros joint. apply ends_add_joint.
Qed.

Lemma ends_initialize_motion_data : ends_with (fun _ => True) initialize_motion_data.
Proof.
  unfold initialize_motion_data.
  eapply ends_bind; [ends_leaf|]. intros _.
  eapply ends_bind; [ends_leaf|]. intros md.
  eapply ends_bind; [ends_leaf|]. intros d.
  destruct (initializeMotionData md d); [ends_leaf|].
  eapply ends_bind; [|intros _]; ends_leaf.
Qed.

Lemma ends_channel_configurations_loop groups : forall acc,
  ends_with (fun _ => True) (channel_configurations_loop groups acc).
Proof.
  induction groups as [|group rest IH]; intros acc; cbn [channel_configurations_loop].
  - ends_leaf.
  - eapply ends_bind; [ends_leaf|]. intros v.
    destruct (stoi v) as [port|[]].
    + eapply ends_bind; [ends_leaf | intros _; apply IH].
    + eapply ends_bind; [|intros _]; ends_leaf.
    + ends_leaf.
    + ends_leaf.
    + ends_leaf.
Qed.

Lemma ends_make_egm_manager cfgs : ends_with (fun _ => True) (make_egm_manager cfgs).
Proof.
  unfold make_egm_manager.
  eapply ends_bind; [ends_leaf|]. intros _.
  destruct (EGMManager_constructor cfgs) as [[]|].
  - ends_leaf.
  - ends_leaf.
  - eapply ends_bind; [|intros _]; ends_leaf.
  - ends_leaf.
  - ends_leaf.
Qed.

Lemma ends_configure_egm : ends_with (fun r => r = SUCCESS) configure_egm.
Proof.
  unfold configure_egm.
  eapply ends_bind; [ends_leaf|]. intros d.
  eapply ends_bind; [ends_leaf|]. intros _.
  eapply ends_bind; [ends_leaf|]. intros _.
  eapply ends_bind; [apply ends_initialize_motion_data|]. intros _.
  eapply ends_bind; [ends_leaf|]. intros d'.
  eapply ends_bind; [apply ends_channel_configurations_loop|]. intros cfgs.
  eapply ends_bind; [apply ends_make_egm_manager|]. intros _.
  apply ends_ret. reflexivity.
Qed.

Lemma ends_on_init_body info : ends_with (fun r => r = SUCCESS) (on_init_body info).
Proof.
  unfold on_init_body.
  eapply ends_bind; [ends_leaf|]. intros _.
  eapply ends_bind.
  { destruct (negb _); ends_leaf. }
  intros _.
  eapply ends_bind; [ends_leaf|]. intros joints.
  eapply ends_bind; [apply ends_for_each, ends_validate_joint|]. intros _.
  eapply ends_bind; [apply ends_build_description|]. intros _.
  apply ends_configure_egm.
Qed.

End Ends.

(** ** [on_init] as a whole *)

Section WholeInit.
Context `{Externals}.

Lemma grown_refl m : grown m m.
Proof. intros k. left. reflexivity. Qed.

Lemma grown_trans m1 m2 m3 : grown m1 m2 -> grown m2 m3 -> grown m1 m3.
Proof.
  intros H12 H23 k. destruct (H12 k) as [E12 | [N1 E2]], (H23 k) as [E23 | [N2 E3]].
  - left. congruence.
  - right. split; congruence.
  - right. split; congruence.
  - congruence.
Qed.

Lemma grown_subscript m key : grown m (snd (subscript m key)).
Proof.
  unfold subscript. destruct (m !! key) as [v|] eqn:Hk; cbn [snd]; [apply grown_refl|].
  intros k. destruct (decide (key = k)) as [<- | Hne].
  - right. rewrite lookup_insert_eq. auto.
  - left. rewrite lookup_insert_ne by exact Hne. reflexivity.
Qed.

Lemma same_info_subscript key : keeps same_info (hardware_parameters_subscript key).
Proof.
  intros s x s' t. unfold hardware_parameters_subscript.
  pose proof (grown_subscript
                (HardwareInfo.hardware_parameters (ABBSystemHardware.info_ s)) key) as Hg.
  destruct (subscript _ key) as [v m]. cbn [snd] in Hg.
  intros [= <- <- <-]. split; [reflexivity | exact Hg].
Qed.

Lemma same_runtime_subscript key : keeps same_runtime (hardware_parameters_subscript key).
Proof.
  intros s x s' t. unfold hardware_parameters_subscript.
  destruct (subscript _ key) as [v m]. intros [= <- <- <-]. split; reflexivity.
Qed.

Lemma same_info_trans a b c : same_info a b -> same_info b c -> same_info a c.
Proof.
  intros [J1 G1] [J2 G2]. split; [congruence | eapply grown_trans; eassumption].
Qed.

Lemma same_runtime_trans a b c : same_runtime a b -> same_runtime b c -> same_runtime a c.
Proof. intros [M1 E1] [M2 E2]. split; congruence. Qed.

(** What the parameters read as does not change when they grow. *)
Lemma grown_reads m m' k : grown m m' -> parameter m' k = parameter m k.
Proof.
  intros Hg. unfold parameter. destruct (Hg k) as [-> | [-> ->]]; reflexivity.
Qed.

Lemma configure_egm_motion_data_fails s1 e :
  initializeMotionData (ABBSystemHardware.motion_data_ s1)
    (ABBSystemHardware.robot_controller_description_ s1) = Throw e ->
  configure_egm s1
  = (Return ERROR, s1,
     [ Log INFO (Msg_description_summary (ABBSystemHardware.robot_controller_description_ s1));
       Log INFO Msg_configuring_EGM; Call_initializeMotionData;
       Log ERROR_LOG Msg_motion_data_failed ]).
Proof.
  intros Hmd. unfold configure_egm.
  unfold bind at 1. cbn [gets]. unfold bind at 1. cbn [log emit].
  unfold bind at 1. cbn [log emit]. unfold bind at 1.
  unfold initialize_motion_data at 1. unfold bind at 1. cbn [emit].
  unfold bind at 1. cbn [gets]. unfold bind at 1. cbn [gets]. rewrite Hmd.
  unfold bind at 1. cbn [log emit return_]. reflexivity.
Qed.

Lemma channel_configurations_loop_next groups : forall acc s cfgs s' t,
  channel_configurations_loop groups acc s = (Next cfgs, s', t) ->
  exists new,
    cfgs = acc ++ new
    /\ Forall2 (configured (HardwareInfo.hardware_parameters (ABBSystemHardware.info_ s)))
         groups new
    /\ same_parameters s s' /\ same_members s s'.
Proof.
  induction groups as [|group rest IH]; intros acc s cfgs s' t.
  - cbn [channel_configurations_loop ret]. intros [= <- <- <-].
    exists []. rewrite app_nil_r. repeat split; constructor || apply same_parameters_refl.
  - cbn [channel_configurations_loop].
    destruct (hardware_parameters_subscript_spec
                (MechanicalUnitGroup.name group +:+ "egm_port") s) as (s1 & Hs1 & Hsame & Hmem).
    rewrite (bind_next _ _ _ _ _ _ Hs1).
    destruct (stoi _) as [port|e] eqn:Hport.
    + unfold bind at 1. cbn [log emit].
      destruct (channel_configurations_loop rest _ s1) as [[y s2] t2] eqn:Hrest.
      intros [= -> <- <-].
      destruct (IH _ _ _ _ _ Hrest) as (new & -> & Hall & Hsame' & Hmem').
      eexists (_ :: new). split; [rewrite <- app_assoc; reflexivity|].
      split; [|split].
      * constructor.
        -- split; [reflexivity|]. exists port. split; [exact Hport | reflexivity].
        -- eapply Forall2_impl; [exact Hall|]. intros g c. apply configured_same, Hsame.
      * eapply same_parameters_trans; eassumption.
      * eapply same_members_trans; eassumption.
    + destruct e; [unfold bind, log, emit, return_ | | |]; cbn; intros Hx; discriminate Hx.
Qed.

Lemma contract_all_or_not joints :
  Forall interface_contract joints
  \/ exists joint, In joint joints /\ ~ interface_contract joint.
Proof.
  induction joints as [|joint joints [IH | (bad & Hin & Hbad)]].
  - left. constructor.
  - destruct (interface_contract_decided joint) as [Hok | Hno].
    + left. constructor; assumption.
    + right. exists joint. split; [left; reflexivity | exact Hno].
  - right. exists bad. split; [right; exact Hin | exact Hbad].
Qed.

Lemma on_init_bad_joint info s :
  SystemInterface_on_init info = SUCCESS ->
  (exists joint, In joint (HardwareInfo.joints info) /\ ~ interface_contract joint) ->
  exists m, on_init info s
            = (Returned ERROR, ABBSystemHardware.set_info info s, [Log FATAL m]).
Proof.
  intros Hbase Hex.
  destruct (first_violation _ Hex) as (good & bad & rest & Hj & Hgood & Hbad).
  destruct (validate_first_bad good bad rest (ABBSystemHardware.set_info info s) Hgood Hbad)
    as (m & Hm & _).
  exists m. unfold on_init, call, on_init_body. rewrite Hbase.
  unfold bind at 1. cbn [modify]. unfold bind at 1. cbn.
  unfold bind at 1. cbn [gets]. unfold bind at 1.
  cbn [ABBSystemHardware.info_ ABBSystemHardware.set_info].
  rewrite Hj, Hm. reflexivity.
Qed.

Lemma on_init_base_refuses info s :
  SystemInterface_on_init info <> SUCCESS ->
  on_init info s = (Returned ERROR, ABBSystemHardware.set_info info s, []).
Proof.
  intros Hbase. unfold on_init, call, on_init_body.
  destruct (SystemInterface_on_init info); [contradiction | reflexivity | reflexivity].
Qed.

(** What a successful [on_init] has done. *)
Lemma on_init_success_inversion info s s' t :
  on_init info s = (Returned SUCCESS, s', t) ->
  SystemInterface_on_init info = SUCCESS
  /\ Forall interface_contract (HardwareInfo.joints info)
  /\ exists cfgs,
       ABBSystemHardware.egm_manager_ s'
       = Some {| EGMManager.channel_configurations := cfgs |}
       /\ EGMManager_constructor cfgs = None
       /\ Forall2 (configured (HardwareInfo.hardware_parameters info))
            (RobotControllerDescription.mechanical_units_groups
               (ABBSystemHardware.robot_controller_description_ s')) cfgs
       /\ initializeMotionData (ABBSystemHardware.motion_data_ s)
            (ABBSystemHardware.robot_controller_description_ s')
          = Ok (ABBSystemHardware.motion_data_ s').
Proof.
  intros Hrun.
  assert (Hbase : SystemInterface_on_init info = SUCCESS).
  { destruct (SystemInterface_on_init info) eqn:Hb; [reflexivity | |];
      rewrite on_init_base_refuses in Hrun by (rewrite Hb; discriminate);
      discriminate Hrun. }
  assert (Hok : Forall interface_contract (HardwareInfo.joints info)).
  { destruct (contract_all_or_not (HardwareInfo.joints info)) as [Hall | Hex];
      [exact Hall|].
    exfalso. destruct (on_init_bad_joint info s Hbase Hex) as (m & Hrej).
    rewrite Hrej in Hrun. discriminate Hrun. }
  split; [exact Hbase|]. split; [exact Hok|].
  unfold on_init, call in Hrun.
  rewrite (on_init_body_validated info s Hbase Hok) in Hrun.
  destruct (build_description (ABBSystemHardware.set_info info s)) as [[x s1] t1] eqn:Hbuild.
  destruct (ends_build_description _ _ _ _ Hbuild) as [Hx _].
  pose proof (keeps_parameters_build_description _ _ _ _ Hbuild) as Hpar.
  assert (Hrt : same_runtime (ABBSystemHardware.set_info info s) s1).
  { refine (keeps_build_description same_runtime _ _ same_runtime_subscript _ _ _ _ _ Hbuild).
    - intros ?. split; reflexivity.
    - apply same_runtime_trans.
    - intros ? ?. split; reflexivity. }
  destruct x; cbn [tame] in Hx; try contradiction;
    [|unfold bind in Hrun; rewrite Hbuild in Hrun; subst; discriminate Hrun
     |unfold bind in Hrun; rewrite Hbuild in Hrun; discriminate Hrun].
  rewrite (bind_next _ _ _ _ _ _ Hbuild) in Hrun.
  destruct (initializeMotionData (ABBSystemHardware.motion_data_ s1)
              (ABBSystemHardware.robot_controller_description_ s1)) as [md|e] eqn:Hmd.
  2:{ rewrite (configure_egm_motion_data_fails s1 e Hmd) in Hrun. discriminate Hrun. }
  rewrite (configure_egm_runs s1 md Hmd) in Hrun.
  destruct (channel_configurations_loop
              (RobotControllerDescription.mechanical_units_groups
                 (ABBSystemHardware.robot_controller_description_ s1))
              [] (ABBSystemHardware.set_motion_data md s1))
    as [[y s2] t2] eqn:Hloop.
  destruct (ends_channel_configurations_loop _ _ _ _ _ _ Hloop) as [Hy _].
  destruct y as [cfgs| | | |]; cbn [tame] in Hy; try contradiction;
    [|unfold bind in Hrun; rewrite Hloop in Hrun; subst; discriminate Hrun
     |unfold bind in Hrun; rewrite Hloop in Hrun; discriminate Hrun].
  destruct (channel_configurations_loop_next _ _ _ _ _ _ Hloop)
    as (new & -> & Hall & _ & Hd & Hm & He).
  cbn [app] in *.
  rewrite (bind_next _ _ _ _ _ _ Hloop) in Hrun.
  unfold make_egm_manager, bind, emit, modify, log, return_, raise, ret in Hrun.
  destruct (EGMManager_constructor new) as [[]|] eqn:Hctor;
    try discriminate Hrun.
  injection Hrun as <- _. exists new.
  cbn [ABBSystemHardware.egm_manager_ ABBSystemHardware.set_egm_manager
       ABBSystemHardware.robot_controller_description_ ABBSystemHardware.motion_data_].
  cbn [ABBSystemHardware.robot_controller_description_ ABBSystemHardware.set_motion_data
       ABBSystemHardware.motion_data_] in Hd, Hm.
  split; [reflexivity|]. split; [exact Hctor|]. split.
  - rewrite Hd. eapply Forall2_impl; [exact Hall|]. intros g c.
    apply configured_same. intros k. apply Hpar.
  - rewrite Hd, Hm. destruct Hrt as [Hrt _].
    cbn [ABBSystemHardware.motion_data_ ABBSystemHardware.set_info] in Hrt.
    rewrite <- Hrt. exact Hmd.
Qed.

End WholeInit.

Section InitProperties.
Context `{Externals}.

(** X1. When [on_init] returns SUCCESS, the base class had accepted, every
    declared joint keeps the interface contract, the EGM manager is in
    place, constructed without exception from one configuration per group
    of the description the object now holds (each on its group's port
    parameter narrowed to sixteen bits), and the motion data is what
    [initializeMotionData] made of that description. *)
Theorem on_init_success_establishes info s s' t :
  on_init info s = (Returned SUCCESS, s', t) ->
  SystemInterface_on_init info = SUCCESS
  /\ Forall interface_contract (HardwareInfo.joints info)
  /\ exists cfgs,
       ABBSystemHardware.egm_manager_ s'
       = Some {| EGMManager.channel_configurations := cfgs |}
       /\ EGMManager_constructor cfgs = None
       /\ Forall2 (configured (HardwareInfo.hardware_parameters info))
            (RobotControllerDescription.mechanical_units_groups
               (ABBSystemHardware.robot_controller_description_ s')) cfgs
       /\ initializeMotionData (ABBSystemHardware.motion_data_ s)
            (ABBSystemHardware.robot_controller_description_ s')
          = Ok (ABBSystemHardware.motion_data_ s').
Proof. apply on_init_success_inversion. Qed.

(** X2. [on_init] ends in one of three ways only: it returns SUCCESS, it
    returns ERROR, or an exception leaves it.  It never returns FAILURE, and
    none of its vector accesses is out of range. *)
Theorem on_init_outcomes info s :
  match fst (fst (on_init info s)) with
  | Returned SUCCESS | Returned ERROR | Thrown _ => True
  | _ => False
  end.
Proof.
  unfold on_init, call.
  destruct (on_init_body info s) as [[x s'] t] eqn:Hrun.
  destruct (ends_on_init_body info _ _ _ _ Hrun) as [Hx Hr].
  destruct x as [r| r | e | |]; cbn [tame fst] in *; try contradiction.
  - rewrite (Hr r eq_refl). exact I.
  - rewrite Hx. exact I.
  - exact I.
Qed.

(** X3. [on_init] stores the given [info] and never edits it, except that
    reading a missing parameter adds its key with the empty string: the
    joints are as given, every parameter that was set keeps its value, and a
    key that was not set is still unset or holds the empty string. *)
Theorem on_init_parameters_only_grow info s :
  let info' := ABBSystemHardware.info_ (snd (fst (on_init info s))) in
  HardwareInfo.joints info' = HardwareInfo.joints info
  /\ (forall k v,
        HardwareInfo.hardware_parameters info !! k = Some v ->
        HardwareInfo.hardware_parameters info' !! k = Some v)
  /\ (forall k,
        HardwareInfo.hardware_parameters info !! k = None ->
        HardwareInfo.hardware_parameters info' !! k = None
        \/ HardwareInfo.hardware_parameters info' !! k = Some EmptyString).
Proof.
  destruct (on_init info s) as [[r s'] t] eqn:Hrun. cbn [fst snd].
  assert (Hsame : same_info (ABBSystemHardware.set_info info s) s').
  { refine (keeps_on_init same_info _ same_info_trans same_info_subscript _ _ _
              info s r s' t Hrun).
    - intros ?. split; [reflexivity | apply grown_refl].
    - intros ? ?. split; [reflexivity | apply grown_refl].
    - intros ? ?. split; [reflexivity | apply grown_refl].
    - intros ? ?. split; [reflexivity | apply grown_refl]. }
  destruct Hsame as [Hj Hg].
  cbn [ABBSystemHardware.info_ ABBSystemHardware.set_info] in Hj, Hg.
  split; [exact Hj|]. split.
  - intros k v Hk. destruct (Hg k) as [-> | [Hn _]]; congruence.
  - intros k Hk. destruct (Hg k) as [-> | [_ ->]]; auto.
Qed.

(** What asking the controller amounts to, case by case. *)
Lemma description_from_RWS_runs s :
  let m := HardwareInfo.hardware_parameters (ABBSystemHardware.info_ s) in
  exists s1,
    same_parameters s s1 /\ same_members s s1
    /\ match stoi (parameter m "rws_port") with
       | Throw e =>
           description_from_RWS s = (Raise e, s1, [Log INFO Msg_generating_from_RWS])
       | Ok port =>
           if String.eqb (parameter m "rws_ip") "None"
           then description_from_RWS s
                = (Return ERROR, s1,
                   [Log INFO Msg_generating_from_RWS; Log FATAL Msg_RWS_IP_not_specified])
           else
             let mgr :=
               {| RWSManager.ip_address := parameter m "rws_ip";
                  RWSManager.port_number := port;
                  RWSManager.username := "Default User";
                  RWSManager.password := "robotics" |} in
             match establishRWSConnection mgr "IRB1200" true with
             | Throw e =>
                 description_from_RWS s
                 = (Raise e, s1,
                    [Log INFO Msg_generating_from_RWS;
                     Call_establishRWSConnection mgr "IRB1200" true])
             | Ok d =>
                 description_from_RWS s
                 = (Next tt, ABBSystemHardware.set_description d s1,
                    [Log INFO Msg_generating_from_RWS;
                     Call_establishRWSConnection mgr "IRB1200" true])
             end
       end.
Proof.
  intros m. subst m.
  destruct (hardware_parameters_subscript_spec "rws_port" s) as (s1 & Hs1 & Hp1 & Hm1).
  destruct (hardware_parameters_subscript_spec "rws_ip" s1) as (s2 & Hs2 & Hp2 & Hm2).
  rewrite (Hp1 "rws_ip") in Hs2.
  destruct (stoi (parameter _ "rws_port")) as [port|e] eqn:Hport.
  - exists s2. split; [eapply same_parameters_trans; eassumption|].
    split; [eapply same_members_trans; eassumption|].
    assert (Hrun : description_from_RWS s
      = (let '(r, s', t) :=
           bind (if String.eqb (parameter (HardwareInfo.hardware_parameters
                                             (ABBSystemHardware.info_ s)) "rws_ip") "None"
                 then log FATAL Msg_RWS_IP_not_specified ;; return_ ERROR
                 else ret tt)
             (fun _ =>
                let mgr :=
                  {| RWSManager.ip_address :=
                       parameter (HardwareInfo.hardware_parameters
                                    (ABBSystemHardware.info_ s)) "rws_ip";
                     RWSManager.port_number := port;
                     RWSManager.username := "Default User";
                     RWSManager.password := "robotics" |} in
                emit (Call_establishRWSConnection mgr "IRB1200" true) ;;
                description <- lift (establishRWSConnection mgr "IRB1200" true) ;;
                modify (ABBSystemHardware.set_description description)) s2 in
         (r, s', Log INFO Msg_generating_from_RWS :: t))).
    { unfold description_from_RWS. unfold bind at 1. cbn [log emit].
      rewrite (bind_next _ _ _ _ _ _ Hs1), Hport.
      unfold bind at 1. cbn [lift ret].
      rewrite (bind_next _ _ _ _ _ _ Hs2).
      match goal with
      | |- context [bind ?a ?b s2] => destruct (bind a b s2) as [[r s'] t]
      end.
      reflexivity. }
    rewrite Hrun. clear Hrun.
    destruct (String.eqb _ "None"); [reflexivity|].
    unfold bind at 1. cbn [ret]. unfold bind at 1. cbn [emit].
    destruct (establishRWSConnection _ "IRB1200" true); reflexivity.
  - exists s1. split; [exact Hp1|]. split; [exact Hm1|].
    unfold description_from_RWS. unfold bind at 1. cbn [log emit].
    rewrite (bind_next _ _ _ _ _ _ Hs1), Hport. reflexivity.
Qed.

End InitProperties.

(** ** Which events a statement can leave *)

Section Emits.
Context `{Externals}.
Variable p : event -> bool.
Hypothesis p_log : forall sev m, p (Log sev m) = true.

(** A statement that logs at most, or makes one allowed call. *)
Ltac emits_leaf :=
  let E := fresh "E" in
  intros ? ? ? ? E;
  cbv [ret gets log emit return_ raise undefined out_of_fuel modify
       modify_group modify_description add_mechanical_units_groups
       hardware_parameters_subscript] in E;
  try (destruct (subscript _ _));
  injection E as <- <- <-;
  repeat (constructor; [solve [auto] |]); constructor.

Lemma emits_lift {A} (x : result A) : only_emits p (lift x).
Proof. destruct x; emits_leaf. Qed.

Lemma emits_fatal m : only_emits p (log FATAL m ;; @return_ unit ERROR).
Proof. apply only_emits_bind; [|intros _]; emits_leaf. Qed.

Lemma emits_validate_joint joint : only_emits p (validate_joint joint).
Proof.
  intros s x s' t Hrun.
  destruct (interface_contract_decided joint) as [Hok | Hbad].
  - rewrite (validate_joint_ok joint s Hok) in Hrun. injection Hrun as <- <- <-.
    constructor.
  - destruct (validate_joint_bad joint s Hbad) as (m & Hm & _).
    rewrite Hm in Hrun. injection Hrun as <- <- <-.
    constructor; [apply p_log | constructor].
Qed.

Lemma emits_add_joint mug joint cis : only_emits p (add_joint mug joint cis).
Proof.
  induction cis as [|c cis IH]; cbn [add_joint]; [emits_leaf|].
  destruct (String.eqb (InterfaceInfo.name c) HW_IF_POSITION); [|exact IH].
  apply only_emits_bind; [apply emits_lift|]. intros lo.
  apply only_emits_bind; [apply emits_lift|]. intros hi.
  apply only_emits_bind; [emits_leaf | intros _; emits_leaf].
Qed.

Lemma emits_description_from_HardwareInfo : only_emits p description_from_HardwareInfo.
Proof.
  unfold description_from_HardwareInfo.
  apply only_emits_bind; [emits_leaf|]. intros _.
  apply only_emits_bind; [emits_leaf|]. intros _.
  apply only_emits_bind; [emits_leaf|]. intros _.
  apply only_emits_bind; [emits_leaf|]. intros mug.
  apply only_emits_bind; [emits_leaf|]. intros _.
  apply only_emits_bind; [emits_leaf|]. intros _.
  apply only_emits_bind; [emits_leaf|]. intros joints.
  apply only_emits_bind; [emits_leaf|]. intros _.
  apply only_emits_bind; [emits_leaf|]. intros _.
  apply only_emits_for_each. intros joint. apply emits_add_joint.
Qed.

Lemma emits_description_from_RWS :
  (forall mgr unit_name flag, p (Call_establishRWSConnection mgr unit_name flag) = true) ->
  only_emits p description_from_RWS.
Proof.
  intros p_rws. unfold description_from_RWS.
  apply only_emits_bind; [emits_leaf|]. intros _.
  apply only_emits_bind; [emits_leaf|]. intros ps.
  apply only_emits_bind; [apply emits_lift|]. intros port.
  apply only_emits_bind; [emits_leaf|]. intros ip.
  apply only_emits_bind.
  { destruct (String.eqb ip "None"); [apply emits_fatal | emits_leaf]. }
  intros _.
  apply only_emits_bind; [emits_leaf|]. intros _.
  apply only_emits_bind; [apply emits_lift|]. intros d.
  emits_leaf.
Qed.

Lemma emits_channel_configurations_loop groups : forall acc,
  only_emits p (channel_configurations_loop groups acc).
Proof.
  induction groups as [|group rest IH]; intros acc; cbn [channel_configurations_loop].
  - emits_leaf.
  - apply only_emits_bind; [emits_leaf|]. intros v.
    destruct (stoi v) as [port|[]].
    + apply only_emits_bind; [emits_leaf | intros _; apply IH].
    + apply only_emits_bind; [|intros _]; emits_leaf.
    + emits_leaf.
    + emits_leaf.
    + emits_leaf.
Qed.

Lemma emits_configure_egm :
  p Call_initializeMotionData = true ->
  (forall cfgs, p (Call_EGMManager cfgs) = true) ->
  only_emits p configure_egm.
Proof.
  intros p_init p_egm. unfold configure_egm.
  apply only_emits_bind; [emits_leaf|]. intros d.
  apply only_emits_bind; [emits_leaf|]. intros _.
  apply only_emits_bind; [emits_leaf|]. intros _.
  apply only_emits_bind.
  { unfold initialize_motion_data.
    apply only_emits_bind; [emits_leaf|]. intros _.
    apply only_emits_bind; [emits_leaf|]. intros md.
    apply only_emits_bind; [emits_leaf|]. intros d0.
    destruct (initializeMotionData md d0); [emits_leaf|].
    apply only_emits_bind; [|intros _]; emits_leaf. }
  intros _.
  apply only_emits_bind; [emits_leaf|]. intros d'.
  apply only_emits_bind; [apply emits_channel_configurations_loop|]. intros cfgs.
  apply only_emits_bind.
  { unfold make_egm_manager.
    apply only_emits_bind; [emits_leaf|]. intros _.
    destruct (EGMManager_constructor cfgs) as [[]|].
    - emits_leaf.
    - emits_leaf.
    - apply only_emits_bind; [|intros _]; emits_leaf.
    - emits_leaf.
    - emits_leaf. }
  intros _. emits_leaf.
Qed.

End Emits.

Lemma filter_none {A} (f : A -> bool) (l : list A) :
  Forall (fun a => negb (f a) = true) l -> List.filter f l = [].
Proof.
  induction 1 as [|a l Ha _ IH]; [reflexivity|].
  cbn [List.filter]. destruct (f a); [discriminate Ha | exact IH].
Qed.

Section InitStages.
Context `{Externals}.

Lemma build_description_query s :
  configure_via_rws (HardwareInfo.hardware_parameters (ABBSystemHardware.info_ s)) = true ->
  build_description s = description_from_RWS s.
Proof.
  intros Hflag. unfold build_description, bind, gets. rewrite Hflag.
  destruct (description_from_RWS s) as [[r s2] t2]. reflexivity.
Qed.

Lemma build_description_synthesis s :
  configure_via_rws (HardwareInfo.hardware_parameters (ABBSystemHardware.info_ s)) = false ->
  build_description s = description_from_HardwareInfo s.
Proof.
  intros Hflag. unfold build_description, bind, gets. rewrite Hflag.
  destruct (description_from_HardwareInfo s) as [[r s2] t2]. reflexivity.
Qed.

(** X4. In query mode, with a port that reads as an integer and an address
    other than the literal None, [on_init] connects exactly once, to the
    address and port of the parameters with the user Default User, the
    password robotics and the unit IRB1200; when the connection succeeds the
    object keeps, whatever happens next, the description exactly as the
    controller reported it. *)
Theorem on_init_query_description_verbatim info s port d :
  let m := HardwareInfo.hardware_parameters info in
  let mgr :=
    {| RWSManager.ip_address := parameter m "rws_ip";
       RWSManager.port_number := port;
       RWSManager.username := "Default User";
       RWSManager.password := "robotics" |} in
  SystemInterface_on_init info = SUCCESS ->
  Forall interface_contract (HardwareInfo.joints info) ->
  configure_via_rws m = true ->
  stoi (parameter m "rws_port") = Ok port ->
  parameter m "rws_ip" <> "None" ->
  establishRWSConnection mgr "IRB1200" true = Ok d ->
  ABBSystemHardware.robot_controller_description_ (snd (fst (on_init info s))) = d
  /\ List.filter is_rws_connection (snd (on_init info s))
     = [Call_establishRWSConnection mgr "IRB1200" true].
Proof.
  intros m mgr Hbase Hok Hflag Hport Hip Hrws.
  unfold on_init, call. rewrite (on_init_body_validated info s Hbase Hok).
  assert (Hbuild : exists s1,
    build_description (ABBSystemHardware.set_info info s)
    = (Next tt, ABBSystemHardware.set_description d s1,
       [Log INFO Msg_generating_from_RWS; Call_establishRWSConnection mgr "IRB1200" true])).
  { rewrite build_description_query by exact Hflag.
    destruct (description_from_RWS_runs (ABBSystemHardware.set_info info s))
      as (s1 & _ & _ & Hrun).
    cbn [ABBSystemHardware.info_ ABBSystemHardware.set_info] in Hrun.
    fold m in Hrun. rewrite Hport in Hrun.
    apply String.eqb_neq in Hip. rewrite Hip in Hrun. cbv zeta in Hrun.
    fold mgr in Hrun. rewrite Hrws in Hrun. exists s1. exact Hrun. }
  destruct Hbuild as (s1 & Hbuild).
  rewrite (bind_next _ _ _ _ _ _ Hbuild).
  destruct (configure_egm (ABBSystemHardware.set_description d s1)) as [[x s2] t2] eqn:Hegm.
  pose proof (keeps_description_configure_egm _ _ _ _ Hegm) as Hkeep.
  assert (Hnone : List.filter is_rws_connection t2 = []).
  { apply filter_none.
    refine (emits_configure_egm (fun e => negb (is_rws_connection e)) _ _ _ _ _ _ _ Hegm);
      reflexivity. }
  split.
  - destruct x; cbn [fst snd]; exact Hkeep.
  - destruct x; cbn [fst snd app List.filter is_rws_connection]; rewrite Hnone; reflexivity.
Qed.

(** X5. In query mode, an exception of the RWS connection is not caught:
    it leaves [on_init], after the one log line and the one call, with the
    description, the motion data and the EGM manager as they were. *)
Theorem on_init_query_connection_exception info s port e :
  let m := HardwareInfo.hardware_parameters info in
  let mgr :=
    {| RWSManager.ip_address := parameter m "rws_ip";
       RWSManager.port_number := port;
       RWSManager.username := "Default User";
       RWSManager.password := "robotics" |} in
  SystemInterface_on_init info = SUCCESS ->
  Forall interface_contract (HardwareInfo.joints info) ->
  configure_via_rws m = true ->
  stoi (parameter m "rws_port") = Ok port ->
  parameter m "rws_ip" <> "None" ->
  establishRWSConnection mgr "IRB1200" true = Throw e ->
  exists s',
    on_init info s
    = (Thrown e, s',
       [Log INFO Msg_generating_from_RWS; Call_establishRWSConnection mgr "IRB1200" true])
    /\ same_members s s'.
Proof.
  intros m mgr Hbase Hok Hflag Hport Hip Hrws.
  unfold on_init, call. rewrite (on_init_body_validated info s Hbase Hok).
  destruct (description_from_RWS_runs (ABBSystemHardware.set_info info s))
    as (s1 & _ & Hmem & Hrun).
  cbn [ABBSystemHardware.info_ ABBSystemHardware.set_info] in Hrun.
  fold m in Hrun. rewrite Hport in Hrun.
  apply String.eqb_neq in Hip. rewrite Hip in Hrun. cbv zeta in Hrun.
  fold mgr in Hrun. rewrite Hrws in Hrun.
  rewrite <- build_description_query in Hrun by exact Hflag.
  rewrite (bind_raise _ _ _ _ _ _ Hrun). exists s1. split; [reflexivity | exact Hmem].
Qed.

(** X6. In query mode, a port parameter that [std::stoi] rejects (missing,
    no number, or too large) ends [on_init] by that exception, before the
    address is looked at and before any call. *)
Theorem on_init_query_port_exception info s e :
  let m := HardwareInfo.hardware_parameters info in
  SystemInterface_on_init info = SUCCESS ->
  Forall interface_contract (HardwareInfo.joints info) ->
  configure_via_rws m = true ->
  stoi (parameter m "rws_port") = Throw e ->
  exists s',
    on_init info s = (Thrown e, s', [Log INFO Msg_generating_from_RWS])
    /\ same_members s s'.
Proof.
  intros m Hbase Hok Hflag Hport.
  unfold on_init, call. rewrite (on_init_body_validated info s Hbase Hok).
  destruct (description_from_RWS_runs (ABBSystemHardware.set_info info s))
    as (s1 & _ & Hmem & Hrun).
  cbn [ABBSystemHardware.info_ ABBSystemHardware.set_info] in Hrun.
  fold m in Hrun. rewrite Hport in Hrun.
  rewrite <- build_description_query in Hrun by exact Hflag.
  rewrite (bind_raise _ _ _ _ _ _ Hrun). exists s1. split; [reflexivity | exact Hmem].
Qed.

(** X7. Whatever [initializeMotionData] throws is caught: [on_init] logs
    the failure and returns ERROR, having constructed no EGM manager (the
    manager is the one the object had); the description just built stays in
    the object.  The motion data, which the failed call had by reference, is
    left out of the statement. *)
Theorem on_init_motion_data_failure info s s1 t1 e :
  SystemInterface_on_init info = SUCCESS ->
  Forall interface_contract (HardwareInfo.joints info) ->
  build_description (ABBSystemHardware.set_info info s) = (Next tt, s1, t1) ->
  initializeMotionData (ABBSystemHardware.motion_data_ s1)
    (ABBSystemHardware.robot_controller_description_ s1) = Throw e ->
  fst (fst (on_init info s)) = Returned ERROR
  /\ snd (on_init info s)
     = t1 ++ [ Log INFO (Msg_description_summary
                           (ABBSystemHardware.robot_controller_description_ s1));
               Log INFO Msg_configuring_EGM; Call_initializeMotionData;
               Log ERROR_LOG Msg_motion_data_failed ]
  /\ ABBSystemHardware.robot_controller_description_ (snd (fst (on_init info s)))
     = ABBSystemHardware.robot_controller_description_ s1
  /\ ABBSystemHardware.egm_manager_ (snd (fst (on_init info s)))
     = ABBSystemHardware.egm_manager_ s.
Proof.
  intros Hbase Hok Hbuild Hmd.
  unfold on_init, call. rewrite (on_init_body_validated info s Hbase Hok).
  rewrite (bind_next _ _ _ _ _ _ Hbuild), (configure_egm_motion_data_fails s1 e Hmd).
  cbn [fst snd].
  split; [reflexivity|]. split; [reflexivity|]. split; [reflexivity|].
  assert (Hrt : same_runtime (ABBSystemHardware.set_info info s) s1).
  { refine (keeps_build_description same_runtime _ _ same_runtime_subscript _ _ _ _ _ Hbuild).
    - intros ?. split; reflexivity.
    - apply same_runtime_trans.
    - intros ? ?. split; reflexivity. }
  destruct Hrt as [_ He]. exact He.
Qed.

Lemma configured_functional m group cfg cfg' :
  configured m group cfg -> configured m group cfg' -> cfg = cfg'.
Proof.
  intros (Hg & p & Hp & Hport) (Hg' & p' & Hp' & Hport').
  rewrite Hp in Hp'. injection Hp' as <-.
  destruct cfg as [port g], cfg' as [port' g'].
  cbn [ChannelConfiguration.port_number ChannelConfiguration.mech_unit_group] in *.
  congruence.
Qed.

Lemma configured_all_functional m groups : forall cfgs cfgs',
  Forall2 (configured m) groups cfgs -> Forall2 (configured m) groups cfgs' ->
  cfgs = cfgs'.
Proof.
  induction groups as [|group groups IH]; intros cfgs cfgs' H1 H2;
    inversion H1; inversion H2; subst; [reflexivity|].
  f_equal; [eapply configured_functional; eassumption | apply IH; assumption].
Qed.

Lemma configured_all_parse m groups cfgs :
  Forall2 (configured m) groups cfgs ->
  forall g, In g groups -> exists p, stoi (port_parameter m g) = Ok p.
Proof.
  induction 1 as [|group cfg groups cfgs (_ & p & Hp & _) _ IH]; intros g Hin.
  - destruct Hin.
  - destruct Hin as [<- | Hin]; [exists p; exact Hp | exact (IH g Hin)].
Qed.

(** X8. Let the description be built, the motion data initialized, and
    [cfgs] be the configurations of the description's groups: one per group,
    in order, each holding its group and its port parameter narrowed to
    sixteen bits.  When the constructor of the EGM manager throws on [cfgs],
    [on_init] has called it once, with [cfgs], as its last call; on
    [std::runtime_error] it logs the failure and returns ERROR, any other
    exception leaves [on_init]; either way the object keeps the manager it
    had. *)
Theorem on_init_manager_construction_failure info s s1 t1 md cfgs e :
  SystemInterface_on_init info = SUCCESS ->
  Forall interface_contract (HardwareInfo.joints info) ->
  build_description (ABBSystemHardware.set_info info s) = (Next tt, s1, t1) ->
  initializeMotionData (ABBSystemHardware.motion_data_ s1)
    (ABBSystemHardware.robot_controller_description_ s1) = Ok md ->
  Forall2 (configured (HardwareInfo.hardware_parameters info))
    (RobotControllerDescription.mechanical_units_groups
       (ABBSystemHardware.robot_controller_description_ s1)) cfgs ->
  EGMManager_constructor cfgs = Some e ->
  exists s' t,
    on_init info s
    = (match e with runtime_error => Returned ERROR | _ => Thrown e end, s',
       t ++ Call_EGMManager cfgs
            :: match e with
               | runtime_error => [Log ERROR_LOG Msg_EGM_init_failed]
               | _ => []
               end)
    /\ ABBSystemHardware.egm_manager_ s' = ABBSystemHardware.egm_manager_ s
    /\ Forall (fun ev => is_egm_construction ev = false) t.
Proof.
  intros Hbase Hok Hbuild Hmd Hcfgs Hctor.
  pose proof (keeps_parameters_build_description _ _ _ _ Hbuild) as Hsame.
  assert (Hrt : same_runtime (ABBSystemHardware.set_info info s) s1).
  { refine (keeps_build_description same_runtime _ _ same_runtime_subscript _ _ _ _ _ Hbuild).
    - intros ?. split; reflexivity.
    - apply same_runtime_trans.
    - intros ? ?. split; reflexivity. }
  assert (Hprefix : Forall (fun ev => is_egm_construction ev = false) t1).
  { eapply Forall_impl; [exact (build_description_constructs_nothing _ _ _ _ Hbuild)|].
    intros ev He. cbn beta in He.
    destruct (is_egm_construction ev); [discriminate He | reflexivity]. }
  destruct (channel_configurations_loop_ok
              (RobotControllerDescription.mechanical_units_groups
                 (ABBSystemHardware.robot_controller_description_ s1)) []
              (ABBSystemHardware.set_motion_data md s1))
    as (cfgs0 & s2 & t2 & Hrun & Hall & _ & Hmem & Hlog).
  { intros g Hg. destruct (configured_all_parse _ _ _ Hcfgs g Hg) as (q & Hq). exists q.
    unfold port_parameter in *. rewrite <- Hq. f_equal. apply Hsame. }
  assert (Heq : cfgs0 = cfgs).
  { apply (configured_all_functional (HardwareInfo.hardware_parameters info)
             (RobotControllerDescription.mechanical_units_groups
                (ABBSystemHardware.robot_controller_description_ s1))); [|exact Hcfgs].
    eapply Forall2_impl; [exact Hall|]. intros g c. apply configured_same.
    intros k. apply Hsame. }
  subst cfgs0. cbn [app] in Hrun.
  exists s2,
    (t1 ++ [ Log INFO (Msg_description_summary
                         (ABBSystemHardware.robot_controller_description_ s1));
             Log INFO Msg_configuring_EGM; Call_initializeMotionData ] ++ t2).
  split; [|split].
  - unfold on_init, call. rewrite (on_init_body_validated info s Hbase Hok).
    rewrite (bind_next _ _ _ _ _ _ Hbuild), (configure_egm_runs s1 md Hmd).
    rewrite (bind_next _ _ _ _ _ _ Hrun).
    unfold make_egm_manager, bind, emit, modify, log, return_, raise, ret.
    rewrite Hctor. destruct e; cbn [app]; rewrite <- !app_assoc; reflexivity.
  - destruct Hmem as (_ & _ & Hegm). rewrite Hegm. destruct Hrt as [_ He]. exact He.
  - rewrite !Forall_app. split; [exact Hprefix|]. split.
    + repeat constructor.
    + eapply Forall_impl; [exact Hlog|].
      intros [] He; try reflexivity; cbn in He; discriminate He.
Qed.

Lemma on_init_emits (p : event -> bool) info s :
  (forall sev m, p (Log sev m) = true) ->
  p Call_initializeMotionData = true ->
  (forall cfgs, p (Call_EGMManager cfgs) = true) ->
  (configure_via_rws (HardwareInfo.hardware_parameters info) = false
   \/ forall mgr u f, p (Call_establishRWSConnection mgr u f) = true) ->
  Forall (fun e => p e = true) (snd (on_init info s)).
Proof.
  intros p_log p_init p_egm p_rws.
  destruct (SystemInterface_on_init info) eqn:Hbase;
    [|rewrite on_init_base_refuses by (rewrite Hbase; discriminate); constructor
     |rewrite on_init_base_refuses by (rewrite Hbase; discriminate); constructor].
  destruct (contract_all_or_not (HardwareInfo.joints info)) as [Hok | Hex].
  2:{ destruct (on_init_bad_joint info s Hbase Hex) as (m & ->).
      constructor; [apply p_log | constructor]. }
  unfold on_init, call. rewrite (on_init_body_validated info s Hbase Hok).
  destruct (build_description (ABBSystemHardware.set_info info s)) as [[x s1] t1] eqn:Hbuild.
  assert (Ht1 : Forall (fun e => p e = true) t1).
  { destruct (configure_via_rws (HardwareInfo.hardware_parameters info)) eqn:Hf.
    - destruct p_rws as [Hsyn | p_rws]; [discriminate Hsyn|].
      rewrite build_description_query in Hbuild by exact Hf.
      exact (emits_description_from_RWS p p_log p_rws _ _ _ _ Hbuild).
    - rewrite build_description_synthesis in Hbuild by exact Hf.
      exact (emits_description_from_HardwareInfo p p_log _ _ _ _ Hbuild). }
  unfold bind. rewrite Hbuild.
  destruct x; cbn [snd]; try exact Ht1.
  destruct (configure_egm s1) as [[y s2] t2] eqn:Hegm.
  pose proof (emits_configure_egm p p_log p_init p_egm _ _ _ _ Hegm) as Ht2.
  destruct y; cbn [snd]; apply Forall_app; split; assumption.
Qed.

(** X9. [on_init] talks to the EGM channels in no other way than by
    constructing the manager: it never waits for a message, sleeps, reads
    or writes; and when the flag selects the synthesis, it never connects to
    the controller's RWS. *)
Theorem on_init_calls info s :
  Forall (fun e => is_init_event e = true) (snd (on_init info s))
  /\ (configure_via_rws (HardwareInfo.hardware_parameters info) = false ->
      List.filter is_rws_connection (snd (on_init info s)) = []).
Proof.
  split.
  - apply on_init_emits; auto.
  - intros Hflag. apply filter_none.
    apply (on_init_emits (fun e => negb (is_rws_connection e))); auto.
Qed.

End InitStages.

(** ** The connection loop, attempt by attempt *)

Section Attempts.
Context `{Externals}.

Lemma misses_succ n :
  misses (S n)
  = Call_waitForMessage 500 :: Log INFO Msg_not_connected :: Call_sleep_for 500 :: misses n.
Proof. reflexivity. Qed.

(** [n] attempts in a row that see the process alive and no message. *)
Lemma connection_loop_misses n : forall fuel counter s egm,
  ABBSystemHardware.egm_manager_ s = Some egm ->
  0 <= counter ->
  counter + Z.of_nat n < NUM_CONNECTION_TRIES ->
  (forall i, counter <= i < counter + Z.of_nat n -> rclcpp_ok i = true) ->
  (forall a, counter < a <= counter + Z.of_nat n -> waitForMessage egm a 500 = false) ->
  connection_loop (n + fuel) counter s
  = (let '(x, s', t) := connection_loop fuel (counter + Z.of_nat n) s in
     (x, s', misses n ++ t)).
Proof.
  induction n as [|n IH]; intros fuel counter s egm Hegm Hc Hn Halive Hsilent.
  - cbn [Nat.add misses replicate concat app]. rewrite Z.add_0_r.
    destruct (connection_loop fuel counter s) as [[x s'] t]. reflexivity.
  - cbn [Nat.add connection_loop].
    rewrite (Halive counter) by lia. cbn [negb].
    rewrite size_t_succ_small by (unfold NUM_CONNECTION_TRIES in *; lia).
    assert (Hlt : (counter + 1 <? NUM_CONNECTION_TRIES) = true) by (apply Z.ltb_lt; lia).
    rewrite Hlt. cbn [negb].
    unfold bind at 1. unfold egm_manager at 1. rewrite Hegm.
    unfold bind at 1. cbn [emit].
    rewrite (Hsilent (counter + 1)) by lia.
    unfold bind at 1. cbn [log emit].
    assert (Hne : (counter + 1 =? NUM_CONNECTION_TRIES) = false) by (apply Z.eqb_neq; lia).
    rewrite Hne. unfold bind at 1. cbn [ret]. unfold bind at 1. cbn [emit].
    rewrite (IH fuel (counter + 1) s egm Hegm) by (intros; try apply Halive; try apply Hsilent; lia).
    replace (counter + 1 + Z.of_nat n) with (counter + Z.of_nat (S n)) by lia.
    destruct (connection_loop fuel (counter + Z.of_nat (S n)) s) as [[x s'] t].
    rewrite misses_succ. reflexivity.
Qed.

Lemma connection_loop_connects fuel counter s egm :
  ABBSystemHardware.egm_manager_ s = Some egm ->
  0 <= counter -> counter + 1 < NUM_CONNECTION_TRIES ->
  rclcpp_ok counter = true ->
  waitForMessage egm (counter + 1) 500 = true ->
  connection_loop (S fuel) counter s
  = (Next tt, s, [Call_waitForMessage 500; Log INFO Msg_connected]).
Proof.
  intros Hegm Hc Hn Halive Hmsg. cbn [connection_loop].
  rewrite Halive. cbn [negb].
  rewrite size_t_succ_small by (unfold NUM_CONNECTION_TRIES in *; lia).
  assert (Hlt : (counter + 1 <? NUM_CONNECTION_TRIES) = true) by (apply Z.ltb_lt; lia).
  rewrite Hlt. cbn [negb].
  unfold bind at 1. unfold egm_manager at 1. rewrite Hegm.
  unfold bind at 1. cbn [emit]. rewrite Hmsg. reflexivity.
Qed.

Lemma connection_loop_gives_up fuel counter s :
  0 <= counter < NUM_CONNECTION_TRIES ->
  rclcpp_ok counter = false \/ counter = NUM_CONNECTION_TRIES - 1 ->
  connection_loop (S fuel) counter s = (Next tt, s, []).
Proof.
  intros Hc Hstop. cbn [connection_loop].
  destruct (rclcpp_ok counter) eqn:Halive; cbn [negb]; [|reflexivity].
  destruct Hstop as [Hx | ->]; [discriminate Hx|].
  reflexivity.
Qed.

Lemma on_activate_after_loop s egm t :
  ABBSystemHardware.egm_manager_ s = Some egm ->
  connection_loop (Z.to_nat NUM_CONNECTION_TRIES) 0 s = (Next tt, s, t) ->
  on_activate s
  = (Returned SUCCESS,
     ABBSystemHardware.set_motion_data
       (seed_commands (EGMManager_read egm (ABBSystemHardware.motion_data_ s))) s,
     Log INFO Msg_connecting :: t ++ [Call_read; Log INFO Msg_started]).
Proof.
  intros Hegm Hrun.
  unfold on_activate, call, on_activate_body.
  unfold bind at 1. cbn [log emit]. unfold bind at 1. rewrite Hrun.
  unfold bind at 1. unfold egm_read at 1. unfold bind at 1.
  unfold egm_manager at 1. rewrite Hegm. unfold bind at 1. cbn [emit modify].
  unfold bind at 1. cbn [modify]. unfold bind at 1. cbn [log emit ret].
  destruct s. reflexivity.
Qed.

(** X10. With a manager in place [on_activate] cannot fail: whatever the
    channel and the process do, it returns SUCCESS, having waited at most 99
    times, read exactly once, never logged a failed connection, and changed
    nothing in the object but the motion data, which is the seeded result of
    that read. *)
Theorem on_activate_never_fails s egm :
  ABBSystemHardware.egm_manager_ s = Some egm ->
  exists t,
    on_activate s
    = (Returned SUCCESS,
       ABBSystemHardware.set_motion_data
         (seed_commands (EGMManager_read egm (ABBSystemHardware.motion_data_ s))) s,
       t)
    /\ (length (List.filter is_wait t) <= 99)%nat
    /\ length (List.filter is_read t) = 1%nat
    /\ ~ In (Log ERROR_LOG Msg_failed_to_connect) t.
Proof. apply on_activate_always_succeeds. Qed.

(** X11. When the process stays alive and the first message comes at
    attempt [n + 1] (at most the 99th), [on_activate] has waited [n + 1]
    times, 500 ms each, slept 500 ms after each of the [n] failed attempts
    and not after the last, and then read and seeded. *)
Theorem on_activate_connects_at s egm (n : nat) :
  ABBSystemHardware.egm_manager_ s = Some egm ->
  Z.of_nat n + 1 < NUM_CONNECTION_TRIES ->
  (forall i, 0 <= i <= Z.of_nat n -> rclcpp_ok i = true) ->
  (forall a, 0 < a <= Z.of_nat n -> waitForMessage egm a 500 = false) ->
  waitForMessage egm (Z.of_nat n + 1) 500 = true ->
  on_activate s
  = (Returned SUCCESS,
     ABBSystemHardware.set_motion_data
       (seed_commands (EGMManager_read egm (ABBSystemHardware.motion_data_ s))) s,
     Log INFO Msg_connecting
       :: misses n
       ++ [Call_waitForMessage 500; Log INFO Msg_connected; Call_read; Log INFO Msg_started]).
Proof.
  intros Hegm Hn Halive Hsilent Hmsg.
  assert (Hloop : connection_loop (Z.to_nat NUM_CONNECTION_TRIES) 0 s
                  = (Next tt, s, misses n ++ [Call_waitForMessage 500; Log INFO Msg_connected])).
  { replace (Z.to_nat NUM_CONNECTION_TRIES) with (n + S (99 - n))%nat
      by (unfold NUM_CONNECTION_TRIES in *; lia).
    rewrite (connection_loop_misses n _ 0 s egm Hegm)
      by (intros; try apply Halive; try apply Hsilent; lia).
    rewrite Z.add_0_l.
    rewrite (connection_loop_connects _ _ s egm Hegm) by (auto; try apply Halive; lia).
    reflexivity. }
  rewrite (on_activate_after_loop s egm _ Hegm Hloop).
  rewrite <- app_assoc. reflexivity.
Qed.

(** X12. When, after [n] attempts without a message, the process is found
    shutting down, or the 99 attempts are used up, [on_activate] stops
    waiting without a word and goes on as if connected: it reads, seeds the
    commands and returns SUCCESS. *)
Theorem on_activate_gives_up s egm (n : nat) :
  ABBSystemHardware.egm_manager_ s = Some egm ->
  Z.of_nat n < NUM_CONNECTION_TRIES ->
  (forall i, 0 <= i < Z.of_nat n -> rclcpp_ok i = true) ->
  (forall a, 0 < a <= Z.of_nat n -> waitForMessage egm a 500 = false) ->
  rclcpp_ok (Z.of_nat n) = false \/ Z.of_nat n = NUM_CONNECTION_TRIES - 1 ->
  on_activate s
  = (Returned SUCCESS,
     ABBSystemHardware.set_motion_data
       (seed_commands (EGMManager_read egm (ABBSystemHardware.motion_data_ s))) s,
     Log INFO Msg_connecting :: misses n ++ [Call_read; Log INFO Msg_started]).
Proof.
  intros Hegm Hn Halive Hsilent Hstop.
  assert (Hloop : connection_loop (Z.to_nat NUM_CONNECTION_TRIES) 0 s
                  = (Next tt, s, misses n)).
  { replace (Z.to_nat NUM_CONNECTION_TRIES) with (n + S (99 - n))%nat
      by (unfold NUM_CONNECTION_TRIES in *; lia).
    rewrite (connection_loop_misses n _ 0 s egm Hegm)
      by (intros; try apply Halive; try apply Hsilent; lia).
    rewrite Z.add_0_l.
    rewrite connection_loop_gives_up by (auto; lia).
    rewrite app_nil_r. reflexivity. }
  exact (on_activate_after_loop s egm _ Hegm Hloop).
Qed.

(** X13. On an object without an EGM manager (a new one, or one whose
    [on_init] did not succeed) [on_activate] dereferences the null pointer,
    which is undefined behaviour: it has no null check. *)
Theorem on_activate_needs_manager s :
  ABBSystemHardware.egm_manager_ s = None ->
  exists s' t, on_activate s = (UndefinedBehaviour, s', t).
Proof. apply on_activate_without_manager. Qed.

(** X14. After an [on_init] that returned SUCCESS, [on_activate] never
    meets a null manager: it returns SUCCESS. *)
Theorem on_activate_after_on_init info s s1 t1 :
  on_init info s = (Returned SUCCESS, s1, t1) ->
  exists s2 t2, on_activate s1 = (Returned SUCCESS, s2, t2).
Proof.
  intros Hinit.
  destruct (on_init_success_inversion info s s1 t1 Hinit)
    as (_ & _ & cfgs & Hegm & _).
  destruct (on_activate_always_succeeds s1 _ Hegm) as (t2 & Hrun & _).
  eexists _, t2. exact Hrun.
Qed.

End Attempts.

(** ** Where the exported handles point *)

Section Located.
Context `{Externals}.
Variables position velocity : member.

Lemma export_joints_located g u joints : forall pre acc res,
  export_joints position velocity g u (length pre) joints acc = Ok res ->
  exists locs,
    res = acc ++ concat (map (handles_at position velocity) locs)
    /\ Forall2
         (fun joint loc =>
            exists j out,
              loc = (g, u, j, out)
              /\ normalize (Joint.name joint) = Ok out
              /\ (pre ++ joints) !! j = Some joint
              /\ (length pre <= j)%nat)
         joints locs
    /\ NoDup (map loc_address locs).
Proof.
  induction joints as [|joint joints IH]; intros pre acc res.
  - cbn [export_joints]. intros [= <-]. exists [].
    rewrite app_nil_r. repeat split; constructor.
  - cbn [export_joints]. rewrite export_joint_spec.
    destruct (normalize (Joint.name joint)) as [out|e] eqn:Hout; [|discriminate].
    intros Hrun.
    specialize (IH (pre ++ [joint]) (acc ++ handles_of position velocity g u (length pre) out) res).
    rewrite length_app in IH. cbn [length] in IH.
    replace (length pre + 1)%nat with (S (length pre)) in IH by lia.
    destruct (IH Hrun) as (locs & -> & Hall & Hnodup).
    exists ((g, u, length pre, out) :: locs). split; [|split].
    + cbn [map concat handles_at]. rewrite <- app_assoc. reflexivity.
    + constructor.
      * exists (length pre), out. repeat split; [exact Hout | | lia].
        apply list_lookup_middle. reflexivity.
      * eapply Forall2_impl; [exact Hall|].
        intros joint' loc (j & out' & -> & Hn & Hj & Hle).
        exists j, out'. rewrite <- app_assoc in Hj. repeat split; auto. lia.
    + cbn [map loc_address]. constructor; [|exact Hnodup].
      intros Hin. apply list_elem_of_fmap in Hin. destruct Hin as (loc & Heq & Hin).
      assert (Hlater : Forall (fun loc => (S (length pre) <= snd (loc_address loc))%nat) locs).
      { eapply Forall2_Forall_r; [exact Hall|]. apply Forall_forall.
        intros joint' _ loc' (j & out' & -> & _ & _ & Hle). exact Hle. }
      rewrite Forall_forall in Hlater. specialize (Hlater loc Hin).
      rewrite <- Heq in Hlater. cbn in Hlater. lia.
Qed.

Lemma export_units_located g units : forall pre acc res,
  export_units position velocity g (length pre) units acc = Ok res ->
  exists locs,
    res = acc ++ concat (map (handles_at position velocity) locs)
    /\ Forall2
         (fun joint loc =>
            exists u j out unit,
              loc = (g, u, j, out)
              /\ normalize (Joint.name joint) = Ok out
              /\ (pre ++ units) !! u = Some unit
              /\ Unit_.joints unit !! j = Some joint
              /\ (length pre <= u)%nat)
         (concat (map Unit_.joints units)) locs
    /\ NoDup (map loc_address locs).
Proof.
  induction units as [|unit units IH]; intros pre acc res.
  - cbn [export_units]. intros [= <-]. exists [].
    rewrite app_nil_r. repeat split; constructor.
  - cbn [export_units].
    destruct (export_joints position velocity g (length pre) 0 (Unit_.joints unit) acc)
      as [acc'|e] eqn:Hhere; [|discriminate].
    intros Hrun.
    destruct (export_joints_located g (length pre) (Unit_.joints unit) [] acc acc' Hhere)
      as (locs1 & -> & Hall1 & Hnodup1).
    specialize (IH (pre ++ [unit])
                  (acc ++ concat (map (handles_at position velocity) locs1)) res).
    rewrite length_app in IH. cbn [length] in IH.
    replace (length pre + 1)%nat with (S (length pre)) in IH by lia.
    destruct (IH Hrun) as (locs2 & -> & Hall2 & Hnodup2).
    exists (locs1 ++ locs2). split; [|split].
    + rewrite map_app, concat_app, <- app_assoc. reflexivity.
    + cbn [map concat]. apply Forall2_app.
      * eapply Forall2_impl; [exact Hall1|].
        intros joint loc (j & out & -> & Hn & Hj & _).
        exists (length pre), j, out, unit. repeat split; auto.
        apply list_lookup_middle. reflexivity.
      * eapply Forall2_impl; [exact Hall2|].
        intros joint loc (u & j & out & unit' & -> & Hn & Hu & Hj & Hle).
        exists u, j, out, unit'. rewrite <- app_assoc in Hu. repeat split; auto. lia.
    + rewrite map_app. apply NoDup_app. split; [exact Hnodup1|]. split; [|exact Hnodup2].
      intros a Ha1 Ha2.
      apply list_elem_of_fmap in Ha1. destruct Ha1 as (loc1 & -> & Hin1).
      apply list_elem_of_fmap in Ha2. destruct Ha2 as (loc2 & Heq & Hin2).
      assert (H1 : Forall (fun loc => snd (fst (loc_address loc)) = length pre) locs1).
      { eapply Forall2_Forall_r; [exact Hall1|]. apply Forall_forall.
        intros joint' _ loc' (j & out' & -> & _). reflexivity. }
      assert (H2 : Forall (fun loc => (S (length pre) <= snd (fst (loc_address loc)))%nat) locs2).
      { eapply Forall2_Forall_r; [exact Hall2|]. apply Forall_forall.
        intros joint' _ loc' (u & j & out' & unit' & -> & _ & _ & _ & Hle). exact Hle. }
      rewrite Forall_forall in H1, H2.
      specialize (H1 loc1 Hin1). specialize (H2 loc2 Hin2).
      rewrite <- Heq in H2. lia.
Qed.

Lemma export_groups_located groups : forall pre acc res,
  export_groups position velocity (length pre) groups acc = Ok res ->
  exists locs,
    res = acc ++ concat (map (handles_at position velocity) locs)
    /\ Forall2
         (fun joint loc =>
            exists g u j out,
              loc = (g, u, j, out)
              /\ normalize (Joint.name joint) = Ok out
              /\ target_joint (pre ++ groups)
                   {| Pointer.group := g; Pointer.unit := u; Pointer.joint := j;
                      Pointer.target := position |} = Some joint
              /\ (length pre <= g)%nat)
         (concat (map (fun group => concat (map Unit_.joints (Group.units group))) groups))
         locs
    /\ NoDup (map loc_address locs).
Proof.
  induction groups as [|group groups IH]; intros pre acc res.
  - cbn [export_groups]. intros [= <-]. exists [].
    rewrite app_nil_r. repeat split; constructor.
  - cbn [export_groups].
    destruct (export_units position velocity (length pre) 0 (Group.units group) acc)
      as [acc'|e] eqn:Hhere; [|discriminate].
    intros Hrun.
    destruct (export_units_located (length pre) (Group.units group) [] acc acc' Hhere)
      as (locs1 & -> & Hall1 & Hnodup1).
    specialize (IH (pre ++ [group])
                  (acc ++ concat (map (handles_at position velocity) locs1)) res).
    rewrite length_app in IH. cbn [length] in IH.
    replace (length pre + 1)%nat with (S (length pre)) in IH by lia.
    destruct (IH Hrun) as (locs2 & -> & Hall2 & Hnodup2).
    exists (locs1 ++ locs2). split; [|split].
    + rewrite map_app, concat_app, <- app_assoc. reflexivity.
    + cbn [map concat]. apply Forall2_app.
      * eapply Forall2_impl; [exact Hall1|].
        intros joint loc (u & j & out & unit & -> & Hn & Hu & Hj & _).
        exists (length pre), u, j, out. repeat split; auto.
        unfold target_joint. cbn [Pointer.group Pointer.unit Pointer.joint].
        rewrite list_lookup_middle by reflexivity. cbn [app] in Hu. rewrite Hu. exact Hj.
      * eapply Forall2_impl; [exact Hall2|].
        intros joint loc (g & u & j & out & -> & Hn & Ht & Hle).
        exists g, u, j, out. rewrite <- app_assoc in Ht. repeat split; auto. lia.
    + rewrite map_app. apply NoDup_app. split; [exact Hnodup1|]. split; [|exact Hnodup2].
      intros a Ha1 Ha2.
      apply list_elem_of_fmap in Ha1. destruct Ha1 as (loc1 & -> & Hin1).
      apply list_elem_of_fmap in Ha2. destruct Ha2 as (loc2 & Heq & Hin2).
      assert (H1 : Forall (fun loc => fst (fst (loc_address loc)) = length pre) locs1).
      { eapply Forall2_Forall_r; [exact Hall1|]. apply Forall_forall.
        intros joint' _ loc' (u & j & out' & unit' & -> & _). reflexivity. }
      assert (H2 : Forall (fun loc => (S (length pre) <= fst (fst (loc_address loc)))%nat) locs2).
      { eapply Forall2_Forall_r; [exact Hall2|]. apply Forall_forall.
        intros joint' _ loc' (g & u & j & out' & -> & _ & _ & Hle). exact Hle. }
      rewrite Forall_forall in H1, H2.
      specialize (H1 loc1 Hin1). specialize (H2 loc2 Hin2).
      rewrite <- Heq in H2. lia.
Qed.

Lemma load_target p md :
  load p md
  = option_map (joint_member (Pointer.target p)) (target_joint (MotionData.groups md) p).
Proof.
  unfold load, target_joint.
  destruct (MotionData.groups md !! Pointer.group p) as [group|]; [|reflexivity].
  destruct (Group.units group !! Pointer.unit p) as [unit|]; [|reflexivity].
  destruct (Unit_.joints unit !! Pointer.joint p); reflexivity.
Qed.

Lemma located_pairs md locs joints :
  Forall2
    (fun joint loc =>
       exists g u j out,
         loc = (g, u, j, out)
         /\ normalize (Joint.name joint) = Ok out
         /\ target_joint (MotionData.groups md)
              {| Pointer.group := g; Pointer.unit := u; Pointer.joint := j;
                 Pointer.target := position |} = Some joint
         /\ (0 <= g)%nat)
    joints locs ->
  exists pairs,
    concat (map (handles_at position velocity) locs) = flatten_pairs pairs
    /\ Forall2 (exports_joint position velocity md) joints pairs.
Proof.
  induction 1 as [|joint loc joints locs (g & u & j & out & -> & Hn & Ht & _) _ IH].
  - exists []. split; [reflexivity | constructor].
  - destruct IH as (pairs & Hflat & Hall).
    eexists ((_, _) :: pairs). split.
    + cbn [map concat handles_at handles_of flatten_pairs fst snd app].
      fold (flatten_pairs pairs). rewrite Hflat. reflexivity.
    + constructor; [|exact Hall].
      exists out. cbn [fst snd Handle.name Handle.interface_name].
      repeat split; try assumption; unfold get_value; rewrite load_target;
        cbn [Handle.value_ptr Pointer.target];
        unfold target_joint in *; cbn [Pointer.group Pointer.unit Pointer.joint] in *;
        rewrite Ht; reflexivity.
Qed.

(** The pointers of the handles at distinct addresses are distinct. *)
Lemma located_pointers_distinct locs :
  position <> velocity ->
  NoDup (map loc_address locs) ->
  NoDup (map Handle.value_ptr (concat (map (handles_at position velocity) locs)))
  /\ Forall (fun h => In (address (Handle.value_ptr h)) (map loc_address locs))
       (concat (map (handles_at position velocity) locs)).
Proof.
  intros Hpv. induction locs as [|[[[g u] j] out] locs IH]; intros Hnodup.
  - split; constructor.
  - apply NoDup_cons in Hnodup. destruct Hnodup as [Hfresh Hnodup].
    destruct (IH Hnodup) as [Hptrs Haddr].
    cbn [map concat handles_at handles_of app Handle.value_ptr loc_address].
    split.
    + assert (Hout : forall m,
        ~ In {| Pointer.group := g; Pointer.unit := u; Pointer.joint := j;
                Pointer.target := m |}
             (map Handle.value_ptr (concat (map (handles_at position velocity) locs)))).
      { intros m Hin. apply in_map_iff in Hin. destruct Hin as (h & Hh & Hin).
        rewrite Forall_forall in Haddr.
        apply list_elem_of_In in Hin. specialize (Haddr h Hin).
        rewrite Hh in Haddr. cbn [address Pointer.group Pointer.unit Pointer.joint] in Haddr.
        apply Hfresh. apply list_elem_of_In. exact Haddr. }
      constructor.
      * rewrite list_elem_of_In. intros [Heq | Hin]; [|exact (Hout _ Hin)].
        injection Heq as Heq. exact (Hpv (eq_sym Heq)).
      * constructor; [|exact Hptrs]. rewrite list_elem_of_In. apply Hout.
    + constructor; [left; reflexivity|]. constructor; [left; reflexivity|].
      eapply Forall_impl; [exact Haddr|]. intros h Hin. right. exact Hin.
Qed.

End Located.

Lemma joint_member_other m m' v joint :
  m <> m' -> joint_member m' (set_joint_member m v joint) = joint_member m' joint.
Proof. destruct m, m'; intros Hne; try reflexivity; contradiction. Qed.

(** Writing through one pointer changes nothing at another. *)
Lemma load_store_other p q v md :
  p <> q -> load q (store p v md) = load q md.
Proof.
  destruct p as [g u j m], q as [g' u' j' m']. intros Hne.
  unfold load, store.
  cbn [MotionData.groups Pointer.group Pointer.unit Pointer.joint Pointer.target].
  destruct (decide (g = g')) as [<- | Hg];
    [|rewrite list_lookup_alter_ne by exact Hg; reflexivity].
  rewrite list_lookup_alter_eq.
  destruct (MotionData.groups md !! g) as [group|]; [|reflexivity].
  cbn [fmap option_fmap option_map Group.units].
  destruct (decide (u = u')) as [<- | Hu];
    [|rewrite list_lookup_alter_ne by exact Hu; reflexivity].
  rewrite list_lookup_alter_eq.
  destruct (Group.units group !! u) as [unit|]; [|reflexivity].
  cbn [fmap option_fmap option_map Unit_.joints].
  destruct (decide (j = j')) as [<- | Hj];
    [|rewrite list_lookup_alter_ne by exact Hj; reflexivity].
  rewrite list_lookup_alter_eq.
  destruct (Unit_.joints unit !! j) as [joint|]; [|reflexivity].
  cbn [fmap option_fmap option_map].
  rewrite joint_member_other; [reflexivity|].
  intros ->. apply Hne. reflexivity.
Qed.

Section HandleProperties.
Context `{Externals}.

Lemma exported_pairs position velocity md hs :
  export_groups position velocity 0 (MotionData.groups md) [] = Ok hs ->
  exists pairs,
    hs = flatten_pairs pairs
    /\ Forall2 (exports_joint position velocity md) (all_joints md) pairs.
Proof.
  intros Hrun.
  destruct (export_groups_located position velocity (MotionData.groups md) [] [] hs Hrun)
    as (locs & -> & Hall & _).
  cbn [app] in *. apply located_pairs.
  eapply Forall2_impl; [exact Hall|].
  intros joint loc (g & u & j & out & -> & Hn & Ht & Hle). exists g, u, j, out. auto.
Qed.

Lemma exported_apart position velocity md hs :
  position <> velocity ->
  export_groups position velocity 0 (MotionData.groups md) [] = Ok hs ->
  NoDup (map Handle.value_ptr hs)
  /\ forall i k h h' v,
       i <> k -> hs !! i = Some h -> hs !! k = Some h' ->
       get_value h' (set_value h v md) = get_value h' md.
Proof.
  intros Hpv Hrun.
  destruct (export_groups_located position velocity (MotionData.groups md) [] [] hs Hrun)
    as (locs & -> & _ & Hnodup).
  cbn [app] in *.
  destruct (located_pointers_distinct position velocity locs Hpv Hnodup) as [Hptrs _].
  split; [exact Hptrs|].
  intros i k h h' v Hik Hi Hk. unfold get_value, set_value.
  apply load_store_other. intros Heq.
  apply Hik. eapply NoDup_lookup; [exact Hptrs | |].
  - rewrite list_lookup_fmap, Hi. reflexivity.
  - rewrite list_lookup_fmap, Hk, Heq. reflexivity.
Qed.

(** X15. The handles are, joint by joint in the order of the motion data,
    a position handle then a velocity handle, both under the joint's
    normalized name, the first reading that joint's position and the second
    its velocity: of its state for [export_state_interfaces], of its command
    for [export_command_interfaces]. *)
Theorem export_handles_read_their_joint s :
  let md := ABBSystemHardware.motion_data_ s in
  (forall hs,
     export_state_interfaces s = Ok hs ->
     exists pairs,
       hs = flatten_pairs pairs
       /\ Forall2 (exports_joint state_position state_velocity md) (all_joints md) pairs)
  /\ (forall hc,
        export_command_interfaces s = Ok hc ->
        exists pairs,
          hc = flatten_pairs pairs
          /\ Forall2 (exports_joint command_position command_velocity md)
               (all_joints md) pairs).
Proof.
  intros md. split; intros hs Hrun.
  - exact (exported_pairs state_position state_velocity md hs Hrun).
  - exact (exported_pairs command_position command_velocity md hs Hrun).
Qed.

(** X16. No two handles of one export point to the same storage: a value
    written through one handle is never seen through another handle of the
    same list. *)
Theorem export_handles_do_not_alias s :
  let md := ABBSystemHardware.motion_data_ s in
  (forall hs,
     export_state_interfaces s = Ok hs ->
     NoDup (map Handle.value_ptr hs)
     /\ forall i k h h' v,
          i <> k -> hs !! i = Some h -> hs !! k = Some h' ->
          get_value h' (set_value h v md) = get_value h' md)
  /\ (forall hc,
        export_command_interfaces s = Ok hc ->
        NoDup (map Handle.value_ptr hc)
        /\ forall i k h h' v,
             i <> k -> hc !! i = Some h -> hc !! k = Some h' ->
             get_value h' (set_value h v md) = get_value h' md).
Proof.
  intros md. split; intros hs Hrun.
  - apply (exported_apart state_position state_velocity md hs); [discriminate | exact Hrun].
  - apply (exported_apart command_position command_velocity md hs);
      [discriminate | exact Hrun].
Qed.

End HandleProperties.

(** ** Exporting twice *)

Section Idempotence.
Context `{Externals}.

Lemma exported_for_every_joint position velocity md :
  Forall (fun joint => contains "joint" (Joint.name joint)) (all_joints md) ->
  exists hs pairs,
    export_groups position velocity 0 (MotionData.groups md) [] = Ok hs
    /\ hs = flatten_pairs pairs
    /\ Forall2 (exports_joint position velocity md) (all_joints md) pairs
    /\ forall i h v,
         hs !! i = Some h ->
         export_groups position velocity 0 (MotionData.groups (set_value h v md)) [] = Ok hs
         /\ get_value h (set_value h v md) = Some v.
Proof.
  intros Hc.
  assert (Hall : Forall normalizes (all_joints md)).
  { eapply Forall_impl; [exact Hc|]. intros joint Hj.
    destruct (normalize_contains _ Hj) as (out & Hout & _). exists out. exact Hout. }
  destruct (export_groups_ok position velocity (MotionData.groups md) [] [] Hall)
    as (hs & outs & Hrun & _).
  cbn [length app] in Hrun.
  destruct (exported_pairs position velocity md hs Hrun) as (pairs & Hflat & Hpairs).
  exists hs, pairs. split; [exact Hrun|]. split; [exact Hflat|]. split; [exact Hpairs|].
  intros i h v Hi. exact (exported_handle_written position velocity md hs i h v Hrun Hi).
Qed.

(** C9. When every joint name of the motion data contains the marker joint,
    [export_state_interfaces] returns, for every joint of the motion data
    and in their order, a position handle and a velocity handle under the
    joint's normalized name that read this joint's state position and
    velocity out of the motion data; and whatever is written through any one
    of these handles, a second call returns the very same list (same names,
    same interface names, same pointers into the motion data), in which the
    handle at the same place reads the value written through the first.
    Likewise [export_command_interfaces], with the joint's command. *)
Theorem export_interfaces_idempotent s :
  let md := ABBSystemHardware.motion_data_ s in
  Forall (fun joint => contains "joint" (Joint.name joint)) (all_joints md) ->
  (exists hs pairs,
     export_state_interfaces s = Ok hs
     /\ hs = flatten_pairs pairs
     /\ Forall2 (exports_joint state_position state_velocity md) (all_joints md) pairs
     /\ forall i h v,
          hs !! i = Some h ->
          export_state_interfaces
            (ABBSystemHardware.set_motion_data (set_value h v md) s) = Ok hs
          /\ get_value h (set_value h v md) = Some v)
  /\ (exists hc pairs,
        export_command_interfaces s = Ok hc
        /\ hc = flatten_pairs pairs
        /\ Forall2 (exports_joint command_position command_velocity md) (all_joints md) pairs
        /\ forall i h v,
             hc !! i = Some h ->
             export_command_interfaces
               (ABBSystemHardware.set_motion_data (set_value h v md) s) = Ok hc
             /\ get_value h (set_value h v md) = Some v).
Proof.
  intros md Hc. split.
  - exact (exported_for_every_joint state_position state_velocity md Hc).
  - exact (exported_for_every_joint command_position command_velocity md Hc).
Qed.

End Idempotence.

Lemma export_interfaces_idempotent_witness :
  (exists hs pairs,
     @export_state_interfaces (Sample.externals Sample.never Sample.seven_tenths)
       (Sample.inactive ["rob1_joint_1"; "joint_2"]) = Ok hs
     /\ hs = flatten_pairs pairs
     /\ length pairs = 2%nat
     /\ forall i h v,
          hs !! i = Some h ->
          @export_state_interfaces (Sample.externals Sample.never Sample.seven_tenths)
            (ABBSystemHardware.set_motion_data
               (set_value h v (Sample.mirrored ["rob1_joint_1"; "joint_2"]))
               (Sample.inactive ["rob1_joint_1"; "joint_2"])) = Ok hs
          /\ get_value h (set_value h v (Sample.mirrored ["rob1_joint_1"; "joint_2"]))
             = Some v)
  /\ (exists hc pairs,
        @export_command_interfaces (Sample.externals Sample.never Sample.seven_tenths)
          (Sample.inactive ["rob1_joint_1"; "joint_2"]) = Ok hc
        /\ hc = flatten_pairs pairs
        /\ length pairs = 2%nat
        /\ forall i h v,
             hc !! i = Some h ->
             @export_command_interfaces (Sample.externals Sample.never Sample.seven_tenths)
               (ABBSystemHardware.set_motion_data
                  (set_value h v (Sample.mirrored ["rob1_joint_1"; "joint_2"]))
                  (Sample.inactive ["rob1_joint_1"; "joint_2"])) = Ok hc
             /\ get_value h (set_value h v (Sample.mirrored ["rob1_joint_1"; "joint_2"]))
                = Some v).
Proof.
  destruct (@export_interfaces_idempotent
              (Sample.externals Sample.never Sample.seven_tenths)
              (Sample.inactive ["rob1_joint_1"; "joint_2"]))
    as ((hs & pairs & Hrun & Hflat & Hpairs & Hwrite)
        & (hc & pairs' & Hrun' & Hflat' & Hpairs' & Hwrite')).
  - repeat constructor.
    + exists "rob1_", "_1". reflexivity.
    + exists EmptyString, "_2". reflexivity.
  - split.
    + exists hs, pairs. split; [exact Hrun|]. split; [exact Hflat|].
      split; [symmetry; exact (Forall2_length _ _ _ Hpairs) | exact Hwrite].
    + exists hc, pairs'. split; [exact Hrun'|]. split; [exact Hflat'|].
      split; [symmetry; exact (Forall2_length _ _ _ Hpairs') | exact Hwrite'].
Defined.

(** ** The two exports side by side, and across the cycle *)

Section SideBySide.
Context `{Externals}.

Lemma export_joints_commanded g u joints : forall j acc,
  export_joints command_position command_velocity g u j joints (map commanded acc)
  = result_map (map commanded)
      (export_joints state_position state_velocity g u j joints acc).
Proof.
  induction joints as [|joint joints IH]; intros j acc; [reflexivity|].
  cbn [export_joints]. rewrite !export_joint_spec.
  destruct (normalize (Joint.name joint)) as [out|e]; [|reflexivity].
  rewrite <- IH. rewrite map_app. reflexivity.
Qed.

Lemma export_units_commanded g units : forall u acc,
  export_units command_position command_velocity g u units (map commanded acc)
  = result_map (map commanded)
      (export_units state_position state_velocity g u units acc).
Proof.
  induction units as [|unit units IH]; intros u acc; [reflexivity|].
  cbn [export_units]. rewrite export_joints_commanded.
  destruct (export_joints state_position state_velocity g u 0 (Unit_.joints unit) acc);
    [apply IH | reflexivity].
Qed.

Lemma export_groups_commanded groups : forall g acc,
  export_groups command_position command_velocity g groups (map commanded acc)
  = result_map (map commanded)
      (export_groups state_position state_velocity g groups acc).
Proof.
  induction groups as [|group groups IH]; intros g acc; [reflexivity|].
  cbn [export_groups]. rewrite export_units_commanded.
  destruct (export_units state_position state_velocity g 0 (Group.units group) acc);
    [apply IH | reflexivity].
Qed.

(** X17. The two exports go together: [export_command_interfaces] throws
    exactly when [export_state_interfaces] does, and otherwise returns the
    same list with every pointer moved from the joint's state to the same
    member of its command: same length, same order, same names. *)
Theorem export_command_mirrors_state s :
  export_command_interfaces s
  = result_map (map commanded) (export_state_interfaces s).
Proof.
  unfold export_command_interfaces, export_state_interfaces.
  exact (export_groups_commanded _ 0 []).
Qed.

Lemma same_shape_seed_commands md :
  same_shape (MotionData.groups md) (MotionData.groups (seed_commands md)).
Proof.
  unfold same_shape, seed_commands. cbn [MotionData.groups].
  apply Forall2_fmap_r, Forall_Forall2_diag, Forall_forall. intros group _.
  cbn [seed_group Group.units].
  apply Forall2_fmap_r, Forall_Forall2_diag, Forall_forall. intros unit _.
  cbn [seed_unit Unit_.joints].
  apply Forall2_fmap_r, Forall_Forall2_diag, Forall_forall. intros joint _.
  reflexivity.
Qed.

(** X18. Activation does not invalidate the handles: when the manager's
    read keeps the groups, units and joint names of the motion data, both
    exports return after [on_activate] what they returned before it. *)
Theorem export_unchanged_by_on_activate s egm :
  ABBSystemHardware.egm_manager_ s = Some egm ->
  same_shape (MotionData.groups (ABBSystemHardware.motion_data_ s))
    (MotionData.groups (EGMManager_read egm (ABBSystemHardware.motion_data_ s))) ->
  export_state_interfaces (snd (fst (on_activate s))) = export_state_interfaces s
  /\ export_command_interfaces (snd (fst (on_activate s))) = export_command_interfaces s.
Proof.
  intros Hegm Hread.
  destruct (on_activate_always_succeeds s egm Hegm) as (t & -> & _).
  cbn [fst snd]. unfold export_state_interfaces, export_command_interfaces.
  cbn [ABBSystemHardware.motion_data_ ABBSystemHardware.set_motion_data].
  split.
  - rewrite <- (export_groups_shape _ _ _ _ 0 [] (same_shape_seed_commands _)).
    rewrite <- (export_groups_shape _ _ _ _ 0 [] Hread). reflexivity.
  - rewrite <- (export_groups_shape _ _ _ _ 0 [] (same_shape_seed_commands _)).
    rewrite <- (export_groups_shape _ _ _ _ 0 [] Hread). reflexivity.
Qed.

(** X19. With a manager in place, [read] and [write] each make their one
    call, put what the manager hands back into the motion data, touch
    nothing else and report OK, whatever the manager did; and when the
    manager keeps the shape and the joint names, the exported handles are
    after the call what they were before. *)
Theorem cycle_reports_OK s egm :
  ABBSystemHardware.egm_manager_ s = Some egm ->
  let md := ABBSystemHardware.motion_data_ s in
  cycle read s
  = (Some OK, ABBSystemHardware.set_motion_data (EGMManager_read egm md) s, [Call_read])
  /\ cycle write s
     = (Some OK, ABBSystemHardware.set_motion_data (EGMManager_write egm md) s, [Call_write])
  /\ (same_shape (MotionData.groups md) (MotionData.groups (EGMManager_read egm md)) ->
      export_state_interfaces (snd (fst (cycle read s))) = export_state_interfaces s
      /\ export_command_interfaces (snd (fst (cycle read s))) = export_command_interfaces s)
  /\ (same_shape (MotionData.groups md) (MotionData.groups (EGMManager_write egm md)) ->
      export_state_interfaces (snd (fst (cycle write s))) = export_state_interfaces s
      /\ export_command_interfaces (snd (fst (cycle write s))) = export_command_interfaces s).
Proof.
  intros Hegm md.
  assert (Hr : cycle read s
    = (Some OK, ABBSystemHardware.set_motion_data (EGMManager_read egm md) s, [Call_read])).
  { unfold cycle, read, egm_read, bind, egm_manager, emit, modify, ret.
    rewrite Hegm. reflexivity. }
  assert (Hw : cycle write s
    = (Some OK, ABBSystemHardware.set_motion_data (EGMManager_write egm md) s, [Call_write])).
  { unfold cycle, write, egm_write, bind, egm_manager, emit, modify, ret.
    rewrite Hegm. reflexivity. }
  rewrite Hr, Hw. cbn [fst snd].
  unfold export_state_interfaces, export_command_interfaces.
  cbn [ABBSystemHardware.motion_data_ ABBSystemHardware.set_motion_data].
  split; [reflexivity|]. split; [reflexivity|]. split; intros Hshape; split;
    rewrite <- (export_groups_shape _ _ _ _ 0 [] Hshape); reflexivity.
Qed.

End SideBySide.

(** ** The synthesis, on any object *)

Section SynthesisAnywhere.
Context `{Externals}.

Lemma alter_last {A} (f : A -> A) (pre : list A) (g : A) :
  alter f (length pre) (pre ++ [g]) = pre ++ [f g].
Proof.
  rewrite alter_app_r_alt by lia. rewrite Nat.sub_diag. reflexivity.
Qed.

Lemma add_joints_after joints : forall s pre g u,
  RobotControllerDescription.mechanical_units_groups
    (ABBSystemHardware.robot_controller_description_ s) = pre ++ [g] ->
  MechanicalUnitGroup.robot g = Some u ->
  (forall joint, In joint joints ->
     exists ci lo hi,
       position_interface joint = Some ci
       /\ stod (InterfaceInfo.min ci) = Ok lo /\ stod (InterfaceInfo.max ci) = Ok hi) ->
  exists sjs t,
    for_each joints
      (fun joint => add_joint (length pre) joint (ComponentInfo.command_interfaces joint)) s
    = (Next tt,
       ABBSystemHardware.set_description
         (RobotControllerDescription.set_groups
            (pre ++
             [ {| MechanicalUnitGroup.name := MechanicalUnitGroup.name g;
                  MechanicalUnitGroup.robot :=
                    Some {| MechanicalUnit.type := MechanicalUnit.type u;
                            MechanicalUnit.axes_total := MechanicalUnit.axes_total u;
                            MechanicalUnit.mode := MechanicalUnit.mode u;
                            MechanicalUnit.standardized_joints :=
                              MechanicalUnit.standardized_joints u ++ sjs |} |} ])
            (ABBSystemHardware.robot_controller_description_ s)) s,
       t)
    /\ Forall2 describes joints sjs.
Proof.
  induction joints as [|joint joints IH]; intros s pre g u Hg Hu Hparse.
  - exists [], []. split; [|constructor]. cbn [for_each ret].
    rewrite app_nil_r. destruct s as [i d m e]. cbn in Hg |- *.
    destruct d as [v egm gs]. cbn in Hg |- *. subst gs.
    destruct g as [n r]. cbn in Hu |- *. subst r. destruct u. reflexivity.
  - destruct (Hparse joint (or_introl eq_refl)) as (ci & lo & hi & Hci & Hlo & Hhi).
    cbn [for_each].
    rewrite (bind_next _ _ _ _ _ _
               (add_joint_position (length pre) joint _ ci lo hi s Hci Hlo Hhi)).
    rewrite Hg, alter_last.
    edestruct IH as (sjs & t & Hrun & Hall);
      [| | intros j Hj; apply Hparse; right; exact Hj | rewrite Hrun ].
    + reflexivity.
    + cbn. rewrite Hu. reflexivity.
    + eexists (_ :: sjs), _. split.
      * cbn. rewrite <- app_assoc. reflexivity.
      * constructor; [|exact Hall].
        split; [reflexivity|]. split; [apply is_revolute_spec|].
        exists ci. auto.
Qed.

Lemma description_from_HardwareInfo_appends s :
  (forall joint, In joint (HardwareInfo.joints (ABBSystemHardware.info_ s)) ->
     exists ci lo hi,
       position_interface joint = Some ci
       /\ stod (InterfaceInfo.min ci) = Ok lo /\ stod (InterfaceInfo.max ci) = Ok hi) ->
  exists sjs s' t,
    description_from_HardwareInfo s = (Next tt, s', t)
    /\ ABBSystemHardware.robot_controller_description_ s'
       = {| RobotControllerDescription.header_robot_ware_version :=
              {| RobotWareVersion.major_number := 7;
                 RobotWareVersion.minor_number := 3;
                 RobotWareVersion.patch_number := 2 |};
            RobotControllerDescription.system_indicators_options_egm := true;
            RobotControllerDescription.mechanical_units_groups :=
              RobotControllerDescription.mechanical_units_groups
                (ABBSystemHardware.robot_controller_description_ s)
              ++ [ synthesized_group
                     (length (HardwareInfo.joints (ABBSystemHardware.info_ s))) sjs ] |}
    /\ Forall2 describes (HardwareInfo.joints (ABBSystemHardware.info_ s)) sjs.
Proof.
  intros Hparse.
  unfold description_from_HardwareInfo, bind, log, emit, modify_group,
    modify_description, modify, add_mechanical_units_groups, gets.
  cbn -[for_each add_joint Z.of_nat alter length app].
  set (pre := RobotControllerDescription.mechanical_units_groups
                (ABBSystemHardware.robot_controller_description_ s)).
  rewrite !alter_last.
  match goal with
  | |- context [for_each ?js ?f ?st] =>
      destruct (add_joints_after js st pre _ _ eq_refl eq_refl Hparse)
        as (sjs & t & Hrun & Hall)
  end.
  rewrite Hrun. exists sjs. eexists _, _. split; [reflexivity|].
  split; [reflexivity | exact Hall].
Qed.

End SynthesisAnywhere.

Section SynthesisProperties.
Context `{Externals}.

Lemma on_init_synthesis_anywhere info s r s' t :
  SystemInterface_on_init info = SUCCESS ->
  Forall interface_contract (HardwareInfo.joints info) ->
  configure_via_rws (HardwareInfo.hardware_parameters info) = false ->
  (forall joint, In joint (HardwareInfo.joints info) ->
     exists ci lo hi,
       position_interface joint = Some ci
       /\ stod (InterfaceInfo.min ci) = Ok lo /\ stod (InterfaceInfo.max ci) = Ok hi) ->
  on_init info s = (r, s', t) ->
  exists sjs,
    ABBSystemHardware.robot_controller_description_ s'
    = {| RobotControllerDescription.header_robot_ware_version :=
           {| RobotWareVersion.major_number := 7;
              RobotWareVersion.minor_number := 3;
              RobotWareVersion.patch_number := 2 |};
         RobotControllerDescription.system_indicators_options_egm := true;
         RobotControllerDescription.mechanical_units_groups :=
           RobotControllerDescription.mechanical_units_groups
             (ABBSystemHardware.robot_controller_description_ s)
           ++ [ synthesized_group (length (HardwareInfo.joints info)) sjs ] |}
    /\ Forall2 describes (HardwareInfo.joints info) sjs.
Proof.
  intros Hbase Hok Hflag Hparse Hrun.
  unfold on_init, call in Hrun.
  rewrite (on_init_body_validated info s Hbase Hok) in Hrun.
  destruct (description_from_HardwareInfo_appends (ABBSystemHardware.set_info info s) Hparse)
    as (sjs & s1 & t1 & Hbuild & Hdesc & Hall).
  assert (Hstage : build_description (ABBSystemHardware.set_info info s) = (Next tt, s1, t1)).
  { unfold build_description, bind, gets.
    cbn [ABBSystemHardware.info_ ABBSystemHardware.set_info].
    rewrite Hflag, Hbuild. reflexivity. }
  rewrite (bind_next _ _ _ _ _ _ Hstage) in Hrun.
  destruct (configure_egm s1) as [[x s2] t2] eqn:Hegm.
  pose proof (keeps_description_configure_egm _ _ _ _ Hegm) as Hkeep.
  exists sjs. split; [|exact Hall].
  cbn [ABBSystemHardware.info_ ABBSystemHardware.set_info
       ABBSystemHardware.robot_controller_description_] in Hdesc.
  rewrite <- Hdesc, <- Hkeep.
  destruct x; injection Hrun as _ <- _; reflexivity.
Qed.

Lemma add_joint_by_position mug joint cis s :
  add_joint mug joint cis s
  = match List.find (fun ci => String.eqb (InterfaceInfo.name ci) HW_IF_POSITION) cis with
    | Some ci => add_joint mug joint [ci] s
    | None => (Next tt, s, [])
    end.
Proof.
  induction cis as [|c cis IH]; [reflexivity|].
  cbn [add_joint List.find].
  destruct (String.eqb (InterfaceInfo.name c) HW_IF_POSITION) eqn:Hc.
  - rewrite Hc. reflexivity.
  - exact IH.
Qed.

Lemma is_revolute_same joint joint' :
  ComponentInfo.parameters joint' !! "type" = ComponentInfo.parameters joint !! "type" ->
  is_revolute joint' = is_revolute joint.
Proof. intros Ht. unfold is_revolute. rewrite Ht. reflexivity. Qed.

Lemma add_joint_same mug joint joint' s s' :
  same_for_synthesis joint joint' ->
  ABBSystemHardware.robot_controller_description_ s'
  = ABBSystemHardware.robot_controller_description_ s ->
  fst (fst (add_joint mug joint' (ComponentInfo.command_interfaces joint') s'))
  = fst (fst (add_joint mug joint (ComponentInfo.command_interfaces joint) s))
  /\ ABBSystemHardware.robot_controller_description_
       (snd (fst (add_joint mug joint' (ComponentInfo.command_interfaces joint') s')))
     = ABBSystemHardware.robot_controller_description_
         (snd (fst (add_joint mug joint (ComponentInfo.command_interfaces joint) s))).
Proof.
  intros (Hn & Ht & Hp) Hd.
  rewrite !add_joint_by_position. unfold position_interface in Hp. rewrite Hp.
  destruct (List.find _ (ComponentInfo.command_interfaces joint)) as [ci|];
    [|split; [reflexivity | exact Hd]].
  cbn [add_joint].
  destruct (String.eqb (InterfaceInfo.name ci) HW_IF_POSITION);
    [|split; [reflexivity | exact Hd]].
  unfold bind, lift, modify_group, modify_description, modify, log, emit.
  destruct (stod (InterfaceInfo.min ci)); [|split; [reflexivity | exact Hd]].
  destruct (stod (InterfaceInfo.max ci)); [|split; [reflexivity | exact Hd]].
  unfold ret.
  cbn [fst snd ABBSystemHardware.robot_controller_description_
       ABBSystemHardware.set_description].
  rewrite Hn, (is_revolute_same _ _ Ht), Hd.
  split; reflexivity.
Qed.

Lemma add_joints_same mug joints joints' :
  Forall2 same_for_synthesis joints joints' ->
  forall s s',
  ABBSystemHardware.robot_controller_description_ s'
  = ABBSystemHardware.robot_controller_description_ s ->
  fst (fst (for_each joints'
              (fun joint => add_joint mug joint (ComponentInfo.command_interfaces joint)) s'))
  = fst (fst (for_each joints
                (fun joint => add_joint mug joint (ComponentInfo.command_interfaces joint)) s))
  /\ ABBSystemHardware.robot_controller_description_
       (snd (fst (for_each joints'
                    (fun joint => add_joint mug joint (ComponentInfo.command_interfaces joint))
                    s')))
     = ABBSystemHardware.robot_controller_description_
         (snd (fst (for_each joints
                      (fun joint => add_joint mug joint (ComponentInfo.command_interfaces joint))
                      s))).
Proof.
  induction 1 as [|joint joint' joints joints' Hj _ IH]; intros s s' Hd.
  - split; [reflexivity | exact Hd].
  - cbn [for_each]. unfold bind.
    destruct (add_joint_same mug joint joint' s s' Hj Hd) as [Hx Hd1].
    destruct (add_joint mug joint' (ComponentInfo.command_interfaces joint') s')
      as [[x' s1'] t1'].
    destruct (add_joint mug joint (ComponentInfo.command_interfaces joint) s)
      as [[x s1] t1].
    cbn [fst snd] in Hx, Hd1. subst x'.
    destruct x as [[]| | | |]; try (split; [reflexivity | exact Hd1]).
    destruct (IH s1 s1' Hd1) as [Hy Hd2].
    destruct (for_each joints' _ s1') as [[y' s2'] t2'].
    destruct (for_each joints _ s1) as [[y s2] t2].
    cbn [fst snd] in *. split; assumption.
Qed.

Lemma description_from_HardwareInfo_prelude s :
  exists s0 t0,
    description_from_HardwareInfo s
    = (let '(x, s', t) :=
         for_each (HardwareInfo.joints (ABBSystemHardware.info_ s))
           (fun joint =>
              add_joint
                (length (RobotControllerDescription.mechanical_units_groups
                           (ABBSystemHardware.robot_controller_description_ s)))
                joint (ComponentInfo.command_interfaces joint)) s0 in
       (x, s', t0 ++ t))
    /\ ABBSystemHardware.robot_controller_description_ s0
       = {| RobotControllerDescription.header_robot_ware_version :=
              {| RobotWareVersion.major_number := 7;
                 RobotWareVersion.minor_number := 3;
                 RobotWareVersion.patch_number := 2 |};
            RobotControllerDescription.system_indicators_options_egm := true;
            RobotControllerDescription.mechanical_units_groups :=
              RobotControllerDescription.mechanical_units_groups
                (ABBSystemHardware.robot_controller_description_ s)
              ++ [ synthesized_group
                     (length (HardwareInfo.joints (ABBSystemHardware.info_ s))) [] ] |}.
Proof.
  unfold description_from_HardwareInfo, bind, log, emit, modify_group,
    modify_description, modify, add_mechanical_units_groups, gets.
  cbn -[for_each add_joint Z.of_nat alter length app].
  rewrite !alter_last.
  match goal with
  | |- context [for_each ?js ?f ?st] => exists st
  end.
  exists [Log INFO Msg_generating_from_HardwareInfo].
  split.
  - match goal with
    | |- context [for_each ?js ?f ?st] => destruct (for_each js f st) as [[x s'] t]
    end.
    reflexivity.
  - reflexivity.
Qed.

Lemma on_init_description_after_build info s :
  SystemInterface_on_init info = SUCCESS ->
  Forall interface_contract (HardwareInfo.joints info) ->
  ABBSystemHardware.robot_controller_description_ (snd (fst (on_init info s)))
  = ABBSystemHardware.robot_controller_description_
      (snd (fst (build_description (ABBSystemHardware.set_info info s)))).
Proof.
  intros Hbase Hok. unfold on_init, call.
  rewrite (on_init_body_validated info s Hbase Hok). unfold bind.
  destruct (build_description (ABBSystemHardware.set_info info s)) as [[x s1] t1].
  destruct x; try reflexivity.
  destruct (configure_egm s1) as [[y s2] t2] eqn:Hegm.
  pose proof (keeps_description_configure_egm _ _ _ _ Hegm) as Hkeep.
  destruct y; exact Hkeep.
Qed.

Lemma synthesis_reads_only info info' s :
  configure_via_rws (HardwareInfo.hardware_parameters info) = false ->
  configure_via_rws (HardwareInfo.hardware_parameters info') = false ->
  Forall2 same_for_synthesis (HardwareInfo.joints info) (HardwareInfo.joints info') ->
  ABBSystemHardware.robot_controller_description_
    (snd (fst (build_description (ABBSystemHardware.set_info info' s))))
  = ABBSystemHardware.robot_controller_description_
      (snd (fst (build_description (ABBSystemHardware.set_info info s)))).
Proof.
  intros Hflag Hflag' Hsame.
  rewrite !build_description_synthesis by assumption.
  destruct (description_from_HardwareInfo_prelude (ABBSystemHardware.set_info info s))
    as (s0 & t0 & -> & Hd0).
  destruct (description_from_HardwareInfo_prelude (ABBSystemHardware.set_info info' s))
    as (s0' & t0' & -> & Hd0').
  cbn [ABBSystemHardware.info_ ABBSystemHardware.set_info
       ABBSystemHardware.robot_controller_description_] in *.
  assert (Hd : ABBSystemHardware.robot_controller_description_ s0'
               = ABBSystemHardware.robot_controller_description_ s0).
  { rewrite Hd0, Hd0', (Forall2_length _ _ _ Hsame). reflexivity. }
  destruct (add_joints_same
              (length (RobotControllerDescription.mechanical_units_groups
                         (ABBSystemHardware.robot_controller_description_ s)))
              _ _ Hsame s0 s0' Hd) as [_ Hafter].
  destruct (for_each (HardwareInfo.joints info') _ s0') as [[x' s1'] t1'].
  destruct (for_each (HardwareInfo.joints info) _ s0) as [[x s1] t1].
  exact Hafter.
Qed.

(** X20. The synthesis does not start from an empty description: with
    [configure_via_rws] at false, joints that keep the contract and position
    bounds that parse, [on_init] appends its group to the groups the object
    already holds (those of an earlier [on_init], say), which it keeps in
    front, unchanged and in order; version and EGM option are set as on a
    fresh object. *)
Theorem on_init_synthesis_appends info s r s' t :
  SystemInterface_on_init info = SUCCESS ->
  Forall interface_contract (HardwareInfo.joints info) ->
  configure_via_rws (HardwareInfo.hardware_parameters info) = false ->
  (forall joint, In joint (HardwareInfo.joints info) ->
     exists ci lo hi,
       position_interface joint = Some ci
       /\ stod (InterfaceInfo.min ci) = Ok lo /\ stod (InterfaceInfo.max ci) = Ok hi) ->
  on_init info s = (r, s', t) ->
  exists sjs,
    ABBSystemHardware.robot_controller_description_ s'
    = {| RobotControllerDescription.header_robot_ware_version :=
           {| RobotWareVersion.major_number := 7;
              RobotWareVersion.minor_number := 3;
              RobotWareVersion.patch_number := 2 |};
         RobotControllerDescription.system_indicators_options_egm := true;
         RobotControllerDescription.mechanical_units_groups :=
           RobotControllerDescription.mechanical_units_groups
             (ABBSystemHardware.robot_controller_description_ s)
           ++ [ synthesized_group (length (HardwareInfo.joints info)) sjs ] |}
    /\ Forall2 describes (HardwareInfo.joints info) sjs.
Proof.
  exact (on_init_synthesis_anywhere info s r s' t).
Qed.

(** X21. Of the declared joints the synthesis reads the name, the type
    parameter and the position command interface, nothing else: two
    [HardwareInfo]s that keep the contract, ask for the synthesis and agree
    joint by joint on these three leave the same description in the same
    object, whatever else differs (velocity limits, state interfaces, joint
    parameters, hardware parameters), and whether or not the bounds parse:
    when one does not, both runs stop at the same joint, with the same
    description built so far. *)
Theorem on_init_synthesis_reads_only info info' s r s' t r' s'' t' :
  SystemInterface_on_init info = SUCCESS ->
  SystemInterface_on_init info' = SUCCESS ->
  Forall interface_contract (HardwareInfo.joints info) ->
  Forall interface_contract (HardwareInfo.joints info') ->
  configure_via_rws (HardwareInfo.hardware_parameters info) = false ->
  configure_via_rws (HardwareInfo.hardware_parameters info') = false ->
  Forall2 same_for_synthesis (HardwareInfo.joints info) (HardwareInfo.joints info') ->
  on_init info s = (r, s', t) ->
  on_init info' s = (r', s'', t') ->
  ABBSystemHardware.robot_controller_description_ s''
  = ABBSystemHardware.robot_controller_description_ s'.
Proof.
  intros Hbase Hbase' Hok Hok' Hflag Hflag' Hsame Hrun Hrun'.
  pose proof (on_init_description_after_build info s Hbase Hok) as Hd.
  pose proof (on_init_description_after_build info' s Hbase' Hok') as Hd'.
  rewrite Hrun in Hd. rewrite Hrun' in Hd'. cbn [fst snd] in Hd, Hd'.
  rewrite Hd, Hd'. exact (synthesis_reads_only info info' s Hflag Hflag' Hsame).
Qed.

End SynthesisProperties.

(** X22. When the description is queried ([configure_via_rws] at true), the
    declared bounds are never parsed: [on_init] gives the same outcome, the
    same object and the same events whatever [std::stod] would answer, so
    that bounds that do not parse cannot make it throw. *)
Theorem on_init_query_never_parses_bounds (E : Externals) f info s :
  configure_via_rws (HardwareInfo.hardware_parameters info) = true ->
  @on_init (with_stod E f) info s = @on_init E info s.
Proof.
  intros Hflag.
  destruct (SystemInterface_on_init info) eqn:Hbase.
  - destruct (@contract_all_or_not E (HardwareInfo.joints info)) as [Hok | Hbad].
    + unfold on_init, call.
      rewrite (@on_init_body_validated (with_stod E f) info s Hbase Hok).
      rewrite (@on_init_body_validated E info s Hbase Hok).
      assert (Hb : @build_description (with_stod E f) (ABBSystemHardware.set_info info s)
                   = @build_description E (ABBSystemHardware.set_info info s)).
      { unfold build_description, bind, gets.
        cbn [ABBSystemHardware.info_ ABBSystemHardware.set_info].
        rewrite Hflag. reflexivity. }
      unfold bind. rewrite Hb. reflexivity.
    + destruct (first_violation _ Hbad) as (good & bad & rest & Hj & Hgood & Hno).
      destruct (validate_first_bad good bad rest (ABBSystemHardware.set_info info s)
                  Hgood Hno) as (m & Hm & _).
      transitivity (Returned ERROR, ABBSystemHardware.set_info info s, [Log FATAL m]);
        [|symmetry];
        unfold on_init, call, on_init_body;
        change (@validate_joint (with_stod E f)) with (@validate_joint E);
        change (@SystemInterface_on_init (with_stod E f)) with (@SystemInterface_on_init E);
        rewrite Hbase;
        unfold bind at 1; cbn [modify]; unfold bind at 1; cbn;
        unfold bind at 1; cbn [gets]; unfold bind at 1;
        cbn [ABBSystemHardware.info_ ABBSystemHardware.set_info];
        rewrite Hj, Hm; reflexivity.
  - rewrite (@on_init_base_refuses (with_stod E f) info s)
      by (change (SystemInterface_on_init info <> SUCCESS); congruence).
    rewrite (@on_init_base_refuses E info s) by congruence. reflexivity.
  - rewrite (@on_init_base_refuses (with_stod E f) info s)
      by (change (SystemInterface_on_init info <> SUCCESS); congruence).
    rewrite (@on_init_base_refuses E info s) by congruence. reflexivity.
Qed.

(** ** The properties above, on the examples *)

Lemma on_init_success_establishes_witness :
  exists s' t cfgs,
    @on_init (Sample.externals Sample.never Sample.seven_tenths)
      Sample.synthesis_info ABBSystemHardware.new
    = (Returned SUCCESS, s', t)
    /\ ABBSystemHardware.egm_manager_ s'
       = Some {| EGMManager.channel_configurations := cfgs |}
    /\ Forall2 (configured (HardwareInfo.hardware_parameters Sample.synthesis_info))
         (RobotControllerDescription.mechanical_units_groups
            (ABBSystemHardware.robot_controller_description_ s')) cfgs.
Proof.
  destruct (@on_init (Sample.externals Sample.never Sample.seven_tenths)
              Sample.synthesis_info ABBSystemHardware.new) as [[r s'] t] eqn:Hrun.
  assert (Hr : r = Returned SUCCESS).
  { apply (f_equal (fun x => fst (fst x))) in Hrun. vm_compute in Hrun.
    symmetry. exact Hrun. }
  subst r.
  destruct (@on_init_success_establishes
              (Sample.externals Sample.never Sample.seven_tenths)
              Sample.synthesis_info ABBSystemHardware.new s' t Hrun)
    as (_ & _ & cfgs & Hegm & _ & Hcfgs & _).
  exists s', t, cfgs. split; [reflexivity|]. split; [exact Hegm | exact Hcfgs].
Defined.

Lemma on_init_query_description_verbatim_witness :
  ABBSystemHardware.robot_controller_description_
    (snd (fst (@on_init (Sample.externals Sample.never Sample.seven_tenths)
                 Sample.arm_info ABBSystemHardware.new)))
  = Sample.controller_description
  /\ List.filter is_rws_connection
       (snd (@on_init (Sample.externals Sample.never Sample.seven_tenths)
               Sample.arm_info ABBSystemHardware.new))
     = [ Call_establishRWSConnection
           {| RWSManager.ip_address := "192.168.125.1";
              RWSManager.port_number := 80;
              RWSManager.username := "Default User";
              RWSManager.password := "robotics" |} "IRB1200" true ].
Proof.
  apply (@on_init_query_description_verbatim
           (Sample.externals Sample.never Sample.seven_tenths)
           Sample.arm_info ABBSystemHardware.new 80 Sample.controller_description).
  - reflexivity.
  - constructor.
  - vm_compute. reflexivity.
  - vm_compute. reflexivity.
  - vm_compute. discriminate.
  - reflexivity.
Defined.

Lemma on_init_query_connection_exception_witness :
  exists s',
    @on_init (Faults.externals (Throw runtime_error) None None Faults.always Sample.never)
      Sample.arm_info ABBSystemHardware.new
    = (Thrown runtime_error, s',
       [ Log INFO Msg_generating_from_RWS;
         Call_establishRWSConnection
           {| RWSManager.ip_address := "192.168.125.1";
              RWSManager.port_number := 80;
              RWSManager.username := "Default User";
              RWSManager.password := "robotics" |} "IRB1200" true ])
    /\ same_members ABBSystemHardware.new s'.
Proof.
  apply (@on_init_query_connection_exception
           (Faults.externals (Throw runtime_error) None None Faults.always Sample.never)
           Sample.arm_info ABBSystemHardware.new 80 runtime_error).
  - reflexivity.
  - constructor.
  - vm_compute. reflexivity.
  - vm_compute. reflexivity.
  - vm_compute. discriminate.
  - reflexivity.
Defined.

Lemma on_init_query_port_exception_witness :
  exists s',
    @on_init (Sample.externals Sample.never Sample.seven_tenths)
      Faults.bad_rws_port_info ABBSystemHardware.new
    = (Thrown invalid_argument, s', [Log INFO Msg_generating_from_RWS])
    /\ same_members ABBSystemHardware.new s'.
Proof.
  apply (@on_init_query_port_exception
           (Sample.externals Sample.never Sample.seven_tenths)
           Faults.bad_rws_port_info ABBSystemHardware.new invalid_argument).
  - reflexivity.
  - constructor.
  - vm_compute. reflexivity.
  - vm_compute. reflexivity.
Defined.

Lemma on_init_motion_data_failure_witness :
  fst (fst (@on_init (Faults.externals (Ok Sample.controller_description)
                        (Some other_exception) None Faults.always Sample.never)
              Sample.arm_info ABBSystemHardware.new))
  = Returned ERROR
  /\ ABBSystemHardware.robot_controller_description_
       (snd (fst (@on_init (Faults.externals (Ok Sample.controller_description)
                              (Some other_exception) None Faults.always Sample.never)
                    Sample.arm_info ABBSystemHardware.new)))
     = Sample.controller_description
  /\ ABBSystemHardware.egm_manager_
       (snd (fst (@on_init (Faults.externals (Ok Sample.controller_description)
                              (Some other_exception) None Faults.always Sample.never)
                    Sample.arm_info ABBSystemHardware.new)))
     = None.
Proof.
  destruct (@build_description
              (Faults.externals (Ok Sample.controller_description)
                 (Some other_exception) None Faults.always Sample.never)
              (ABBSystemHardware.set_info Sample.arm_info ABBSystemHardware.new))
    as [[x s1] t1] eqn:Hbuild.
  assert (Hx : x = Next tt).
  { apply (f_equal (fun r => fst (fst r))) in Hbuild. vm_compute in Hbuild.
    symmetry. exact Hbuild. }
  subst x.
  assert (Hd : ABBSystemHardware.robot_controller_description_ s1
               = Sample.controller_description).
  { apply (f_equal (fun r => ABBSystemHardware.robot_controller_description_ (snd (fst r))))
      in Hbuild.
    vm_compute in Hbuild. symmetry. exact Hbuild. }
  destruct (@on_init_motion_data_failure
              (Faults.externals (Ok Sample.controller_description)
                 (Some other_exception) None Faults.always Sample.never)
              Sample.arm_info ABBSystemHardware.new s1 t1 other_exception)
    as (Hr & _ & Hdesc & Hegm).
  - reflexivity.
  - constructor.
  - exact Hbuild.
  - reflexivity.
  - split; [exact Hr|]. split; [rewrite Hdesc; exact Hd | exact Hegm].
Defined.

Lemma on_init_manager_construction_failure_witness :
  (exists s' t,
     @on_init (Faults.externals (Ok Sample.controller_description)
                 None (Some runtime_error) Faults.always Sample.never)
       Sample.arm_info ABBSystemHardware.new
     = (Returned ERROR, s',
        t ++ [ Call_EGMManager
                 [ {| ChannelConfiguration.port_number := 6511;
                      ChannelConfiguration.mech_unit_group := Sample.arm |} ];
               Log ERROR_LOG Msg_EGM_init_failed ])
     /\ ABBSystemHardware.egm_manager_ s' = None)
  /\ (exists s' t,
        @on_init (Faults.externals (Ok Sample.controller_description)
                    None (Some other_exception) Faults.always Sample.never)
          Sample.arm_info ABBSystemHardware.new
        = (Thrown other_exception, s',
           t ++ [ Call_EGMManager
                    [ {| ChannelConfiguration.port_number := 6511;
                         ChannelConfiguration.mech_unit_group := Sample.arm |} ] ])
        /\ ABBSystemHardware.egm_manager_ s' = None).
Proof.
  split.
  - destruct (@build_description
                (Faults.externals (Ok Sample.controller_description)
                   None (Some runtime_error) Faults.always Sample.never)
                (ABBSystemHardware.set_info Sample.arm_info ABBSystemHardware.new))
      as [[x s1] t1] eqn:Hbuild.
    assert (Hx : x = Next tt).
    { apply (f_equal (fun r => fst (fst r))) in Hbuild. vm_compute in Hbuild.
      symmetry. exact Hbuild. }
    subst x.
    assert (Hd : ABBSystemHardware.robot_controller_description_ s1
                 = Sample.controller_description).
    { apply (f_equal (fun r => ABBSystemHardware.robot_controller_description_ (snd (fst r))))
        in Hbuild.
      vm_compute in Hbuild. symmetry. exact Hbuild. }
    destruct (@on_init_manager_construction_failure
                (Faults.externals (Ok Sample.controller_description)
                   None (Some runtime_error) Faults.always Sample.never)
                Sample.arm_info ABBSystemHardware.new s1 t1
                (MotionData.Build_t
                   (map Sample.mirror_group
                      (RobotControllerDescription.mechanical_units_groups
                         (ABBSystemHardware.robot_controller_description_ s1))))
                [ {| ChannelConfiguration.port_number := 6511;
                     ChannelConfiguration.mech_unit_group := Sample.arm |} ]
                runtime_error)
      as (s' & t & Hrun & Hegm & _).
    + reflexivity.
    + constructor.
    + exact Hbuild.
    + reflexivity.
    + rewrite Hd. repeat constructor. exists 6511. split; vm_compute; reflexivity.
    + reflexivity.
    + exists s', t. split; [exact Hrun | exact Hegm].
  - destruct (@build_description
                (Faults.externals (Ok Sample.controller_description)
                   None (Some other_exception) Faults.always Sample.never)
                (ABBSystemHardware.set_info Sample.arm_info ABBSystemHardware.new))
      as [[x s1] t1] eqn:Hbuild.
    assert (Hx : x = Next tt).
    { apply (f_equal (fun r => fst (fst r))) in Hbuild. vm_compute in Hbuild.
      symmetry. exact Hbuild. }
    subst x.
    assert (Hd : ABBSystemHardware.robot_controller_description_ s1
                 = Sample.controller_description).
    { apply (f_equal (fun r => ABBSystemHardware.robot_controller_description_ (snd (fst r))))
        in Hbuild.
      vm_compute in Hbuild. symmetry. exact Hbuild. }
    destruct (@on_init_manager_construction_failure
                (Faults.externals (Ok Sample.controller_description)
                   None (Some other_exception) Faults.always Sample.never)
                Sample.arm_info ABBSystemHardware.new s1 t1
                (MotionData.Build_t
                   (map Sample.mirror_group
                      (RobotControllerDescription.mechanical_units_groups
                         (ABBSystemHardware.robot_controller_description_ s1))))
                [ {| ChannelConfiguration.port_number := 6511;
                     ChannelConfiguration.mech_unit_group := Sample.arm |} ]
                other_exception)
      as (s' & t & Hrun & Hegm & _).
    + reflexivity.
    + constructor.
    + exact Hbuild.
    + reflexivity.
    + rewrite Hd. repeat constructor. exists 6511. split; vm_compute; reflexivity.
    + reflexivity.
    + exists s', t. split; [exact Hrun | exact Hegm].
Defined.

Lemma on_activate_never_fails_witness :
  exists t,
    @on_activate (Sample.externals Sample.never Sample.seven_tenths)
      (Sample.inactive ["rob1_joint_1"])
    = (Returned SUCCESS,
       ABBSystemHardware.set_motion_data
         (seed_commands
            (Sample.read_at Sample.seven_tenths
               {| EGMManager.channel_configurations := [] |}
               (Sample.mirrored ["rob1_joint_1"])))
         (Sample.inactive ["rob1_joint_1"]),
       t)
    /\ (length (List.filter is_wait t) <= 99)%nat
    /\ length (List.filter is_read t) = 1%nat
    /\ ~ In (Log ERROR_LOG Msg_failed_to_connect) t.
Proof.
  apply (@on_activate_never_fails (Sample.externals Sample.never Sample.seven_tenths)
           (Sample.inactive ["rob1_joint_1"])
           {| EGMManager.channel_configurations := [] |}).
  reflexivity.
Defined.

Lemma on_activate_connects_at_witness :
  @on_activate (Sample.externals (Sample.at_attempt 3) Sample.seven_tenths)
    (Sample.inactive ["rob1_joint_1"])
  = (Returned SUCCESS,
     ABBSystemHardware.set_motion_data
       (seed_commands
          (Sample.read_at Sample.seven_tenths
             {| EGMManager.channel_configurations := [] |}
             (Sample.mirrored ["rob1_joint_1"])))
       (Sample.inactive ["rob1_joint_1"]),
     Log INFO Msg_connecting
       :: misses 2
       ++ [Call_waitForMessage 500; Log INFO Msg_connected; Call_read; Log INFO Msg_started]).
Proof.
  apply (@on_activate_connects_at
           (Sample.externals (Sample.at_attempt 3) Sample.seven_tenths)
           (Sample.inactive ["rob1_joint_1"])
           {| EGMManager.channel_configurations := [] |} 2%nat).
  - reflexivity.
  - reflexivity.
  - intros i _. reflexivity.
  - intros a Ha. cbn [waitForMessage Sample.externals]. unfold Sample.at_attempt.
    apply Z.eqb_neq. cbn in Ha. lia.
  - reflexivity.
Defined.

Lemma on_activate_gives_up_witness :
  @on_activate (Faults.externals (Ok Sample.controller_description) None None
                  (Faults.until 2) Sample.never)
    (Sample.inactive ["rob1_joint_1"])
  = (Returned SUCCESS,
     ABBSystemHardware.set_motion_data
       (seed_commands
          (Sample.read_at Sample.seven_tenths
             {| EGMManager.channel_configurations := [] |}
             (Sample.mirrored ["rob1_joint_1"])))
       (Sample.inactive ["rob1_joint_1"]),
     Log INFO Msg_connecting :: misses 2 ++ [Call_read; Log INFO Msg_started]).
Proof.
  apply (@on_activate_gives_up
           (Faults.externals (Ok Sample.controller_description) None None
              (Faults.until 2) Sample.never)
           (Sample.inactive ["rob1_joint_1"])
           {| EGMManager.channel_configurations := [] |} 2%nat).
  - reflexivity.
  - reflexivity.
  - intros i Hi. cbn [rclcpp_ok Faults.externals]. unfold Faults.until.
    apply Z.ltb_lt. cbn in Hi. lia.
  - intros a _. reflexivity.
  - left. reflexivity.
Defined.

Lemma on_activate_needs_manager_witness :
  exists s' t,
    @on_activate (Sample.externals Sample.never Sample.seven_tenths) ABBSystemHardware.new
    = (UndefinedBehaviour, s', t).
Proof.
  apply (@on_activate_needs_manager (Sample.externals Sample.never Sample.seven_tenths)
           ABBSystemHardware.new).
  reflexivity.
Defined.

Lemma on_activate_after_on_init_witness :
  exists s1 t1 s2 t2,
    @on_init (Sample.externals Sample.never Sample.seven_tenths)
      Sample.synthesis_info ABBSystemHardware.new
    = (Returned SUCCESS, s1, t1)
    /\ @on_activate (Sample.externals Sample.never Sample.seven_tenths) s1
       = (Returned SUCCESS, s2, t2).
Proof.
  destruct (@on_init (Sample.externals Sample.never Sample.seven_tenths)
              Sample.synthesis_info ABBSystemHardware.new) as [[r s1] t1] eqn:Hrun.
  assert (Hr : r = Returned SUCCESS).
  { apply (f_equal (fun x => fst (fst x))) in Hrun. vm_compute in Hrun.
    symmetry. exact Hrun. }
  subst r.
  destruct (@on_activate_after_on_init
              (Sample.externals Sample.never Sample.seven_tenths)
              Sample.synthesis_info ABBSystemHardware.new s1 t1 Hrun)
    as (s2 & t2 & Hact).
  exists s1, t1, s2, t2. split; [reflexivity | exact Hact].
Defined.

Lemma export_unchanged_by_on_activate_witness :
  @export_state_interfaces (Sample.externals Sample.never Sample.seven_tenths)
    (snd (fst (@on_activate (Sample.externals Sample.never Sample.seven_tenths)
                 (Sample.inactive ["rob1_joint_1"; "rob1_joint_2"]))))
  = @export_state_interfaces (Sample.externals Sample.never Sample.seven_tenths)
      (Sample.inactive ["rob1_joint_1"; "rob1_joint_2"])
  /\ @export_command_interfaces (Sample.externals Sample.never Sample.seven_tenths)
       (snd (fst (@on_activate (Sample.externals Sample.never Sample.seven_tenths)
                    (Sample.inactive ["rob1_joint_1"; "rob1_joint_2"]))))
     = @export_command_interfaces (Sample.externals Sample.never Sample.seven_tenths)
         (Sample.inactive ["rob1_joint_1"; "rob1_joint_2"]).
Proof.
  apply (@export_unchanged_by_on_activate
           (Sample.externals Sample.never Sample.seven_tenths)
           (Sample.inactive ["rob1_joint_1"; "rob1_joint_2"])
           {| EGMManager.channel_configurations := [] |}).
  - reflexivity.
  - repeat constructor.
Defined.

Lemma cycle_reports_OK_witness :
  cycle (@read (Sample.externals Sample.never Sample.seven_tenths))
    (Sample.inactive ["rob1_joint_1"])
  = (Some OK,
     ABBSystemHardware.set_motion_data
       (Sample.read_at Sample.seven_tenths
          {| EGMManager.channel_configurations := [] |}
          (Sample.mirrored ["rob1_joint_1"]))
       (Sample.inactive ["rob1_joint_1"]),
     [Call_read])
  /\ cycle (@write (Sample.externals Sample.never Sample.seven_tenths))
       (Sample.inactive ["rob1_joint_1"])
     = (Some OK,
        ABBSystemHardware.set_motion_data (Sample.mirrored ["rob1_joint_1"])
          (Sample.inactive ["rob1_joint_1"]),
        [Call_write]).
Proof.
  destruct (@cycle_reports_OK (Sample.externals Sample.never Sample.seven_tenths)
              (Sample.inactive ["rob1_joint_1"])
              {| EGMManager.channel_configurations := [] |} eq_refl)
    as (Hread & Hwrite & _).
  split; [exact Hread | exact Hwrite].
Defined.

Lemma on_init_synthesis_appends_witness :
  exists sjs,
    ABBSystemHardware.robot_controller_description_
      (snd (fst (@on_init (Sample.externals Sample.never Sample.seven_tenths)
                   Sample.synthesis_info (Sample.inactive ["rob1_joint_1"]))))
    = {| RobotControllerDescription.header_robot_ware_version :=
           {| RobotWareVersion.major_number := 7;
              RobotWareVersion.minor_number := 3;
              RobotWareVersion.patch_number := 2 |};
         RobotControllerDescription.system_indicators_options_egm := true;
         RobotControllerDescription.mechanical_units_groups :=
           [ Sample.arm; synthesized_group 2 sjs ] |}
    /\ Forall2 (@describes (Sample.externals Sample.never Sample.seven_tenths))
         [Sample.j1; Sample.j2] sjs.
Proof.
  destruct (@on_init (Sample.externals Sample.never Sample.seven_tenths)
              Sample.synthesis_info (Sample.inactive ["rob1_joint_1"]))
    as [[r s'] t] eqn:Hrun.
  apply (@on_init_synthesis_appends
           (Sample.externals Sample.never Sample.seven_tenths)
           Sample.synthesis_info (Sample.inactive ["rob1_joint_1"]) r s' t).
  - reflexivity.
  - repeat constructor;
      (eexists _, _, _, _; repeat split; reflexivity).
  - vm_compute. reflexivity.
  - intros joint [<- | [<- | []]].
    + exists (Sample.position "-1.0" "1.0"), (-1)%float, 1%float.
      repeat split; reflexivity.
    + exists (Sample.position "0.0" "0.5"), 0%float, 0.5%float.
      repeat split; reflexivity.
  - exact Hrun.
Defined.

Lemma on_init_synthesis_reads_only_witness :
  ABBSystemHardware.robot_controller_description_
    (snd (fst (@on_init (Sample.externals Sample.never Sample.seven_tenths)
                 other_limits_info ABBSystemHardware.new)))
  = ABBSystemHardware.robot_controller_description_
      (snd (fst (@on_init (Sample.externals Sample.never Sample.seven_tenths)
                   Sample.synthesis_info ABBSystemHardware.new)))
  /\ fst (fst (@on_init (Sample.externals Sample.never Sample.seven_tenths)
                 Sample.unparsable_info ABBSystemHardware.new))
     = Thrown invalid_argument
  /\ ABBSystemHardware.robot_controller_description_
       (snd (fst (@on_init (Sample.externals Sample.never Sample.seven_tenths)
                    other_limits_unparsable_info ABBSystemHardware.new)))
     = ABBSystemHardware.robot_controller_description_
         (snd (fst (@on_init (Sample.externals Sample.never Sample.seven_tenths)
                      Sample.unparsable_info ABBSystemHardware.new))).
Proof.
  split; [|split].
  - destruct (@on_init (Sample.externals Sample.never Sample.seven_tenths)
                Sample.synthesis_info ABBSystemHardware.new) as [[r s'] t] eqn:Hrun.
    destruct (@on_init (Sample.externals Sample.never Sample.seven_tenths)
                other_limits_info ABBSystemHardware.new) as [[r' s''] t'] eqn:Hrun'.
    apply (@on_init_synthesis_reads_only
             (Sample.externals Sample.never Sample.seven_tenths)
             Sample.synthesis_info other_limits_info ABBSystemHardware.new
             r s' t r' s'' t').
    + reflexivity.
    + reflexivity.
    + repeat constructor;
        (eexists _, _, _, _; repeat split; reflexivity).
    + repeat constructor;
        (eexists _, _, _, _; repeat split; reflexivity).
    + vm_compute. reflexivity.
    + vm_compute. reflexivity.
    + repeat constructor; vm_compute; reflexivity.
    + exact Hrun.
    + exact Hrun'.
  - vm_compute. reflexivity.
  - destruct (@on_init (Sample.externals Sample.never Sample.seven_tenths)
                Sample.unparsable_info ABBSystemHardware.new) as [[r s'] t] eqn:Hrun.
    destruct (@on_init (Sample.externals Sample.never Sample.seven_tenths)
                other_limits_unparsable_info ABBSystemHardware.new)
      as [[r' s''] t'] eqn:Hrun'.
    apply (@on_init_synthesis_reads_only
             (Sample.externals Sample.never Sample.seven_tenths)
             Sample.unparsable_info other_limits_unparsable_info ABBSystemHardware.new
             r s' t r' s'' t').
    + reflexivity.
    + reflexivity.
    + repeat constructor;
        (eexists _, _, _, _; repeat split; reflexivity).
    + repeat constructor;
        (eexists _, _, _, _; repeat split; reflexivity).
    + vm_compute. reflexivity.
    + vm_compute. reflexivity.
    + repeat constructor; vm_compute; reflexivity.
    + exact Hrun.
    + exact Hrun'.
Defined.

Lemma on_init_query_never_parses_bounds_witness :
  @on_init (with_stod (Sample.externals Sample.never Sample.seven_tenths)
              (fun _ => Throw invalid_argument))
    query_unparsable_info ABBSystemHardware.new
  = @on_init (Sample.externals Sample.never Sample.seven_tenths)
      query_unparsable_info ABBSystemHardware.new.
Proof.
  apply (on_init_query_never_parses_bounds
           (Sample.externals Sample.never Sample.seven_tenths)
           (fun _ => Throw invalid_argument) query_unparsable_info ABBSystemHardware.new).
  vm_compute. reflexivity.
Defined.
